(** * Portfolio dashboard: F1 telemetry processing and resume file handling

    A shallow embedding of [utils/f1_functions.py] and [utils/pdf_utils.py].

    Conventions of the embedding:
    - a pandas column of floats is a list of rationals [Q]; lap numbers are
      integers [Z]; a missing value (NaT / NaN) is [None].  Sums and means
      are exact here, where pandas rounds them to float64;
    - a function under [@st.cache_data] is given as its body and, where a
      statement depends on it, as the decorated function with its store
      ([process_driver_data], [load_pdf_as_base64]);
    - a Python [dict] keyed by driver code is a [gmap string _];
    - a Python exception is the [Raise] constructor of [result]; a
      [try ... except] block is [try_except];
    - a function that mutates its argument returns the new value. *)

From Stdlib Require Import ZArith NArith QArith Qabs List String Ascii Sorted.
From Stdlib Require Import Lia Zify Lqa.
From Stdlib.Strings Require Import Byte.
From stdpp Require Import gmap strings list.
Import ListNotations.

Local Open Scope Z_scope.
Local Open Scope string_scope.
Local Open Scope list_scope.

(** ** Python exceptions *)

Inductive exn : Type :=
| IndexError
| KeyError
| ValueError
| ZeroDivisionError
| StreamlitAPIException
| UnicodeEncodeError
| OSError
| ExternalError (msg : string).

Inductive result (A : Type) : Type :=
| Ok (a : A)
| Raise (e : exn).

Arguments Ok {A} a.
Arguments Raise {A} e.

#[global] Instance result_ret : MRet result := fun A a => Ok a.

#[global] Instance result_bind : MBind result := fun A B k r =>
  match r with
  | Ok a => k a
  | Raise e => Raise e
  end.

(** [try: body except Exception as e: handler e] *)
Definition try_except {A : Type} (body : result A) (handler : exn -> A) : A :=
  match body with
  | Ok a => a
  | Raise e => handler e
  end.

(** [str(e)]; the texts stand for the messages of the Python runtime. *)
Definition str_exn (e : exn) : string :=
  match e with
  | IndexError => "index out of range"
  | KeyError => "key error"
  | ValueError => "value error"
  | ZeroDivisionError => "division by zero"
  | StreamlitAPIException => "streamlit api exception"
  | UnicodeEncodeError => "codec cannot encode character"
  | OSError => "os error"
  | ExternalError msg => msg
  end.

(** ** Rational helpers for float columns *)

Definition Qlt_bool (a b : Q) : bool := negb (Qle_bool b a).

(** ** Laps and the lap filter *)

Module Lap.
Record t : Type := mk {
  Driver : string;
  LapNumber : Z;
  IsAccurate : bool;
  LapTime : option Q;      (* seconds; [None] is NaT *)
  PitOutTime : option Q;
  PitInTime : option Q
}.
End Lap.

(** Column-wise helpers, as pandas evaluates the mask. *)
Definition column {A B : Type} (f : A -> B) (rows : list A) : list B :=
  List.map f rows.

Definition notna {A : Type} (col : list (option A)) : list bool :=
  List.map (fun v => match v with Some _ => true | None => false end) col.

Definition isna {A : Type} (col : list (option A)) : list bool :=
  List.map (fun v => match v with Some _ => false | None => true end) col.

Definition eq_True (col : list bool) : list bool :=
  List.map (fun b => Bool.eqb b true) col.

(** Element-wise [&] of two boolean columns. *)
Fixpoint mask_and (m1 m2 : list bool) : list bool :=
  match m1, m2 with
  | b1 :: r1, b2 :: r2 => (b1 && b2) :: mask_and r1 r2
  | _, _ => []
  end.

(** [df.loc[mask]]: the rows whose mask entry is true, in frame order. *)
Fixpoint loc_mask {A : Type} (rows : list A) (mask : list bool) : list A :=
  match rows, mask with
  | r :: rows', b :: mask' =>
      if b then r :: loc_mask rows' mask' else loc_mask rows' mask'
  | _, _ => []
  end.

(** The filter of [process_driver_data], lines 106-111. *)
Definition valid_laps (driver_laps : list Lap.t) : list Lap.t :=
  loc_mask driver_laps
    (mask_and
       (mask_and
          (mask_and (eq_True (column Lap.IsAccurate driver_laps))
                    (notna (column Lap.LapTime driver_laps)))
          (isna (column Lap.PitOutTime driver_laps)))
       (isna (column Lap.PitInTime driver_laps))).

(** The validity condition in the words of the specification. *)
Definition lap_is_valid (lap : Lap.t) : Prop :=
  Lap.IsAccurate lap = true /\
  Lap.LapTime lap <> None /\
  Lap.PitInTime lap = None /\
  Lap.PitOutTime lap = None.

Definition lap_is_validb (lap : Lap.t) : bool :=
  Bool.eqb (Lap.IsAccurate lap) true
  && match Lap.LapTime lap with Some _ => true | None => false end
  && match Lap.PitOutTime lap with Some _ => false | None => true end
  && match Lap.PitInTime lap with Some _ => false | None => true end.

(** ** Telemetry samples *)

(** A row of the trace returned by [lap.get_telemetry()]. *)
Module Raw.
Record t : Type := mk {
  Time : Q;
  Speed : Q;
  RPM : Q;
  Throttle : Q;
  Brake : Q;
  DRS : Q;
  nGear : Q;
  X : Q;
  Y : Q
}.
End Raw.

(** A row of a driver telemetry series: the nine [required_cols] and the
    three stamped columns. *)
Module Tel.
Record t : Type := mk {
  Distance : Q;
  Speed : Q;
  RPM : Q;
  Throttle : Q;
  Brake : Q;
  DRS : Q;
  nGear : Q;
  X : Q;
  Y : Q;
  LapNumber : Z;
  Driver : string;
  LapTime : option Q
}.
End Tel.

(** The external session object.  [pick_drivers] and [get_telemetry] may
    raise; [segment_length dx dy] is the length the data API assigns to a
    position delta when it integrates distance. *)
Record Session : Type := {
  pick_drivers : string -> result (list Lap.t);
  get_telemetry : Lap.t -> result (list Raw.t);
  segment_length : Q -> Q -> Q
}.

(** Modelled from the spec: [Telemetry.add_distance] belongs to the data
    API and is not part of this repository.  The specification describes
    the column as the cumulative arc-length along the driven path, derived
    from successive position deltas: the first sample is at distance 0 and
    every later sample adds the length of the step from its predecessor. *)
Fixpoint integrate_distance (len : Q -> Q -> Q) (acc : Q) (prev : Raw.t)
    (rest : list Raw.t) : list Q :=
  match rest with
  | [] => []
  | p :: rest' =>
      let acc' := (acc + len (Raw.X p - Raw.X prev) (Raw.Y p - Raw.Y prev))%Q in
      acc' :: integrate_distance len acc' p rest'
  end.

(** Modelled from the spec: the [Distance] column that
    [telemetry.add_distance()] adds, paired with the rows of the trace. *)
Definition add_distance (ses : Session) (telemetry : list Raw.t)
    : list (Q * Raw.t) :=
  match telemetry with
  | [] => []
  | p :: rest =>
      combine (0%Q :: integrate_distance (segment_length ses) 0%Q p rest)
        telemetry
  end.

(** [telemetry[required_cols].copy()] followed by the three column
    assignments of lines 133-135. *)
Definition stamp (lap_number : Z) (driver_code : string)
    (lap_time : option Q) (row : Q * Raw.t) : Tel.t :=
  let '(dist, r) := row in
  {| Tel.Distance := dist;
     Tel.Speed := Raw.Speed r;
     Tel.RPM := Raw.RPM r;
     Tel.Throttle := Raw.Throttle r;
     Tel.Brake := Raw.Brake r;
     Tel.DRS := Raw.DRS r;
     Tel.nGear := Raw.nGear r;
     Tel.X := Raw.X r;
     Tel.Y := Raw.Y r;
     Tel.LapNumber := lap_number;
     Tel.Driver := driver_code;
     Tel.LapTime := lap_time |}.

(** ** [process_driver_data] *)

(** [df.empty] *)
Definition df_empty {A : Type} (rows : list A) : bool :=
  match rows with [] => true | _ :: _ => false end.

(** [series.unique()]: distinct values in order of first appearance. *)
Fixpoint unique_from (seen : list Z) (col : list Z) : list Z :=
  match col with
  | [] => []
  | v :: rest =>
      if existsb (Z.eqb v) seen then unique_from seen rest
      else v :: unique_from (v :: seen) rest
  end.

Definition unique (col : list Z) : list Z := unique_from [] col.

(** [df.iloc[0]] *)
Definition iloc0 {A : Type} (rows : list A) : result A :=
  match rows with
  | [] => Raise IndexError
  | r :: _ => Ok r
  end.

(** [col == v] on an integer column. *)
Definition eq_col (col : list Z) (v : Z) : list bool :=
  List.map (fun w => Z.eqb w v) col.

(** The body of the inner [try] (lines 122-138) up to the two [append]s:
    [Ok None] is the [continue] on an empty trace. *)
Definition lap_telemetry (ses : Session) (driver_code : string)
    (lap_number : Z) (lap : Lap.t) : result (option (list Tel.t)) :=
  telemetry ← get_telemetry ses lap;
  if df_empty telemetry then Ok None
  else
    Ok (Some (List.map (stamp lap_number driver_code (Lap.LapTime lap))
                (add_distance ses telemetry))).

(** The loop over [valid_laps['LapNumber'].unique()].  The first component
    is what the loop leaves in [driver_telemetry_laps], or the exception
    that escapes to the outer [try]; the second is [all_laps_telemetry]. *)
Fixpoint lap_loop (ses : Session) (driver_code : string)
    (valid : list Lap.t) (lap_numbers : list Z)
    (driver_telemetry_laps all_laps_telemetry : list (list Tel.t))
    : result (list (list Tel.t)) * list (list Tel.t) :=
  match lap_numbers with
  | [] => (Ok driver_telemetry_laps, all_laps_telemetry)
  | lap_number :: rest =>
      match iloc0 (loc_mask valid (eq_col (column Lap.LapNumber valid) lap_number)) with
      | Raise e => (Raise e, all_laps_telemetry)
      | Ok lap =>
          match try_except (lap_telemetry ses driver_code lap_number lap)
                  (fun _ => None) with
          | None =>
              lap_loop ses driver_code valid rest
                driver_telemetry_laps all_laps_telemetry
          | Some telemetry =>
              lap_loop ses driver_code valid rest
                (driver_telemetry_laps ++ [telemetry])
                (all_laps_telemetry ++ [telemetry])
          end
      end
  end.

(** The variables the driver loop updates, and the warnings shown. *)
Record PState : Type := {
  driver_data : gmap string (list Tel.t);
  all_laps_telemetry : list (list Tel.t);
  warnings : list string
}.

(** The body of the outer [try] (lines 101-146) for one driver. *)
Definition process_one_driver (ses : Session) (driver_code : string)
    (st : PState) : result unit * PState :=
  match pick_drivers ses driver_code with
  | Raise e => (Raise e, st)
  | Ok driver_laps =>
      if df_empty driver_laps then (Ok tt, st)
      else
        let valid := valid_laps driver_laps in
        if df_empty valid then (Ok tt, st)
        else
          let '(r, all') :=
            lap_loop ses driver_code valid
              (unique (column Lap.LapNumber valid)) []
              (all_laps_telemetry st) in
          let st' := {| driver_data := driver_data st;
                        all_laps_telemetry := all';
                        warnings := warnings st |} in
          match r with
          | Raise e => (Raise e, st')
          | Ok driver_telemetry_laps =>
              if df_empty driver_telemetry_laps then (Ok tt, st')
              else
                (Ok tt,
                 {| driver_data :=
                      <[driver_code := concat driver_telemetry_laps]>
                        (driver_data st);
                    all_laps_telemetry := all';
                    warnings := warnings st |})
          end
  end.

(** [a / b] on Python integers. *)
Definition py_truediv (a b : Z) : result Q :=
  if Z.eqb b 0 then Raise ZeroDivisionError
  else Ok (inject_Z a / inject_Z b)%Q.

(** [progress_bar.progress(value)]: the UI rejects a value outside [0, 1]. *)
Definition progress (value : Q) : result unit :=
  if Qle_bool 0 value && Qle_bool value 1 then Ok tt
  else Raise StreamlitAPIException.

(** [enumerate(l)] *)
Definition enumerate {A : Type} (l : list A) : list (nat * A) :=
  combine (seq 0 (length l)) l.

(** The [for idx, driver_code in enumerate(drivers)] loop; [n] is
    [len(drivers)]. *)
Fixpoint driver_loop (ses : Session) (n : Z) (items : list (nat * string))
    (st : PState) : result PState :=
  match items with
  | [] => Ok st
  | (idx, driver_code) :: rest =>
      value ← py_truediv (Z.of_nat idx + 1) n;
      _ ← progress value;
      let '(r, st') := process_one_driver ses driver_code st in
      let st'' :=
        match r with
        | Ok _ => st'
        | Raise e =>
            {| driver_data := driver_data st';
               all_laps_telemetry := all_laps_telemetry st';
               warnings :=
                 warnings st' ++
                   ["Error processing " +:+ driver_code +:+ ": " +:+ str_exn e] |}
        end in
      driver_loop ses n rest st''
  end.

Definition initial_state : PState :=
  {| driver_data := ∅; all_laps_telemetry := []; warnings := [] |}.

(** Lines 91-150: the state after the loop.  [progress_bar.empty()] only
    clears the indicator. *)
Definition process_driver_data_run (ses : Session) (drivers : list string)
    : result PState :=
  _ ← progress 0;
  driver_loop ses (Z.of_nat (length drivers)) (enumerate drivers)
    initial_state.

(** The body of [process_driver_data] (lines 91-158): what a call that
    runs it returns. *)
Definition process_driver_data_body (ses : Session) (drivers : list string)
    : result (gmap string (list Tel.t) * list Tel.t) :=
  st ← process_driver_data_run ses drivers;
  if df_empty (all_laps_telemetry st) then Ok (∅, [])
  else Ok (driver_data st, concat (all_laps_telemetry st)).

(** The store of [@st.cache_data] for [process_driver_data]: the value
    returned for each driver list seen so far.  The parameter [_session]
    starts with an underscore, so it is not hashed: the driver list alone
    is the key. *)
Definition DriverCache : Type :=
  gmap (list string) (gmap string (list Tel.t) * list Tel.t).

(** [process_driver_data] as decorated (lines 79-80): a call with a
    driver list in the store returns the stored value without running the
    body; any other call runs the body and stores what it returns.  An
    exception is not stored. *)
Definition process_driver_data (ses : Session) (drivers : list string)
    (cache : DriverCache)
    : result (gmap string (list Tel.t) * list Tel.t) * DriverCache :=
  match cache !! drivers with
  | Some stored => (Ok stored, cache)
  | None =>
      match process_driver_data_body ses drivers with
      | Ok value => (Ok value, <[drivers := value]> cache)
      | Raise e => (Raise e, cache)
      end
  end.

(** ** Chart descriptions *)

(** The hover text of a trace.  [HoverPosition d] is the f-string
    [<b>Current Position</b><br>Distance: {d:.1f}m<extra></extra>] with its
    argument kept as a number; [HoverStart] is the literal with [0m]. *)
Inductive Hover : Type :=
| HoverSkip
| HoverStart
| HoverPosition (actual_distance : Q)
| HoverMetric (driver_code metric_title : string).

Inductive Style : Type :=
| Line (color : string) (width : Z)
| Marker (size : Z) (color symbol : string) (line_width : Z)
    (line_color : string).

Module Trace.
Record t : Type := mk {
  x : list Q;
  y : list Q;
  mode : string;
  name : string;
  style : Style;
  hovertemplate : Hover;
  legendgroup : option string;
  showlegend : bool;
  row : nat
}.
End Trace.

Inductive Title : Type :=
| NoTitle
| TrackTitle
| TelemetryTitle (selected_lap : Z).

(** Of the layout, the title, the height, the hover mode and the axis and
    subplot titles are kept; the fixed colours and margins are left out. *)
Module Layout.
Record t : Type := mk {
  title : Title;
  height : option Z;
  hovermode : string;
  subplot_titles : list string;
  xaxis_title : string;
  yaxis_titles : list string
}.
End Layout.

Module VLine.
Record t : Type := mk {
  x : Q;
  annotation : Q;
  row : nat
}.
End VLine.

Module Figure.
Record t : Type := mk {
  data : list Trace.t;
  vlines : list VLine.t;
  layout : Layout.t
}.
End Figure.

(** [go.Figure()] *)
Definition empty_figure : Figure.t :=
  {| Figure.data := [];
     Figure.vlines := [];
     Figure.layout :=
       {| Layout.title := NoTitle;
          Layout.height := None;
          Layout.hovermode := "closest";
          Layout.subplot_titles := [];
          Layout.xaxis_title := "";
          Layout.yaxis_titles := [] |} |}.

Definition add_trace (fig : Figure.t) (tr : Trace.t) : Figure.t :=
  {| Figure.data := Figure.data fig ++ [tr];
     Figure.vlines := Figure.vlines fig;
     Figure.layout := Figure.layout fig |}.

(** ** Dictionaries and labelled frames *)

(** [key in d] *)
Definition contains {V : Type} (d : gmap string V) (key : string) : bool :=
  match d !! key with Some _ => true | None => false end.

(** [d[key]] *)
Definition dict_getitem {V : Type} (d : gmap string V) (key : string)
    : result V :=
  match d !! key with
  | Some v => Ok v
  | None => Raise KeyError
  end.

(** [l[i]] for a non-negative index. *)
Definition list_getitem {A : Type} (l : list A) (i : nat) : result A :=
  match l !! i with
  | Some v => Ok v
  | None => Raise IndexError
  end.

(** [col.min()]; [None] is the NaN of an empty column. *)
Fixpoint min_from (best : Z) (rest : list Z) : Z :=
  match rest with
  | [] => best
  | v :: rest' => min_from (if Z.ltb v best then v else best) rest'
  end.

Definition col_min (col : list Z) : option Z :=
  match col with
  | [] => None
  | v :: rest => Some (min_from v rest)
  end.

(** [col == v] where [v] may be NaN: nothing equals NaN. *)
Definition eq_col_opt (col : list Z) (v : option Z) : list bool :=
  match v with
  | Some w => eq_col col w
  | None => List.map (fun _ => false) col
  end.

(** [series.idxmin()]: the label of the first occurrence of the minimum. *)
Fixpoint idxmin_from (best : nat * Q) (rest : list (nat * Q)) : nat :=
  match rest with
  | [] => fst best
  | (label, v) :: rest' =>
      if Qlt_bool v (snd best) then idxmin_from (label, v) rest'
      else idxmin_from best rest'
  end.

Definition idxmin (series : list (nat * Q)) : result nat :=
  match series with
  | [] => Raise ValueError
  | first :: rest => Ok (idxmin_from first rest)
  end.

(** [frame.loc[label, col]] as a scalar. *)
Definition loc_at {A B : Type} (frame : list (nat * A)) (label : nat)
    (col : A -> B) : result B :=
  match List.filter (fun r => Nat.eqb (fst r) label) frame with
  | [] => Raise KeyError
  | [r] => Ok (col (snd r))
  | _ :: _ :: _ => Raise ValueError
  end.

(** The frame of the first selected driver's lowest-numbered lap, with the
    row labels of the driver's series (lines 379-381). *)
Definition track_frame (first_driver_data : list Tel.t)
    : list (nat * Tel.t) :=
  let first_lap := col_min (column Tel.LapNumber first_driver_data) in
  loc_mask (enumerate first_driver_data)
    (eq_col_opt (column Tel.LapNumber first_driver_data) first_lap).

(** ** [create_track_plot] *)

Definition track_layout (height : Z) : Layout.t :=
  {| Layout.title := TrackTitle;
     Layout.height := Some height;
     Layout.hovermode := "closest";
     Layout.subplot_titles := [];
     Layout.xaxis_title := "X Coordinate (m)";
     Layout.yaxis_titles := ["Y Coordinate (m)"] |}.

Definition create_track_plot (driver_data : gmap string (list Tel.t))
    (selected_drivers : list string) (height : Z) : result Figure.t :=
  let fig := empty_figure in
  match selected_drivers with
  | [] => Ok fig
  | first :: _ =>
      if negb (contains driver_data first) then Ok fig
      else
        first_driver_data ← dict_getitem driver_data first;
        let track_data := track_frame first_driver_data in
        if df_empty track_data then Ok fig
        else
          let fig :=
            add_trace fig
              {| Trace.x := column (fun r => Tel.X (snd r)) track_data;
                 Trace.y := column (fun r => Tel.Y (snd r)) track_data;
                 Trace.mode := "lines";
                 Trace.name := "Track Layout";
                 Trace.style := Line "#666666" 4;
                 Trace.hovertemplate := HoverSkip;
                 Trace.legendgroup := None;
                 Trace.showlegend := false;
                 Trace.row := 1%nat |} in
          x0 ← iloc0 (column (fun r => Tel.X (snd r)) track_data);
          y0 ← iloc0 (column (fun r => Tel.Y (snd r)) track_data);
          let fig :=
            add_trace fig
              {| Trace.x := [x0];
                 Trace.y := [y0];
                 Trace.mode := "markers";
                 Trace.name := "Current Position";
                 Trace.style := Marker 15 "#FF6B35" "circle" 3 "white";
                 Trace.hovertemplate := HoverStart;
                 Trace.legendgroup := None;
                 Trace.showlegend := false;
                 Trace.row := 1%nat |} in
          Ok {| Figure.data := Figure.data fig;
                Figure.vlines := Figure.vlines fig;
                Figure.layout := track_layout height |}
  end.

(** ** [update_track_marker] *)

(** The three assignments to [fig.data[1]] of lines 396-398. *)
Definition move_marker (marker_x marker_y actual_distance : Q)
    (tr : Trace.t) : Trace.t :=
  {| Trace.x := [marker_x];
     Trace.y := [marker_y];
     Trace.mode := Trace.mode tr;
     Trace.name := Trace.name tr;
     Trace.style := Trace.style tr;
     Trace.hovertemplate := HoverPosition actual_distance;
     Trace.legendgroup := Trace.legendgroup tr;
     Trace.showlegend := Trace.showlegend tr;
     Trace.row := Trace.row tr |}.

(** The function returns nothing and updates [fig] in place: the result
    is the figure after the call. *)
Definition update_track_marker (fig : Figure.t)
    (driver_data : gmap string (list Tel.t))
    (selected_drivers : list string) (selected_distance : Q)
    : result Figure.t :=
  match selected_drivers with
  | [] => Ok fig
  | first :: _ =>
      if negb (contains driver_data first) then Ok fig
      else
        first_driver_data ← dict_getitem driver_data first;
        let track_data := track_frame first_driver_data in
        if df_empty track_data then Ok fig
        else
          let distances :=
            List.map
              (fun r => (fst r, Qabs (Tel.Distance (snd r) - selected_distance)))
              track_data in
          closest_idx ← idxmin distances;
          marker_x ← loc_at track_data closest_idx Tel.X;
          marker_y ← loc_at track_data closest_idx Tel.Y;
          actual_distance ← loc_at track_data closest_idx Tel.Distance;
          if Nat.ltb 1 (length (Figure.data fig)) then
            Ok {| Figure.data :=
                    alter (move_marker marker_x marker_y actual_distance)
                      1%nat (Figure.data fig);
                  Figure.vlines := Figure.vlines fig;
                  Figure.layout := Figure.layout fig |}
          else Ok fig
  end.

(** ** [create_telemetry_plots] *)

Definition telemetry_metrics : list (string * (Tel.t -> Q)) :=
  [("Speed", Tel.Speed); ("RPM", Tel.RPM); ("Throttle", Tel.Throttle);
   ("Brake", Tel.Brake); ("DRS", Tel.DRS); ("nGear", Tel.nGear)].

Definition metric_titles : list string :=
  ["Speed (km/h)"; "RPM"; "Throttle (%)"; "Brake"; "DRS"; "Gear"].

Definition num_metrics : nat := length telemetry_metrics.

(** [make_subplots(rows, cols=1, shared_xaxes=True, subplot_titles)] *)
Definition make_subplots (rows : nat) (subplot_titles : list string)
    : Figure.t :=
  {| Figure.data := [];
     Figure.vlines := [];
     Figure.layout :=
       {| Layout.title := NoTitle;
          Layout.height := None;
          Layout.hovermode := "closest";
          Layout.subplot_titles := subplot_titles;
          Layout.xaxis_title := "";
          Layout.yaxis_titles := [] |} |}.

(** The dictionary display of lines 270-273.  Python evaluates each key
    before its value, pair by pair, so both subscripts are evaluated
    whatever the length of the list. *)
Definition driver_colors (selected_drivers : list string)
    : result (gmap string string) :=
  key0 ← list_getitem selected_drivers 0;
  let value0 := "#00D4FF" in
  key1 ← list_getitem selected_drivers 1;
  let value1 :=
    if Nat.ltb 1 (length selected_drivers) then "#FF6B35" else "#F7931E" in
  Ok (<[key1 := value1]> (<[key0 := value0]> ∅)).

(** [df.sort_values(by='Distance')], as an insertion sort.  pandas sorts
    with an unstable quicksort by default, so rows with equal distances
    may come in another order there. *)
Fixpoint insert_by_distance (s : Tel.t) (sorted : list Tel.t) : list Tel.t :=
  match sorted with
  | [] => [s]
  | t :: rest =>
      if Qle_bool (Tel.Distance s) (Tel.Distance t) then s :: sorted
      else t :: insert_by_distance s rest
  end.

Definition sort_values (df : list Tel.t) : list Tel.t :=
  fold_right insert_by_distance [] df.

Definition metric_trace (colors : gmap string string) (driver_code : string)
    (lap_telemetry : list Tel.t) (i : nat) (metric : string * (Tel.t -> Q))
    : Trace.t :=
  {| Trace.x := column Tel.Distance lap_telemetry;
     Trace.y := column (snd metric) lap_telemetry;
     Trace.mode := "lines";
     Trace.name := driver_code;
     Trace.style := Line (default "white" (colors !! driver_code)) 2;
     Trace.hovertemplate := HoverMetric driver_code (nth i metric_titles "");
     Trace.legendgroup := Some driver_code;
     Trace.showlegend := Nat.eqb i 0;
     Trace.row := S i |}.

Definition add_vline (selected_distance : Q) (fig : Figure.t) (i : nat)
    : Figure.t :=
  {| Figure.data := Figure.data fig;
     Figure.vlines :=
       Figure.vlines fig ++
         [{| VLine.x := selected_distance;
             VLine.annotation := selected_distance;
             VLine.row := S i |}];
     Figure.layout := Figure.layout fig |}.

(** One iteration of the loop over [selected_drivers] (lines 276-320). *)
Definition plot_driver (driver_data : gmap string (list Tel.t))
    (colors : gmap string string) (selected_lap : Z) (selected_distance : Q)
    (fig : Figure.t) (driver_code : string) : result Figure.t :=
  if negb (contains driver_data driver_code) then Ok fig
  else
    df ← dict_getitem driver_data driver_code;
    if df_empty df then Ok fig
    else
      let lap_telemetry :=
        loc_mask df (eq_col (column Tel.LapNumber df) selected_lap) in
      if df_empty lap_telemetry then Ok fig
      else
        let lap_telemetry := sort_values lap_telemetry in
        let fig :=
          fold_left
            (fun f im => add_trace f
               (metric_trace colors driver_code lap_telemetry (fst im) (snd im)))
            (enumerate telemetry_metrics) fig in
        Ok (fold_left (add_vline selected_distance) (seq 0 num_metrics) fig).

Fixpoint plot_drivers (driver_data : gmap string (list Tel.t))
    (colors : gmap string string) (selected_lap : Z) (selected_distance : Q)
    (drivers : list string) (fig : Figure.t) : result Figure.t :=
  match drivers with
  | [] => Ok fig
  | driver_code :: rest =>
      fig' ← plot_driver driver_data colors selected_lap selected_distance
               fig driver_code;
      plot_drivers driver_data colors selected_lap selected_distance rest fig'
  end.

Definition telemetry_layout (selected_lap : Z) (fig : Figure.t) : Figure.t :=
  {| Figure.data := Figure.data fig;
     Figure.vlines := Figure.vlines fig;
     Figure.layout :=
       {| Layout.title := TelemetryTitle selected_lap;
          Layout.height := Some (150 * Z.of_nat num_metrics);
          Layout.hovermode := "x unified";
          Layout.subplot_titles := Layout.subplot_titles (Figure.layout fig);
          Layout.xaxis_title := "Distance (m)";
          Layout.yaxis_titles := metric_titles |} |}.

Definition create_telemetry_plots (driver_data : gmap string (list Tel.t))
    (selected_drivers : list string) (selected_lap : Z)
    (selected_distance : Q) : result Figure.t :=
  let fig := make_subplots num_metrics metric_titles in
  colors ← driver_colors selected_drivers;
  fig ← plot_drivers driver_data colors selected_lap selected_distance
          selected_drivers fig;
  Ok (telemetry_layout selected_lap fig).

(** ** [get_lap_summary_stats] *)

Module Stats.
Record t : Type := mk {
  max_speed : Q;
  avg_speed : Q;
  max_rpm : Q;
  avg_throttle : Q;
  avg_brake : Q;
  drs_usage : Q
}.
End Stats.

(** [col.max()] of a column with at least one value. *)
Fixpoint max_from (best : Q) (rest : list Q) : Q :=
  match rest with
  | [] => best
  | v :: rest' => max_from (if Qlt_bool best v then v else best) rest'
  end.

Definition col_sum (col : list Q) : Q :=
  fold_left Qplus col 0%Q.

(** [col.mean()] *)
Definition col_mean (col : list Q) : Q :=
  (col_sum col / inject_Z (Z.of_nat (length col)))%Q.

(** [(col > 0).sum()] *)
Definition count_positive (col : list Q) : nat :=
  length (List.filter (fun v => Qlt_bool 0 v) col).

(** The dictionary stored for one driver; the lap has the row [first]
    and the rows [others]. *)
Definition lap_stats (first : Tel.t) (others : list Tel.t) : Stats.t :=
  let lap_data := first :: others in
  {| Stats.max_speed := max_from (Tel.Speed first) (column Tel.Speed others);
     Stats.avg_speed := col_mean (column Tel.Speed lap_data);
     Stats.max_rpm := max_from (Tel.RPM first) (column Tel.RPM others);
     Stats.avg_throttle := col_mean (column Tel.Throttle lap_data);
     Stats.avg_brake := col_mean (column Tel.Brake lap_data);
     Stats.drs_usage :=
       (inject_Z (Z.of_nat (count_positive (column Tel.DRS lap_data)))
        / inject_Z (Z.of_nat (length lap_data)) * 100)%Q |}.

Fixpoint stats_loop (driver_data : gmap string (list Tel.t))
    (selected_lap : Z) (drivers : list string) (stats : gmap string Stats.t)
    : result (gmap string Stats.t) :=
  match drivers with
  | [] => Ok stats
  | driver :: rest =>
      if negb (contains driver_data driver) then
        stats_loop driver_data selected_lap rest stats
      else
        df ← dict_getitem driver_data driver;
        match loc_mask df (eq_col (column Tel.LapNumber df) selected_lap) with
        | [] => stats_loop driver_data selected_lap rest stats
        | first :: others =>
            stats_loop driver_data selected_lap rest
              (<[driver := lap_stats first others]> stats)
        end
  end.

Definition get_lap_summary_stats (driver_data : gmap string (list Tel.t))
    (selected_drivers : list string) (selected_lap : Z)
    : result (gmap string Stats.t) :=
  stats_loop driver_data selected_lap selected_drivers ∅.

(** ** [get_available_events] *)

Module Event.
Record t : Type := mk {
  EventName : string;
  EventDate : Z      (* a timestamp *)
}.
End Event.

Definition fallback_events : list string :=
  ["Bahrain Grand Prix"; "Saudi Arabian Grand Prix"; "Australian Grand Prix";
   "Japanese Grand Prix"; "Chinese Grand Prix"; "Miami Grand Prix";
   "Emilia Romagna Grand Prix"; "Monaco Grand Prix"; "Canadian Grand Prix";
   "Spanish Grand Prix"; "Austrian Grand Prix"; "British Grand Prix";
   "Hungarian Grand Prix"; "Belgian Grand Prix"; "Dutch Grand Prix";
   "Italian Grand Prix"; "Azerbaijan Grand Prix"; "Singapore Grand Prix";
   "United States Grand Prix"; "Mexico City Grand Prix";
   "SÃ£o Paulo Grand Prix"].

(** The loop of lines 61-64. *)
Fixpoint occurred_events (current_date : Z) (schedule : list Event.t)
    (events : list string) : list string :=
  match schedule with
  | [] => events
  | event :: rest =>
      let event_date := Event.EventDate event in
      if Z.leb event_date current_date then
        occurred_events current_date rest (events ++ [Event.EventName event])
      else occurred_events current_date rest events
  end.

(** The body of [get_available_events] (lines 54-77); the function is
    cached per year (line 44), and what is said of it below is said of a
    call that runs the body.  [get_event_schedule] is the data API's
    schedule request, which may raise; [now] is the value of
    [datetime.now()]. *)
Definition get_available_events
    (get_event_schedule : Z -> result (list Event.t)) (now : Z) (year : Z)
    : list string :=
  try_except
    (schedule ← get_event_schedule year;
     let current_date := now in
     let events := occurred_events current_date schedule [] in
     Ok (if negb (df_empty events) then events
         else take 10 (column Event.EventName schedule)))
    (fun _ => fallback_events).

(** ** Text files ([utils/pdf_utils.py], [pages/Resume.py]) *)

(** A Python [str] is its sequence of code points. *)
Abbreviation pystr := (list N).

(** A path is its sequence of components. *)
Abbreviation Path := (list string).

Definition str_of_literal (s : string) : pystr :=
  List.map N_of_ascii (list_ascii_of_string s).

Definition byte_of_N (n : N) : Byte.byte :=
  default Byte.x00 (Byte.of_N n).

Local Open Scope N_scope.

Definition is_surrogate (c : N) : bool :=
  (0xD800 <=? c) && (c <=? 0xDFFF).

(** The UTF-8 codec of [open(..., encoding='utf-8')], which is strict:
    a surrogate code point cannot be encoded. *)
Definition utf8_encode_char (c : N) : result (list Byte.byte) :=
  if c <? 0x80 then Ok [byte_of_N c]
  else if c <? 0x800 then
    Ok [byte_of_N (0xC0 + c / 0x40); byte_of_N (0x80 + c mod 0x40)]
  else if c <? 0x10000 then
    if is_surrogate c then Raise UnicodeEncodeError
    else
      Ok [byte_of_N (0xE0 + c / 0x1000);
          byte_of_N (0x80 + (c / 0x40) mod 0x40);
          byte_of_N (0x80 + c mod 0x40)]
  else if c <? 0x110000 then
    Ok [byte_of_N (0xF0 + c / 0x40000);
        byte_of_N (0x80 + (c / 0x1000) mod 0x40);
        byte_of_N (0x80 + (c / 0x40) mod 0x40);
        byte_of_N (0x80 + c mod 0x40)]
  else Raise UnicodeEncodeError.

Fixpoint utf8_encode (s : pystr) : result (list Byte.byte) :=
  match s with
  | [] => Ok []
  | c :: rest =>
      bs ← utf8_encode_char c;
      more ← utf8_encode rest;
      Ok (bs ++ more)
  end.

Definition is_continuation (b : N) : bool :=
  (0x80 <=? b) && (b <? 0xC0).

Fixpoint utf8_decode_codes (bs : list N) : result pystr :=
  match bs with
  | [] => Ok []
  | b0 :: r0 =>
      if b0 <? 0x80 then
        s ← utf8_decode_codes r0; Ok (b0 :: s)
      else if b0 <? 0xC2 then Raise ValueError
      else if b0 <? 0xE0 then
        match r0 with
        | b1 :: r1 =>
            if is_continuation b1 then
              s ← utf8_decode_codes r1;
              Ok (((b0 - 0xC0) * 0x40 + (b1 - 0x80)) :: s)
            else Raise ValueError
        | _ => Raise ValueError
        end
      else if b0 <? 0xF0 then
        match r0 with
        | b1 :: b2 :: r2 =>
            let c :=
              (b0 - 0xE0) * 0x1000 + (b1 - 0x80) * 0x40 + (b2 - 0x80) in
            if is_continuation b1 && is_continuation b2
               && (0x800 <=? c) && negb (is_surrogate c) then
              s ← utf8_decode_codes r2; Ok (c :: s)
            else Raise ValueError
        | _ => Raise ValueError
        end
      else if b0 <? 0xF5 then
        match r0 with
        | b1 :: b2 :: b3 :: r3 =>
            let c :=
              (b0 - 0xF0) * 0x40000 + (b1 - 0x80) * 0x1000
              + (b2 - 0x80) * 0x40 + (b3 - 0x80) in
            if is_continuation b1 && is_continuation b2 && is_continuation b3
               && (0x10000 <=? c) && (c <? 0x110000) then
              s ← utf8_decode_codes r3; Ok (c :: s)
            else Raise ValueError
        | _ => Raise ValueError
        end
      else Raise ValueError
  end.

Definition utf8_decode (bs : list Byte.byte) : result pystr :=
  utf8_decode_codes (List.map Byte.to_N bs).

Inductive Platform : Type := Posix | Windows.

(** [os.linesep] *)
Definition os_linesep (p : Platform) : pystr :=
  match p with
  | Posix => [10]
  | Windows => [13; 10]
  end.

(** Text-mode writing with the default [newline=None]: every line feed
    becomes [os.linesep]. *)
Definition translate_on_write (p : Platform) (s : pystr) : pystr :=
  flat_map (fun c => if c =? 10 then os_linesep p else [c]) s.

(** Text-mode reading with the default [newline=None] (universal
    newlines): CR LF and a lone CR both become a line feed. *)
Fixpoint universal_newlines (s : pystr) : pystr :=
  match s with
  | [] => []
  | c :: rest =>
      if c =? 13 then
        match rest with
        | d :: rest' =>
            if d =? 10 then 10 :: universal_newlines rest'
            else 10 :: universal_newlines rest
        | [] => [10]
        end
      else c :: universal_newlines rest
  end.

Local Close Scope N_scope.

(** The part of the machine the functions touch: the files, the paths
    that cannot be written (the paths the system refuses to create,
    overwrite or remove), the working directory, and the messages passed to
    [st.error]. *)
Record World : Type := {
  files : gmap Path (list Byte.byte);
  read_only : gset Path;
  cwd : Path;
  errors : list string
}.

Definition set_files (w : World) (fs : gmap Path (list Byte.byte)) : World :=
  {| files := fs; read_only := read_only w; cwd := cwd w;
     errors := errors w |}.

(** [st.error(msg)] *)
Definition st_error (w : World) (msg : string) : World :=
  {| files := files w; read_only := read_only w; cwd := cwd w;
     errors := errors w ++ [msg] |}.

(** [os.chdir(dir)] *)
Definition chdir (w : World) (dir : Path) : World :=
  {| files := files w; read_only := read_only w; cwd := dir;
     errors := errors w |}.

(** [path.exists()] *)
Definition path_exists (w : World) (p : Path) : bool :=
  match files w !! p with Some _ => true | None => false end.

Definition write_bytes (w : World) (p : Path) (data : list Byte.byte)
    : result World :=
  if decide (p ∈ read_only w) then Raise OSError
  else Ok (set_files w (<[p := data]> (files w))).

Definition read_bytes (w : World) (p : Path) : result (list Byte.byte) :=
  match files w !! p with
  | Some data => Ok data
  | None => Raise OSError
  end.

(** Directories are implicit in the paths of the files: [dir] is a
    directory when a file lies below it. *)
Fixpoint strictly_below (dir p : Path) : bool :=
  match dir, p with
  | [], _ :: _ => true
  | d :: dir', c :: p' => String.eqb d c && strictly_below dir' p'
  | _, _ => false
  end.

Definition is_dir (w : World) (dir : Path) : bool :=
  existsb (strictly_below dir) (List.map fst (map_to_list (files w))).

(** [dir.mkdir(parents=True, exist_ok=True)]: nothing is done, and nothing
    is refused, for a directory that exists; a missing directory is
    created unless the system refuses to. *)
Definition mkdir (w : World) (dir : Path) : result World :=
  if is_dir w dir then Ok w
  else if decide (dir ∈ read_only w) then Raise OSError else Ok w.

(** [path.unlink()] *)
Definition unlink (w : World) (p : Path) : result World :=
  if decide (p ∈ read_only w) then Raise OSError
  else Ok (set_files w (delete p (files w))).

(** [shutil.copy2(src, dst)] *)
Definition copy2 (w : World) (src dst : Path) : result World :=
  data ← read_bytes w src;
  write_bytes w dst data.

(** [open(p, 'r', encoding='utf-8').read()] *)
Definition read_text (w : World) (p : Path) : result pystr :=
  data ← read_bytes w p;
  s ← utf8_decode data;
  Ok (universal_newlines s).

(** What the functions take from their environment: the directory of the
    application ([get_base_path()]), the platform, and the behaviour of
    the [pdflatex] executable. *)
Inductive ToolRun : Type :=
| Completed (returncode : Z) (stderr : string)
    (files_after : gmap Path (list Byte.byte))
| SpawnError (e : exn).

Record Env : Type := {
  base_path : Path;
  platform : Platform;
  pdflatex : Path -> gmap Path (list Byte.byte) -> ToolRun
}.

Definition get_base_path (env : Env) : Path := base_path env.

Definition get_latex_template : pystr :=
  str_of_literal "
\documentclass[letterpaper,11pt]{article}
\usepackage[utf8]{inputenc}
\usepackage{geometry}
\usepackage{xcolor}
\usepackage{fontawesome}
\usepackage{hyperref}
\usepackage{enumitem}

\geometry{margin=0.75in}

\definecolor{primarycolor}{RGB}{255, 107, 53}
\definecolor{secondarycolor}{RGB}{247, 147, 30}

\hypersetup{
    colorlinks=true,
    linkcolor=primarycolor,
    urlcolor=primarycolor,
    pdfborder={0 0 0}
}

\pagestyle{empty}

\begin{document}

\begin{center}
    {\huge \textbf{\textcolor{primarycolor}{Your Name}}}\\[0.3cm]
    {\large Data Scientist \& Analytics Professional}\\[0.5cm]
    
    \faEnvelope \hspace{0.1cm} your.email@gmail.com \hspace{0.5cm}
    \faPhone \hspace{0.1cm} +1 (555) 123-4567 \hspace{0.5cm}
    \faLinkedin \hspace{0.1cm} \href{https://linkedin.com/in/yourprofile}{LinkedIn} \hspace{0.5cm}
    \faGithub \hspace{0.1cm} \href{https://github.com/yourusername}{GitHub}
\end{center}

\vspace{0.5cm}

\section*{\textcolor{primarycolor}{Professional Summary}}
Experienced data scientist and analytics professional with expertise in F1 telemetry analysis, 
interactive dashboard development, and real-time data processing. Proven track record of 
delivering insights through advanced visualization and statistical modeling.

\section*{\textcolor{primarycolor}{Professional Experience}}

\textbf{Senior Data Analyst} \hfill \textit{2022 - Present}\\
\textit{Company ABC} \hfill \textit{New York, NY}
\begin{itemize}[leftmargin=0.5in]
    \item Developed interactive F1 telemetry analysis dashboard using Python and Streamlit, serving 10,000+ users
    \item Implemented real-time data processing pipelines handling 1M+ telemetry records daily with 99.9\% uptime
    \item Created automated reporting systems reducing manual analysis work by 75\%
    \item Led cross-functional team of 5 data professionals in delivering analytics solutions
    \item Optimized database queries resulting in 40\% faster dashboard loading times
\end{itemize}

\textbf{Data Analyst} \hfill \textit{2020 - 2022}\\
\textit{Data Solutions Inc.} \hfill \textit{Boston, MA}
\begin{itemize}[leftmargin=0.5in]
    \item Built predictive models for customer behavior analysis using machine learning techniques
    \item Designed and maintained ETL pipelines for multi-source data integration
    \item Created executive dashboards using Tableau and Power BI
\end{itemize}

\section*{\textcolor{primarycolor}{Technical Skills}}

\textbf{Programming Languages:} Python, SQL, R, JavaScript, HTML/CSS\\
\textbf{Data Analysis:} Pandas, NumPy, SciPy, Statsmodels, Scikit-learn\\
\textbf{Visualization:} Plotly, Streamlit, Tableau, D3.js, Matplotlib, Seaborn\\
\textbf{Machine Learning:} TensorFlow, PyTorch, XGBoost, Random Forest\\
\textbf{Databases:} PostgreSQL, MySQL, MongoDB, Redis\\
\textbf{Cloud Platforms:} AWS, Azure, Google Cloud Platform\\
\textbf{Tools:} Git, Docker, Jupyter, FastF1 API, Apache Spark

\section*{\textcolor{primarycolor}{Featured Projects}}

\textbf{F1 Telemetry Analysis Dashboard}
\begin{itemize}[leftmargin=0.5in]
    \item Interactive web application for Formula 1 data analysis and driver comparison
    \item Real-time telemetry visualization with track mapping and performance metrics
    \item Technologies: Python, Streamlit, FastF1 API, Plotly, Bootstrap
    \item Impact: 10,000+ users, featured in motorsport analytics communities
\end{itemize}

\textbf{Multi-Page Analytics Portfolio}
\begin{itemize}[leftmargin=0.5in]
    \item Comprehensive portfolio showcasing data science projects and professional experience
    \item Responsive design with custom CSS and Bootstrap integration
    \item Features: Interactive resume, project galleries, PDF generation
\end{itemize}

\section*{\textcolor{primarycolor}{Education}}

\textbf{Master of Science in Data Science} \hfill \textit{2020}\\
\textit{University of Technology} \hfill \textit{Boston, MA}

\textbf{Bachelor of Science in Computer Science} \hfill \textit{2018}\\
\textit{State University} \hfill \textit{Boston, MA}

\section*{\textcolor{primarycolor}{Certifications}}

\textbf{AWS Certified Solutions Architect} \hfill \textit{2023}\\
\textbf{Google Cloud Professional Data Engineer} \hfill \textit{2022}\\
\textbf{Tableau Desktop Specialist} \hfill \textit{2021}

\end{document}
".

(** ** [save_latex_template] *)

(** [open(latex_file, 'w', encoding='utf-8')] truncates the file; the
    [write] encodes the translated text and stores it. *)
Definition save_latex_template (env : Env) (content : option pystr)
    (w : World) : bool * World :=
  let latex_dir := get_base_path env ++ ["assets"; "resume_latex"] in
  match mkdir w latex_dir with
  | Raise e =>
      (false, st_error w ("Error saving LaTeX template: " +:+ str_exn e))
  | Ok w =>
      let latex_file := latex_dir ++ ["resume.tex"] in
      let content :=
        match content with
        | None => get_latex_template
        | Some c => c
        end in
      match write_bytes w latex_file [] with
      | Raise e =>
          (false, st_error w ("Error saving LaTeX template: " +:+ str_exn e))
      | Ok w =>
          match
            data ← utf8_encode (translate_on_write (platform env) content);
            write_bytes w latex_file data
          with
          | Raise e =>
              (false,
               st_error w ("Error saving LaTeX template: " +:+ str_exn e))
          | Ok w => (true, w)
          end
      end
  end.

(** The read of [display_latex_source] (lines 393-395): the relative
    path is resolved against the working directory. *)
Definition latex_path : Path := ["assets"; "resume_latex"; "resume.tex"].

Definition read_latex_source (w : World) : result pystr :=
  read_text w (cwd w ++ latex_path).

(** ** [compile_latex_resume] *)

Definition pdflatex_args : list string :=
  ["pdflatex"; "-interaction=nonstopmode"; "resume.tex"].

Definition aux_extensions : list string :=
  [".aux"; ".log"; ".out"; ".fls"; ".fdb_latexmk"].

(** The clean-up loop; an exception leaves the files removed so far
    removed. *)
Fixpoint clean_aux (latex_dir : Path) (exts : list string) (w : World)
    : result unit * World :=
  match exts with
  | [] => (Ok tt, w)
  | ext :: rest =>
      let aux_file := latex_dir ++ ["resume" +:+ ext] in
      if path_exists w aux_file then
        match unlink w aux_file with
        | Raise e => (Raise e, w)
        | Ok w' => clean_aux latex_dir rest w'
        end
      else clean_aux latex_dir rest w
  end.

(** Both [except] clauses restore the directory, report, and return
    [False]. *)
Definition compile_failed (w : World) (original_dir : Path) (e : exn)
    : bool * World :=
  (false,
   st_error (chdir w original_dir)
     ("Error during compilation: " +:+ str_exn e)).

Definition compile_latex_resume (env : Env) (w : World) : bool * World :=
  let latex_dir := get_base_path env ++ ["assets"; "resume_latex"] in
  let latex_file := "resume.tex" in
  if negb (path_exists w (latex_dir ++ [latex_file])) then
    (false, st_error w "LaTeX resume template not found")
  else
    let original_dir := cwd w in
    let w := chdir w latex_dir in
    match pdflatex env (cwd w) (files w) with
    | SpawnError e => compile_failed w original_dir e
    | Completed returncode1 stderr1 files1 =>
        let w := set_files w files1 in
        if negb (Z.eqb returncode1 0) then
          (false,
           chdir (st_error w ("LaTeX compilation failed: " +:+ stderr1))
             original_dir)
        else
          match pdflatex env (cwd w) (files w) with
          | SpawnError e => compile_failed w original_dir e
          | Completed returncode2 stderr2 files2 =>
              let w := set_files w files2 in
              let pdf_source := latex_dir ++ ["resume.pdf"] in
              let pdf_target := get_base_path env ++ ["assets"; "resume.pdf"] in
              match
                (if path_exists w pdf_source
                 then copy2 w pdf_source pdf_target else Ok w)
              with
              | Raise e => compile_failed w original_dir e
              | Ok w =>
                  match clean_aux latex_dir aux_extensions w with
                  | (Raise e, w) => compile_failed w original_dir e
                  | (Ok _, w) => (true, chdir w original_dir)
                  end
              end
          end
    end.

(** ** The telemetry aligner in the words of the specification *)

(** The trace that lap number [lap_number] contributes to a driver's
    series: the stamped trace of the first valid lap with that number, or
    nothing when the fetch raises or the trace is empty. *)
Definition lap_block (ses : Session) (driver_code : string)
    (valid : list Lap.t) (lap_number : Z) : option (list Tel.t) :=
  match List.find (fun lap => Z.eqb (Lap.LapNumber lap) lap_number) valid with
  | None => None
  | Some lap =>
      match get_telemetry ses lap with
      | Raise _ => None
      | Ok [] => None
      | Ok (p :: rest) =>
          Some (List.map (stamp lap_number driver_code (Lap.LapTime lap))
                  (add_distance ses (p :: rest)))
      end
  end.

(** The traces of a driver's valid laps, in lap order; none when the
    request for the driver's laps raises. *)
Definition driver_blocks (ses : Session) (driver_code : string)
    : list (list Tel.t) :=
  match pick_drivers ses driver_code with
  | Raise _ => []
  | Ok driver_laps =>
      let valid := List.filter lap_is_validb driver_laps in
      omap (lap_block ses driver_code valid)
        (unique (List.map Lap.LapNumber valid))
  end.

(** The driver's entry in the mapping: absent when no trace was kept. *)
Definition driver_series (ses : Session) (driver_code : string)
    : option (list Tel.t) :=
  match driver_blocks ses driver_code with
  | [] => None
  | blocks => Some (concat blocks)
  end.

(** What the loop leaves in the mapping for driver [d]. *)
Definition entry_after (ses : Session) (codes : list string)
    (dd : gmap string (list Tel.t)) (d : string) : option (list Tel.t) :=
  if bool_decide (d ∈ codes) then
    match driver_series ses d with
    | Some series => Some series
    | None => dd !! d
    end
  else dd !! d.

(** The reference trace of the track map: the rows of the first selected
    driver's lowest-numbered lap, in series order. *)
Definition reference_trace (first_driver_data : list Tel.t) : list Tel.t :=
  List.map snd (track_frame first_driver_data).

(** [fig.data[1] = tr] *)
Definition set_marker (fig : Figure.t) (tr : Trace.t) : Figure.t :=
  {| Figure.data := <[1%nat := tr]> (Figure.data fig);
     Figure.vlines := Figure.vlines fig;
     Figure.layout := Figure.layout fig |}.

(** The rows of lap [selected_lap] in a series. *)
Definition lap_rows (series : list Tel.t) (selected_lap : Z) : list Tel.t :=
  List.filter (fun s => Z.eqb (Tel.LapNumber s) selected_lap) series.

(** The statistics a driver should get: none for a driver without an entry
    in the mapping or without rows at the lap. *)
Definition stats_entry (driver_data : gmap string (list Tel.t))
    (selected_lap : Z) (driver : string) : option Stats.t :=
  match driver_data !! driver with
  | None => None
  | Some series =>
      match lap_rows series selected_lap with
      | [] => None
      | first :: others => Some (lap_stats first others)
      end
  end.

(** What the statistics loop leaves for driver [d]. *)
Definition stats_after (driver_data : gmap string (list Tel.t))
    (selected_lap : Z) (drivers : list string) (stats : gmap string Stats.t)
    (d : string) : option Stats.t :=
  if bool_decide (d ∈ drivers) then
    match stats_entry driver_data selected_lap d with
    | Some s => Some s
    | None => stats !! d
    end
  else stats !! d.

(** A season of eleven races, none of them run yet at time 0. *)
Definition future_season : list Event.t :=
  List.map (fun name => {| Event.EventName := name; Event.EventDate := 100 |})
    ["Race 1"; "Race 2"; "Race 3"; "Race 4"; "Race 5"; "Race 6"; "Race 7";
     "Race 8"; "Race 9"; "Race 10"; "Race 11"].

(** ** Sample machines *)

(** A machine without [pdflatex] installed. *)
Definition plain_env (p : Platform) : Env :=
  {| base_path := ["app"];
     platform := p;
     pdflatex := fun _ _ => SpawnError (ExternalError "pdflatex: not found") |}.

Definition empty_world : World :=
  {| files := ∅; read_only := ∅; cwd := ["app"]; errors := [] |}.

(** A [pdflatex] whose first pass succeeds and leaves [resume.aux] and a
    PDF, and whose second pass, reading that [resume.aux], rewrites the
    PDF and exits with status 1. *)
Definition two_pass_pdflatex (dir : Path) (fs : gmap Path (list Byte.byte))
    : ToolRun :=
  match fs !! (dir ++ ["resume.aux"]) with
  | None =>
      Completed 0 ""
        (<[dir ++ ["resume.pdf"] := list_byte_of_string "first pass"]>
           (<[dir ++ ["resume.aux"] := list_byte_of_string "labels"]> fs))
  | Some _ =>
      Completed 1 "! Undefined control sequence."
        (<[dir ++ ["resume.pdf"] := list_byte_of_string "second pass"]> fs)
  end.

Definition two_pass_env : Env :=
  {| base_path := ["app"];
     platform := Posix;
     pdflatex := two_pass_pdflatex |}.

(** The source is saved and an earlier [assets/resume.pdf] exists. *)
Definition resume_world : World :=
  {| files :=
       <[["app"; "assets"; "resume.pdf"] := list_byte_of_string "previous"]>
         (<[["app"; "assets"; "resume_latex"; "resume.tex"] :=
              list_byte_of_string "source"]> ∅);
     read_only := ∅;
     cwd := ["app"];
     errors := [] |}.

(** ** A sample session *)

(** Driver VER has two valid laps, each with a trace of three samples at
    50 m steps along the X axis; driver HAM has only pit laps. *)
Definition sample_raw (time x speed : Q) : Raw.t :=
  {| Raw.Time := time; Raw.Speed := speed; Raw.RPM := 11000;
     Raw.Throttle := 100; Raw.Brake := 0; Raw.DRS := 0; Raw.nGear := 7;
     Raw.X := x; Raw.Y := 0 |}.

Definition sample_trace : list Raw.t :=
  [sample_raw 0 0 200; sample_raw 1 50 250; sample_raw 2 100 300].

Definition sample_lap (driver : string) (n : Z) (pit_in : option Q) : Lap.t :=
  {| Lap.Driver := driver; Lap.LapNumber := n; Lap.IsAccurate := true;
     Lap.LapTime := Some 90%Q; Lap.PitOutTime := None;
     Lap.PitInTime := pit_in |}.

Definition sample_laps : list Lap.t :=
  [sample_lap "VER" 1 None; sample_lap "VER" 2 None;
   sample_lap "VER" 3 (Some 300%Q)].

Definition sample_session : Session :=
  {| pick_drivers := fun driver =>
       if String.eqb driver "VER" then Ok sample_laps
       else if String.eqb driver "HAM" then
         Ok [sample_lap "HAM" 1 (Some 100%Q); sample_lap "HAM" 2 (Some 200%Q)]
       else Raise (ExternalError "unknown driver");
     get_telemetry := fun lap => Ok sample_trace;
     segment_length := fun dx dy => (Qabs dx + Qabs dy)%Q |}.

Definition sample_sample (n : Z) (dist speed : Q) : Tel.t :=
  {| Tel.Distance := dist; Tel.Speed := speed; Tel.RPM := 11000;
     Tel.Throttle := 100; Tel.Brake := 0; Tel.DRS := 0; Tel.nGear := 7;
     Tel.X := dist; Tel.Y := 0; Tel.LapNumber := n; Tel.Driver := "VER";
     Tel.LapTime := Some 90%Q |}.

Definition sample_series : list Tel.t :=
  [sample_sample 1 0 200; sample_sample 1 50 250; sample_sample 1 100 300;
   sample_sample 2 0 200; sample_sample 2 50 250; sample_sample 2 100 300].

Definition sample_data : gmap string (list Tel.t) :=
  {["VER" := sample_series]}.

Definition sample_outline : Trace.t :=
  {| Trace.x := [0; 50; 100]%Q;
     Trace.y := [0; 0; 0]%Q;
     Trace.mode := "lines";
     Trace.name := "Track Layout";
     Trace.style := Line "#666666" 4;
     Trace.hovertemplate := HoverSkip;
     Trace.legendgroup := None;
     Trace.showlegend := false;
     Trace.row := 1%nat |}.

Definition sample_marker : Trace.t :=
  {| Trace.x := [0%Q];
     Trace.y := [0%Q];
     Trace.mode := "markers";
     Trace.name := "Current Position";
     Trace.style := Marker 15 "#FF6B35" "circle" 3 "white";
     Trace.hovertemplate := HoverStart;
     Trace.legendgroup := None;
     Trace.showlegend := false;
     Trace.row := 1%nat |}.

Definition sample_figure : Figure.t :=
  {| Figure.data := [sample_outline; sample_marker];
     Figure.vlines := [];
     Figure.layout := track_layout 600 |}.

(** The world after saving a two-line text on the sample machine. *)
Definition two_lines : pystr := [104; 105; 10; 233; 10]%N.

Definition saved_world : World :=
  snd (save_latex_template (plain_env Windows) (Some two_lines) empty_world).

(** ** Further descriptions used by the properties below *)

(** The warning the driver loop shows for a driver: one when the request
    for the driver's laps raises, none otherwise. *)
Definition driver_warning (ses : Session) (driver_code : string)
    : option string :=
  match pick_drivers ses driver_code with
  | Raise e =>
      Some ("Error processing " +:+ driver_code +:+ ": " +:+ str_exn e)
  | Ok _ => None
  end.

(** The reference trace for a selection: empty when no driver is
    selected or the first selected driver has no entry. *)
Definition selected_reference (driver_data : gmap string (list Tel.t))
    (selected_drivers : list string) : list Tel.t :=
  match selected_drivers with
  | [] => []
  | first :: _ =>
      match driver_data !! first with
      | None => []
      | Some series => reference_trace series
      end
  end.

(** The row [update_track_marker] reads the marker position from: the row
    of the reference frame whose label [idxmin] returns. *)
Definition marker_row (driver_data : gmap string (list Tel.t))
    (selected_drivers : list string) (selected_distance : Q)
    : option Tel.t :=
  match selected_drivers with
  | [] => None
  | first :: _ =>
      match driver_data !! first with
      | None => None
      | Some series =>
          let track_data := track_frame series in
          match
            idxmin
              (List.map
                 (fun r =>
                    (fst r, Qabs (Tel.Distance (snd r) - selected_distance)))
                 track_data)
          with
          | Raise _ => None
          | Ok label =>
              snd <$> List.find (fun r => Nat.eqb (fst r) label) track_data
          end
      end
  end.

(** The figure after the marker assignments for row [row]. *)
Definition place_marker (row : option Tel.t) (fig : Figure.t) : Figure.t :=
  match row with
  | None => fig
  | Some s =>
      if Nat.ltb 1 (length (Figure.data fig)) then
        {| Figure.data :=
             alter (move_marker (Tel.X s) (Tel.Y s) (Tel.Distance s)) 1%nat
               (Figure.data fig);
           Figure.vlines := Figure.vlines fig;
           Figure.layout := Figure.layout fig |}
      else fig
  end.

(** The figure of the track map for a reference trace with first row
    [r0]: the outline through all rows and the marker on the first. *)
Definition track_figure (reference : list Tel.t) (r0 : Tel.t) (height : Z)
    : Figure.t :=
  {| Figure.data :=
       [{| Trace.x := column Tel.X reference;
           Trace.y := column Tel.Y reference;
           Trace.mode := "lines";
           Trace.name := "Track Layout";
           Trace.style := Line "#666666" 4;
           Trace.hovertemplate := HoverSkip;
           Trace.legendgroup := None;
           Trace.showlegend := false;
           Trace.row := 1%nat |};
        {| Trace.x := [Tel.X r0];
           Trace.y := [Tel.Y r0];
           Trace.mode := "markers";
           Trace.name := "Current Position";
           Trace.style := Marker 15 "#FF6B35" "circle" 3 "white";
           Trace.hovertemplate := HoverStart;
           Trace.legendgroup := None;
           Trace.showlegend := false;
           Trace.row := 1%nat |}];
     Figure.vlines := [];
     Figure.layout := track_layout height |}.

(** The rows of lap [selected_lap] in the entry of [driver_code]; none
    when the driver has no entry. *)
Definition driver_lap_rows (driver_data : gmap string (list Tel.t))
    (selected_lap : Z) (driver_code : string) : list Tel.t :=
  match driver_data !! driver_code with
  | Some df => lap_rows df selected_lap
  | None => []
  end.

(** The traces and reference lines one plotted driver adds to the
    comparison figure. *)
Definition driver_traces (colors : gmap string string) (driver_code : string)
    (rows : list Tel.t) : list Trace.t :=
  List.map
    (fun im => metric_trace colors driver_code (sort_values rows)
                 (fst im) (snd im))
    (enumerate telemetry_metrics).

Definition driver_vlines (selected_distance : Q) : list VLine.t :=
  List.map
    (fun i => {| VLine.x := selected_distance;
                 VLine.annotation := selected_distance;
                 VLine.row := S i |})
    (seq 0 num_metrics).

Definition plotted_traces (driver_data : gmap string (list Tel.t))
    (colors : gmap string string) (selected_lap : Z) (driver_code : string)
    : list Trace.t :=
  match driver_lap_rows driver_data selected_lap driver_code with
  | [] => []
  | rows => driver_traces colors driver_code rows
  end.

Definition plotted_vlines (driver_data : gmap string (list Tel.t))
    (selected_lap : Z) (selected_distance : Q) (driver_code : string)
    : list VLine.t :=
  match driver_lap_rows driver_data selected_lap driver_code with
  | [] => []
  | _ => driver_vlines selected_distance
  end.

(** Whether a driver has rows at the lap. *)
Definition has_lap_rows (driver_data : gmap string (list Tel.t))
    (selected_lap : Z) (driver_code : string) : bool :=
  negb (df_empty (driver_lap_rows driver_data selected_lap driver_code)).

(** ** The lap selector of the analysis page
    ([pages/F1_Telemetry_Analysis.py], lines 184-189) *)

(** [sorted(l)] on integers, as an insertion sort. *)
Fixpoint insert_sorted (v : Z) (sorted : list Z) : list Z :=
  match sorted with
  | [] => [v]
  | w :: rest =>
      if Z.leb v w then v :: sorted else w :: insert_sorted v rest
  end.

Definition sorted (l : list Z) : list Z := fold_right insert_sorted [] l.

(** The laps offered by the selector: the lap numbers of the first
    selected driver's series, or none when that driver has no entry. *)
Definition available_laps (driver_data : gmap string (list Tel.t))
    (selected_drivers : list string) : result (list Z) :=
  first ← list_getitem selected_drivers 0;
  if contains driver_data first then
    df ← dict_getitem driver_data first;
    Ok (sorted (unique (column Tel.LapNumber df)))
  else Ok [].

(** ** Further descriptions of the text files *)

(** A code point the UTF-8 codec accepts. *)
Definition encodable (c : N) : bool :=
  (c <? 0x110000)%N && negb (is_surrogate c).

(** The first step of [display_latex_source] ([pages/Resume.py], lines
    390-400): the text shown in the editor and the machine afterwards.
    The relative path is resolved against the working directory; the
    result of the save is not looked at. *)
Definition load_latex_source (env : Env) (w : World) : result pystr * World :=
  if path_exists w (cwd w ++ latex_path) then (read_latex_source w, w)
  else
    let latex_content := get_latex_template in
    let '(_, w') := save_latex_template env (Some latex_content) w in
    (Ok latex_content, w').

(** ** Showing the PDF ([utils/pdf_utils.py], lines 83-168) *)

(** [base64.b64encode(data).decode('utf-8')]: the standard alphabet with
    [=] padding. *)
Definition b64_alphabet : string :=
  "ABCDEFGHIJKLMNOPQRSTUVWXYZabcdefghijklmnopqrstuvwxyz0123456789+/".

Definition b64_char (n : N) : ascii :=
  nth (N.to_nat n) (list_ascii_of_string b64_alphabet) "="%char.

Fixpoint b64encode_codes (bs : list N) : list ascii :=
  match bs with
  | [] => []
  | [a] =>
      [b64_char (a / 4); b64_char ((a mod 4) * 16); "="%char; "="%char]
  | [a; b] =>
      [b64_char (a / 4); b64_char ((a mod 4) * 16 + b / 16);
       b64_char ((b mod 16) * 4); "="%char]
  | a :: b :: c :: rest =>
      b64_char (a / 4) :: b64_char ((a mod 4) * 16 + b / 16)
      :: b64_char ((b mod 16) * 4 + c / 64) :: b64_char (c mod 64)
      :: b64encode_codes rest
  end%N.

Definition b64encode (data : list Byte.byte) : string :=
  string_of_list_ascii (b64encode_codes (List.map Byte.to_N data)).

(** The body of [load_pdf_as_base64(pdf_path)]. *)
Definition load_pdf_as_base64_body (env : Env) (pdf_path : Path) (w : World)
    : option string * World :=
  let full_path := get_base_path env ++ pdf_path in
  if negb (path_exists w full_path) then (None, w)
  else
    match read_bytes w full_path with
    | Ok data => (Some (b64encode data), w)
    | Raise e => (None, st_error w ("Error loading PDF: " +:+ str_exn e))
    end.

(** The store of [@st.cache_data] for [load_pdf_as_base64]: the value
    returned for each argument seen so far, [None] included. *)
Definition PdfCache : Type := gmap Path (option string).

(** [load_pdf_as_base64] as decorated (line 82): a call with an argument
    in the store returns the stored value without running the body; any
    other call runs the body and stores what it returns. *)
Definition load_pdf_as_base64 (env : Env) (pdf_path : Path)
    (cache : PdfCache) (w : World) : option string * PdfCache * World :=
  match cache !! pdf_path with
  | Some base64_pdf => (base64_pdf, cache, w)
  | None =>
      let '(base64_pdf, w) := load_pdf_as_base64_body env pdf_path w in
      (base64_pdf, <[pdf_path := base64_pdf]> cache, w)
  end.

Definition pdf_not_found : string :=
  "PDF file not found. Please generate the resume first.".

(** [display_pdf_viewer(pdf_path, height)]: the result, the embedded
    frame (its base64 payload and height) when one is shown, the store and
    the machine afterwards.  [if base64_pdf:] is false for [None] and for
    the empty string. *)
Definition display_pdf_viewer (env : Env) (pdf_path : Path) (height : Z)
    (cache : PdfCache) (w : World)
    : bool * option (string * Z) * PdfCache * World :=
  let '(base64_pdf, cache, w) := load_pdf_as_base64 env pdf_path cache w in
  match base64_pdf with
  | Some (String c s) => (true, Some (String c s, height), cache, w)
  | _ => (false, None, cache, st_error w pdf_not_found)
  end.

(** [create_pdf_download_button(pdf_path, filename, label)]: the result,
    the bytes and file name of the button when one is created, and the
    machine afterwards. *)
Definition create_pdf_download_button (env : Env) (pdf_path : Path)
    (filename label : string) (w : World)
    : bool * option (list Byte.byte * string) * World :=
  let full_path := get_base_path env ++ pdf_path in
  if negb (path_exists w full_path) then
    (false, None, st_error w "PDF file not found")
  else
    match read_bytes w full_path with
    | Ok pdf_bytes => (true, Some (pdf_bytes, filename), w)
    | Raise e =>
        (false, None,
         st_error w ("Error creating download button: " +:+ str_exn e))
    end.

(** ** Further sample data *)

Definition sample_marker_at_50 : Figure.t :=
  set_marker sample_figure (move_marker 50 0 50 sample_marker).

Definition sample_plots : Figure.t :=
  match create_telemetry_plots sample_data ["VER"; "HAM"] 1 60 with
  | Ok fig => fig
  | Raise _ => empty_figure
  end.

Definition sample_stats : gmap string Stats.t :=
  match get_lap_summary_stats sample_data ["VER"; "HAM"] 1 with
  | Ok stats => stats
  | Raise _ => ∅
  end.

Definition sample_ver_stats : Stats.t :=
  lap_stats (sample_sample 1 0 200)
    [sample_sample 1 50 250; sample_sample 1 100 300].

(** A season with two races run and one to come at time 50. *)
Definition mixed_season : list Event.t :=
  [{| Event.EventName := "Race 1"; Event.EventDate := 10 |};
   {| Event.EventName := "Race 2"; Event.EventDate := 100 |};
   {| Event.EventName := "Race 3"; Event.EventDate := 20 |}].

(** The machine after a save of a text with a surrogate code point. *)
Definition surrogate_text : pystr := [104; 55296]%N.

(** The saved source in a directory that exists and is write-protected. *)
Definition protected_dir_world : World :=
  {| files := files saved_world;
     read_only := {[ ["app"; "assets"; "resume_latex"] ]};
     cwd := ["app"];
     errors := [] |}.

Definition failed_save_world : World :=
  snd (save_latex_template (plain_env Posix) (Some surrogate_text)
         protected_dir_world).

(** The machine after the first load of the editor on an empty machine. *)
Definition loaded_world : World :=
  snd (load_latex_source (plain_env Posix) empty_world).

(** The machine after the compilation of the sample source. *)
Definition compiled_world : World :=
  snd (compile_latex_resume two_pass_env resume_world).

(** The store after the viewer has shown the earlier PDF. *)
Definition viewed_cache : PdfCache :=
  {[ ["assets"; "resume.pdf"] :=
       Some (b64encode (list_byte_of_string "previous")) ]}.

(** A session in which no driver has a lap, and the store left by the
    analysis of the sample session. *)
Definition idle_session : Session :=
  {| pick_drivers := fun _ => Ok [];
     get_telemetry := fun _ => Ok [];
     segment_length := fun dx dy => (Qabs dx + Qabs dy)%Q |}.

Definition sample_cache : DriverCache :=
  {[ ["VER"; "HAM"] := (sample_data, sample_series) ]}.

(** * Properties *)

(** ** Comparisons on rationals *)

Lemma Qlt_bool_iff (a b : Q) : Qlt_bool a b = true <-> (a < b)%Q.
Proof.
  unfold Qlt_bool. rewrite negb_true_iff.
  split.
  - intros H. apply Qnot_le_lt. intros Hle.
    apply Qle_bool_iff in Hle. congruence.
  - intros H. destruct (Qle_bool b a) eqn:E; [|reflexivity].
    apply Qle_bool_iff in E. exfalso. exact (Qlt_not_le _ _ H E).
Qed.

Lemma Qlt_bool_false (a b : Q) : Qlt_bool a b = false <-> (b <= a)%Q.
Proof.
  unfold Qlt_bool. rewrite negb_false_iff. apply Qle_bool_iff.
Qed.

(** ** Boolean masks *)

Lemma loc_mask_map {A : Type} (p : A -> bool) (rows : list A) :
  loc_mask rows (List.map p rows) = List.filter p rows.
Proof.
  induction rows as [|r rows IH]; simpl; [reflexivity|].
  rewrite IH. reflexivity.
Qed.

Lemma loc_mask_sublist {A : Type} (rows : list A) (mask : list bool) :
  sublist (loc_mask rows mask) rows.
Proof.
  revert mask. induction rows as [|r rows IH]; intros [|b mask]; simpl;
    try apply sublist_nil_l.
  destruct b; [apply sublist_skip | apply sublist_cons]; apply IH.
Qed.

Lemma filter_sublist {A : Type} (p : A -> bool) (l : list A) :
  sublist (List.filter p l) l.
Proof.
  rewrite <- loc_mask_map. apply loc_mask_sublist.
Qed.

Lemma filter_maximal {A : Type} (p : A -> bool) (sub l : list A) :
  sublist sub l -> Forall (fun a => p a = true) sub ->
  sublist sub (List.filter p l).
Proof.
  induction 1 as [|a l1 l2 Hsub IH|a l1 l2 Hsub IH]; intros Hall; simpl.
  - constructor.
  - inversion Hall as [|? ? Ha Hrest]; subst. rewrite Ha.
    apply sublist_skip. auto.
  - destruct (p a); [apply sublist_cons|]; auto.
Qed.

(** ** The lap filter *)

Lemma lap_is_validb_spec (lap : Lap.t) :
  lap_is_validb lap = true <-> lap_is_valid lap.
Proof.
  unfold lap_is_validb, lap_is_valid.
  destruct (Lap.IsAccurate lap), (Lap.LapTime lap), (Lap.PitOutTime lap),
    (Lap.PitInTime lap); simpl; split; intros H;
    try discriminate; try (repeat split; congruence);
    destruct H as (H1 & H2 & H3 & H4); congruence.
Qed.

Lemma valid_laps_filter (driver_laps : list Lap.t) :
  valid_laps driver_laps = List.filter lap_is_validb driver_laps.
Proof.
  unfold valid_laps, column, eq_True, notna, isna.
  induction driver_laps as [|lap rest IH]; simpl; [reflexivity|].
  rewrite IH. reflexivity.
Qed.

Lemma elem_of_valid_laps (driver_laps : list Lap.t) (lap : Lap.t) :
  lap ∈ valid_laps driver_laps <-> lap ∈ driver_laps /\ lap_is_valid lap.
Proof.
  rewrite valid_laps_filter, !list_elem_of_In, filter_In, lap_is_validb_spec.
  reflexivity.
Qed.

(** C2. The lap filter returns exactly the subsequence of the driver's laps
    that are accurate, have a lap time, and have neither a pit-in nor a
    pit-out timestamp: it is a subsequence of the input (so the laps keep
    their original order), a lap is in it exactly when it is an input lap
    meeting the four conditions, and every subsequence of qualifying input
    laps is a subsequence of it.  When no lap qualifies the driver's
    iteration ends without an exception and without changing the results. *)
Theorem lap_filter_exact (driver_laps : list Lap.t) :
  sublist (valid_laps driver_laps) driver_laps
  /\ (forall lap, lap ∈ valid_laps driver_laps
                  <-> lap ∈ driver_laps /\ lap_is_valid lap)
  /\ (forall sub, sublist sub driver_laps -> Forall lap_is_valid sub ->
                  sublist sub (valid_laps driver_laps))
  /\ (forall ses driver_code st,
        pick_drivers ses driver_code = Ok driver_laps ->
        valid_laps driver_laps = [] ->
        process_one_driver ses driver_code st = (Ok tt, st)).
Proof.
  split; [|split; [|split]].
  - apply loc_mask_sublist.
  - intros lap. apply elem_of_valid_laps.
  - intros sub Hsub Hall. rewrite valid_laps_filter.
    apply filter_maximal; [exact Hsub|].
    eapply Forall_impl; [exact Hall|].
    intros lap. apply lap_is_validb_spec.
  - intros ses driver_code st Hpick Hnone.
    unfold process_one_driver. rewrite Hpick, Hnone.
    destruct (df_empty driver_laps); reflexivity.
Qed.

(** ** [unique] *)

Lemma existsb_eqb_elem_of (v : Z) (seen : list Z) :
  existsb (Z.eqb v) seen = true <-> v ∈ seen.
Proof.
  rewrite existsb_exists, list_elem_of_In. split.
  - intros (w & Hin & Heq). apply Z.eqb_eq in Heq. congruence.
  - intros Hin. exists v. split; [exact Hin | apply Z.eqb_refl].
Qed.

Lemma elem_of_unique_from (col seen : list Z) (v : Z) :
  v ∈ unique_from seen col <-> v ∈ col /\ v ∉ seen.
Proof.
  revert seen. induction col as [|w col IH]; intros seen; simpl.
  - rewrite elem_of_nil. tauto.
  - destruct (existsb (Z.eqb w) seen) eqn:E.
    + apply existsb_eqb_elem_of in E.
      rewrite IH, elem_of_cons. split; [tauto|].
      intros [[->|H] Hn]; [contradiction | tauto].
    + assert (w ∉ seen) as Hw.
      { intros H. apply existsb_eqb_elem_of in H. congruence. }
      rewrite !elem_of_cons, IH, elem_of_cons. split.
      * intros [->|(H1 & H2)]; [tauto|]. split; [tauto|]. tauto.
      * intros [[->|H] Hn]; [tauto|].
        destruct (decide (v = w)) as [->|Hne]; [tauto|]. right. tauto.
Qed.

Lemma NoDup_unique_from (col seen : list Z) : NoDup (unique_from seen col).
Proof.
  revert seen. induction col as [|w col IH]; intros seen; simpl.
  - constructor.
  - destruct (existsb (Z.eqb w) seen); [apply IH|].
    apply NoDup_cons. split; [|apply IH].
    rewrite elem_of_unique_from, elem_of_cons. tauto.
Qed.

Lemma elem_of_unique (col : list Z) (v : Z) : v ∈ unique col <-> v ∈ col.
Proof.
  unfold unique. rewrite elem_of_unique_from, elem_of_nil. tauto.
Qed.

Lemma NoDup_unique (col : list Z) : NoDup (unique col).
Proof. apply NoDup_unique_from. Qed.

(** ** The lap loop *)

Lemma iloc0_filter {A : Type} (p : A -> bool) (l : list A) :
  iloc0 (List.filter p l) =
  match List.find p l with Some a => Ok a | None => Raise IndexError end.
Proof.
  induction l as [|a l IH]; simpl; [reflexivity|].
  destruct (p a); [reflexivity | exact IH].
Qed.

Lemma find_is_Some_elem {A : Type} (p : A -> bool) (l : list A) (a : A) :
  a ∈ l -> p a = true -> exists b, List.find p l = Some b.
Proof.
  intros Hin Hp. destruct (List.find p l) as [b|] eqn:E; [eauto|].
  apply list_elem_of_In in Hin.
  pose proof (find_none p l E a Hin). congruence.
Qed.

Lemma lap_row_lookup (valid : list Lap.t) (lap_number : Z) :
  iloc0 (loc_mask valid (eq_col (column Lap.LapNumber valid) lap_number)) =
  match List.find (fun lap => Z.eqb (Lap.LapNumber lap) lap_number) valid with
  | Some lap => Ok lap
  | None => Raise IndexError
  end.
Proof.
  unfold eq_col, column. rewrite map_map.
  rewrite (loc_mask_map (fun lap => Z.eqb (Lap.LapNumber lap) lap_number)).
  apply iloc0_filter.
Qed.

Lemma lap_attempt (ses : Session) (driver_code : string) (valid : list Lap.t)
    (lap_number : Z) (lap : Lap.t) :
  List.find (fun lap => Z.eqb (Lap.LapNumber lap) lap_number) valid = Some lap ->
  try_except (lap_telemetry ses driver_code lap_number lap) (fun _ => None)
  = lap_block ses driver_code valid lap_number.
Proof.
  intros Hfind. unfold lap_block, lap_telemetry. rewrite Hfind.
  destruct (get_telemetry ses lap) as [[|p rest]|e]; reflexivity.
Qed.

Lemma lap_loop_spec (ses : Session) (driver_code : string)
    (valid : list Lap.t) (lap_numbers : list Z) :
  (forall n, n ∈ lap_numbers -> n ∈ List.map Lap.LapNumber valid) ->
  forall kept all,
    lap_loop ses driver_code valid lap_numbers kept all =
    (Ok (kept ++ omap (lap_block ses driver_code valid) lap_numbers),
     all ++ omap (lap_block ses driver_code valid) lap_numbers).
Proof.
  induction lap_numbers as [|n rest IH]; intros Hin kept all; simpl.
  - rewrite !app_nil_r. reflexivity.
  - assert (exists lap,
        List.find (fun lap => Z.eqb (Lap.LapNumber lap) n) valid = Some lap)
      as [lap Hfind].
    { specialize (Hin n (list_elem_of_here _ _)).
      apply list_elem_of_In, in_map_iff in Hin as (lap & Heq & Hlap).
      apply (find_is_Some_elem _ valid lap).
      - apply list_elem_of_In. exact Hlap.
      - apply Z.eqb_eq. exact Heq. }
    rewrite lap_row_lookup, Hfind.
    rewrite (lap_attempt ses driver_code valid n lap Hfind).
    assert (forall m, m ∈ rest -> m ∈ List.map Lap.LapNumber valid) as Hrest.
    { intros m Hm. apply Hin. apply list_elem_of_further. exact Hm. }
    destruct (lap_block ses driver_code valid n) as [block|].
    + rewrite IH by exact Hrest. rewrite <- !app_assoc. reflexivity.
    + apply IH. exact Hrest.
Qed.

(** ** One driver *)

Lemma process_one_driver_spec (ses : Session) (driver_code : string)
    (st : PState) :
  exists r,
    process_one_driver ses driver_code st =
    (r,
     {| driver_data :=
          match driver_series ses driver_code with
          | Some series => <[driver_code := series]> (driver_data st)
          | None => driver_data st
          end;
        all_laps_telemetry :=
          all_laps_telemetry st ++ driver_blocks ses driver_code;
        warnings := warnings st |}).
Proof.
  unfold process_one_driver, driver_series, driver_blocks.
  destruct st as [dd all warns]; simpl.
  destruct (pick_drivers ses driver_code) as [driver_laps|e]; simpl.
  2: { exists (Raise e). rewrite app_nil_r. reflexivity. }
  rewrite <- valid_laps_filter.
  destruct (df_empty driver_laps) eqn:Elaps.
  { destruct driver_laps; [|discriminate].
    exists (Ok tt). simpl. rewrite app_nil_r. reflexivity. }
  destruct (df_empty (valid_laps driver_laps)) eqn:Evalid.
  { destruct (valid_laps driver_laps); [|discriminate].
    exists (Ok tt). simpl. rewrite app_nil_r. reflexivity. }
  unfold column. rewrite lap_loop_spec.
  2: { intros n Hn. apply (proj1 (elem_of_unique _ _)) in Hn. exact Hn. }
  simpl.
  destruct (omap _ _) as [|block blocks]; simpl.
  - exists (Ok tt). reflexivity.
  - exists (Ok tt). reflexivity.
Qed.

(** ** The progress indicator *)

Lemma progress_fraction_ok (idx : nat) (n : Z) :
  Z.of_nat idx + 1 <= n ->
  exists value,
    py_truediv (Z.of_nat idx + 1) n = Ok value /\ progress value = Ok tt.
Proof.
  intros Hle. unfold py_truediv.
  assert (0 < n) as Hn by lia.
  destruct (Z.eqb_spec n 0) as [->|_]; [lia|].
  eexists. split; [reflexivity|].
  unfold progress.
  assert (0 < inject_Z n)%Q as HnQ.
  { rewrite (Zlt_Qlt 0 n) in Hn. exact Hn. }
  assert (Qle_bool 0 (inject_Z (Z.of_nat idx + 1) / inject_Z n) = true) as ->.
  { apply Qle_bool_iff. apply Qle_shift_div_l; [exact HnQ|].
    rewrite Qmult_0_l. rewrite <- (Zle_Qle 0). lia. }
  assert (Qle_bool (inject_Z (Z.of_nat idx + 1) / inject_Z n) 1 = true) as ->.
  { apply Qle_bool_iff. apply Qle_shift_div_r; [exact HnQ|].
    rewrite Qmult_1_l. rewrite <- Zle_Qle. exact Hle. }
  reflexivity.
Qed.

Lemma progress_zero : progress 0 = Ok tt.
Proof. reflexivity. Qed.

(** ** The driver loop *)

Lemma driver_loop_spec (ses : Session) (n : Z) (items : list (nat * string)) :
  Forall (fun item => Z.of_nat (fst item) + 1 <= n) items ->
  forall st, exists st',
    driver_loop ses n items st = Ok st'
    /\ (forall d, driver_data st' !! d =
                  entry_after ses (List.map snd items) (driver_data st) d)
    /\ all_laps_telemetry st' =
       all_laps_telemetry st
         ++ flat_map (driver_blocks ses) (List.map snd items).
Proof.
  induction items as [|[idx driver_code] rest IH]; intros Hidx st.
  - exists st. simpl. split; [reflexivity|]. split.
    + intros d. unfold entry_after. rewrite bool_decide_eq_false_2; [done|].
      apply not_elem_of_nil.
    + rewrite app_nil_r. reflexivity.
  - inversion Hidx as [|? ? Hhead Htail]; subst. simpl in Hhead.
    destruct (progress_fraction_ok idx n Hhead) as (value & Hdiv & Hprog).
    destruct (process_one_driver_spec ses driver_code st) as [r Hone].
    cbn [driver_loop]. rewrite Hdiv. cbn [mbind result_bind].
    rewrite Hprog. cbn [mbind result_bind]. rewrite Hone.
    match goal with
    | |- exists st', driver_loop ses n rest ?s = _ /\ _ =>
        destruct (IH Htail s) as (st' & Hrun & Hdata & Hall)
    end.
    exists st'. split; [exact Hrun|]. split.
    + intros d. rewrite Hdata. unfold entry_after. simpl.
      assert (driver_data
                match r with
                | Ok _ => _
                | Raise e => _
                end = match driver_series ses driver_code with
                      | Some series => <[driver_code := series]> (driver_data st)
                      | None => driver_data st
                      end) as -> by (destruct r; reflexivity).
      destruct (decide (d = driver_code)) as [->|Hne].
      * rewrite (bool_decide_eq_true_2 (driver_code ∈ driver_code :: _))
          by apply list_elem_of_here.
        destruct (driver_series ses driver_code) as [series|] eqn:E.
        -- destruct (bool_decide _); rewrite ?lookup_insert_eq; reflexivity.
        -- destruct (bool_decide _); reflexivity.
      * assert (bool_decide (d ∈ driver_code :: List.map snd rest)
                = bool_decide (d ∈ List.map snd rest)) as ->.
        { apply bool_decide_ext. rewrite elem_of_cons. tauto. }
        assert (match driver_series ses driver_code with
                | Some series => <[driver_code := series]> (driver_data st)
                | None => driver_data st
                end !! d = driver_data st !! d) as ->.
        { destruct (driver_series ses driver_code); [|reflexivity].
          apply lookup_insert_ne. congruence. }
        reflexivity.
    + rewrite Hall. simpl.
      assert (all_laps_telemetry
                match r with
                | Ok _ => _
                | Raise e => _
                end = all_laps_telemetry st ++ driver_blocks ses driver_code)
        as -> by (destruct r; reflexivity).
      rewrite <- app_assoc. reflexivity.
Qed.

Lemma enumerate_from_snd {A : Type} (l : list A) (start : nat) :
  List.map snd (combine (seq start (length l)) l) = l.
Proof.
  revert start. induction l as [|a l IH]; intros start; simpl;
    [reflexivity|]. rewrite IH. reflexivity.
Qed.

Lemma enumerate_from_bound {A : Type} (l : list A) (start : nat) :
  Forall (fun item => (start <= fst item < start + length l)%nat)
    (combine (seq start (length l)) l).
Proof.
  revert start. induction l as [|a l IH]; intros start; simpl;
    constructor.
  - simpl. lia.
  - eapply Forall_impl; [apply (IH (S start))|].
    intros item. simpl. lia.
Qed.

Lemma flat_map_nil_inv {A B : Type} (f : A -> list B) (l : list A) (a : A) :
  flat_map f l = [] -> a ∈ l -> f a = [].
Proof.
  induction l as [|b l IH]; simpl; intros Hnil Hin.
  - apply elem_of_nil in Hin. contradiction.
  - apply app_eq_nil in Hnil as [Hb Hl].
    apply elem_of_cons in Hin as [->|Hin]; auto.
Qed.

Lemma add_distance_length (ses : Session) (telemetry : list Raw.t) :
  length (add_distance ses telemetry) = length telemetry.
Proof.
  unfold add_distance. destruct telemetry as [|p rest]; [reflexivity|].
  simpl. f_equal.
  generalize 0%Q as acc. revert p.
  induction rest as [|q rest IH]; intros p acc; simpl; [reflexivity|].
  rewrite IH. reflexivity.
Qed.

Lemma lap_block_nonempty (ses : Session) (driver_code : string)
    (valid : list Lap.t) (n : Z) (block : list Tel.t) :
  lap_block ses driver_code valid n = Some block -> block <> [].
Proof.
  unfold lap_block.
  destruct (List.find _ valid) as [lap|]; [|discriminate].
  destruct (get_telemetry ses lap) as [[|p rest]|e]; try discriminate.
  intros [= <-] Hnil. discriminate Hnil.
Qed.

Lemma driver_blocks_nonempty (ses : Session) (driver_code : string) :
  Forall (fun block => block <> []) (driver_blocks ses driver_code).
Proof.
  unfold driver_blocks. destruct (pick_drivers ses driver_code); [|constructor].
  apply Forall_forall. intros block Hin.
  apply list_elem_of_omap in Hin as (n & _ & Hblock).
  eapply lap_block_nonempty. exact Hblock.
Qed.

Lemma driver_series_nonempty (ses : Session) (driver_code : string)
    (series : list Tel.t) :
  driver_series ses driver_code = Some series -> series <> [].
Proof.
  unfold driver_series.
  pose proof (driver_blocks_nonempty ses driver_code) as Hall.
  destruct (driver_blocks ses driver_code) as [|block blocks]; [discriminate|].
  intros [= <-]. inversion Hall as [|? ? Hblock _]; subst.
  simpl. destruct block; [congruence | discriminate].
Qed.

Lemma process_driver_data_run_spec (ses : Session) (drivers : list string) :
  exists st,
    process_driver_data_run ses drivers = Ok st
    /\ (forall d, driver_data st !! d =
          if bool_decide (d ∈ drivers) then driver_series ses d else None)
    /\ all_laps_telemetry st = flat_map (driver_blocks ses) drivers.
Proof.
  assert (Forall (fun item => Z.of_nat (fst item) + 1
                              <= Z.of_nat (length drivers))
            (enumerate drivers)) as Hidx.
  { eapply Forall_impl; [apply (enumerate_from_bound drivers 0)|].
    intros item. simpl. lia. }
  destruct (driver_loop_spec ses _ _ Hidx initial_state)
    as (st & Hrun & Hdata & Hall).
  unfold enumerate in Hdata, Hall. rewrite enumerate_from_snd in Hdata, Hall.
  simpl in Hall.
  exists st. unfold process_driver_data_run.
  rewrite progress_zero. cbn [mbind result_bind].
  split; [exact Hrun|]. split; [|exact Hall].
  intros d. rewrite Hdata. unfold entry_after. simpl.
  destruct (bool_decide (d ∈ drivers)); [|apply lookup_empty].
  destruct (driver_series ses d); [reflexivity | apply lookup_empty].
Qed.

(** An entry of the returned mapping is the series of its driver. *)
Lemma process_driver_data_entry (ses : Session) (drivers : list string)
    (dd : gmap string (list Tel.t)) (all : list Tel.t) (d : string)
    (series : list Tel.t) :
  process_driver_data_body ses drivers = Ok (dd, all) ->
  dd !! d = Some series ->
  driver_series ses d = Some series.
Proof.
  destruct (process_driver_data_run_spec ses drivers)
    as (st & Hrun & Hentry & _).
  unfold process_driver_data_body. rewrite Hrun. cbn [mbind result_bind].
  destruct (df_empty (all_laps_telemetry st)); intros [= <- <-] Hlookup.
  - rewrite lookup_empty in Hlookup. discriminate.
  - rewrite Hentry in Hlookup.
    destruct (bool_decide (d ∈ drivers)); [exact Hlookup | discriminate].
Qed.

(** What a run of the body returns. *)
Lemma process_driver_data_body_spec (ses : Session) (drivers : list string) :
  exists dd all,
    process_driver_data_body ses drivers = Ok (dd, all)
    /\ (forall d, dd !! d =
          if bool_decide (d ∈ drivers) then driver_series ses d else None)
    /\ (forall d series, dd !! d = Some series -> series <> [])
    /\ all = concat (flat_map (driver_blocks ses) drivers).
Proof.
  destruct (process_driver_data_run_spec ses drivers)
    as (st & Hrun & Hentry & Hall).
  unfold process_driver_data_body. rewrite Hrun. cbn [mbind result_bind].
  destruct (df_empty (all_laps_telemetry st)) eqn:Eall.
  - assert (flat_map (driver_blocks ses) drivers = []) as Hnil.
    { rewrite <- Hall. destruct (all_laps_telemetry st); [done|discriminate]. }
    exists ∅, []. split; [reflexivity|]. split; [|split].
    + intros d. rewrite lookup_empty.
      destruct (bool_decide (d ∈ drivers)) eqn:Ed; [|reflexivity].
      apply bool_decide_eq_true_1 in Ed.
      unfold driver_series.
      rewrite (flat_map_nil_inv _ _ d Hnil Ed). reflexivity.
    + intros d series. rewrite lookup_empty. discriminate.
    + rewrite Hnil. reflexivity.
  - exists (driver_data st), (concat (all_laps_telemetry st)).
    split; [reflexivity|]. split; [exact Hentry|]. split.
    + intros d series. rewrite Hentry.
      destruct (bool_decide (d ∈ drivers)); [|discriminate].
      apply driver_series_nonempty.
    + rewrite Hall. reflexivity.
Qed.

(** C3, as amended.  [process_driver_data] returns for every session,
    driver list and store, whatever the session's requests raise, and the
    value it returns is then stored for the driver list.  When the store
    has no value for the list the body runs: the entry of a listed driver
    is the concatenation of the traces of the driver's valid laps whose
    fetch succeeded with a non-empty trace (laps whose fetch raises or
    whose trace is empty are skipped); the driver is absent when the
    request for the driver's laps raises or no trace is kept, and this
    depends on that driver's data alone; no entry is an empty series.
    When the store has a value for the list, that value is returned
    whatever the session. *)
Theorem process_driver_data_never_raises (ses : Session)
    (drivers : list string) (cache : DriverCache) :
  exists dd all cache',
    process_driver_data ses drivers cache = (Ok (dd, all), cache')
    /\ cache' !! drivers = Some (dd, all)
    /\ (forall other, other <> drivers -> cache' !! other = cache !! other)
    /\ (forall stored, cache !! drivers = Some stored -> stored = (dd, all))
    /\ (cache !! drivers = None ->
        (forall d, dd !! d =
           if bool_decide (d ∈ drivers) then driver_series ses d else None)
        /\ (forall d series, dd !! d = Some series -> series <> [])
        /\ all = concat (flat_map (driver_blocks ses) drivers)).
Proof.
  unfold process_driver_data.
  destruct (cache !! drivers) as [[dd all]|] eqn:Hcache.
  - exists dd, all, cache. split; [reflexivity|]. split; [exact Hcache|].
    split; [reflexivity|]. split; [|discriminate].
    intros stored [= <-]. reflexivity.
  - destruct (process_driver_data_body_spec ses drivers)
      as (dd & all & Hrun & Hbody).
    rewrite Hrun. exists dd, all, (<[drivers := (dd, all)]> cache).
    split; [reflexivity|]. split; [apply lookup_insert_eq|].
    split; [|split; [discriminate | intros _; exact Hbody]].
    intros other Hother. apply lookup_insert_ne. congruence.
Qed.

(** The claim as first stated fails once a value is stored: a call for a
    session in which no driver has a lap returns the mapping computed for
    the sample session, where VER has a series. *)
Theorem process_driver_data_stale_session :
  pick_drivers idle_session "VER" = Ok []
  /\ driver_series idle_session "VER" = None
  /\ process_driver_data sample_session ["VER"; "HAM"] ∅
     = (Ok (sample_data, sample_series), sample_cache)
  /\ process_driver_data idle_session ["VER"; "HAM"] sample_cache
     = (Ok (sample_data, sample_series), sample_cache)
  /\ sample_data !! "VER" = Some sample_series
  /\ sample_series <> [].
Proof.
  split; [reflexivity|]. split; [reflexivity|].
  split; [vm_compute; reflexivity|]. split; [vm_compute; reflexivity|].
  split; [vm_compute; reflexivity | discriminate].
Qed.

(** ** Invariants of a driver's series *)

Lemma integrate_distance_length (len : Q -> Q -> Q) (rest : list Raw.t) :
  forall acc p, length (integrate_distance len acc p rest) = length rest.
Proof.
  induction rest as [|q rest IH]; intros acc p; simpl; [reflexivity|].
  rewrite IH. reflexivity.
Qed.

Lemma integrate_distance_sorted (len : Q -> Q -> Q) :
  (forall dx dy, (0 <= len dx dy)%Q) ->
  forall rest acc p,
    StronglySorted Qle (acc :: integrate_distance len acc p rest).
Proof.
  intros Hlen. induction rest as [|q rest IH]; intros acc p; simpl.
  - repeat constructor.
  - set (acc' := (acc + len (Raw.X q - Raw.X p) (Raw.Y q - Raw.Y p))%Q).
    specialize (IH acc' q).
    assert (acc <= acc')%Q as Hstep.
    { unfold acc'. rewrite <- (Qplus_0_r acc) at 1.
      apply Qplus_le_r. apply Hlen. }
    constructor; [exact IH|].
    apply StronglySorted_inv in IH as [_ Hall].
    constructor; [exact Hstep|].
    eapply Forall_impl; [exact Hall|].
    intros v Hv. simpl in Hv. eapply Qle_trans; eassumption.
Qed.

Lemma map_fst_combine {A B : Type} (l1 : list A) (l2 : list B) :
  length l1 = length l2 -> List.map fst (combine l1 l2) = l1.
Proof.
  revert l2. induction l1 as [|a l1 IH]; intros [|b l2] Hlen; simpl in *;
    try reflexivity; try discriminate.
  rewrite IH by congruence. reflexivity.
Qed.

Lemma add_distance_column (ses : Session) (p : Raw.t) (rest : list Raw.t) :
  List.map fst (add_distance ses (p :: rest)) =
  0%Q :: integrate_distance (segment_length ses) 0%Q p rest.
Proof.
  unfold add_distance. apply map_fst_combine.
  simpl. rewrite integrate_distance_length. reflexivity.
Qed.

Lemma stamp_distance_column (n : Z) (d : string) (t : option Q)
    (rows : list (Q * Raw.t)) :
  List.map Tel.Distance (List.map (stamp n d t) rows) = List.map fst rows.
Proof.
  rewrite map_map. apply map_ext. intros [dist r]. reflexivity.
Qed.

Lemma StronglySorted_lookup_le (l : list Q) (i j : nat) (a b : Q) :
  StronglySorted Qle l -> (i <= j)%nat ->
  l !! i = Some a -> l !! j = Some b -> (a <= b)%Q.
Proof.
  intros Hs. revert i j. induction Hs as [|v l Hs IH Hall]; intros i j Hij Hi Hj.
  - discriminate.
  - destruct i as [|i], j as [|j]; simpl in *.
    + injection Hi as <-. injection Hj as <-. apply Qle_refl.
    + injection Hi as <-.
      rewrite Forall_forall in Hall. apply Hall.
      eapply list_elem_of_lookup_2. exact Hj.
    + lia.
    + apply (IH i j); [lia | assumption | assumption].
Qed.

(** The facts about one kept trace: where it comes from, its stamps, and
    the order of its distances. *)
Lemma lap_block_inv (ses : Session) (d : string) (valid : list Lap.t)
    (n : Z) (block : list Tel.t) :
  lap_block ses d valid n = Some block ->
  exists lap raw,
    lap ∈ valid /\ Lap.LapNumber lap = n
    /\ get_telemetry ses lap = Ok raw
    /\ block = List.map (stamp n d (Lap.LapTime lap)) (add_distance ses raw)
    /\ ((forall dx dy, (0 <= segment_length ses dx dy)%Q) ->
        StronglySorted Qle (List.map Tel.Distance block)).
Proof.
  unfold lap_block.
  destruct (List.find _ valid) as [lap|] eqn:Hfind; [|discriminate].
  apply find_some in Hfind as [Hin Hnum]. apply Z.eqb_eq in Hnum.
  destruct (get_telemetry ses lap) as [[|p rest]|e] eqn:Htel;
    try discriminate.
  intros Hblock.
  assert (block = List.map (stamp n d (Lap.LapTime lap))
                    (add_distance ses (p :: rest))) as -> by congruence.
  exists lap, (p :: rest).
  split; [apply list_elem_of_In; exact Hin|].
  split; [exact Hnum|]. split; [exact Htel|]. split; [reflexivity|].
  intros Hlen. rewrite stamp_distance_column, add_distance_column.
  apply integrate_distance_sorted. exact Hlen.
Qed.

Lemma lap_block_tags (ses : Session) (d : string) (valid : list Lap.t)
    (n : Z) (block : list Tel.t) (s : Tel.t) :
  lap_block ses d valid n = Some block -> s ∈ block ->
  Tel.LapNumber s = n /\ Tel.Driver s = d.
Proof.
  intros Hblock Hin.
  apply lap_block_inv in Hblock as (lap & raw & _ & _ & _ & -> & _).
  apply list_elem_of_In, in_map_iff in Hin as ([dist r] & <- & _).
  split; reflexivity.
Qed.

Lemma filter_all {A : Type} (p : A -> bool) (l : list A) :
  (forall a, a ∈ l -> p a = true) -> List.filter p l = l.
Proof.
  induction l as [|a l IH]; intros Hall; simpl; [reflexivity|].
  rewrite (Hall a) by apply list_elem_of_here.
  rewrite IH; [reflexivity|]. intros b Hb. apply Hall.
  apply list_elem_of_further. exact Hb.
Qed.

Lemma filter_none {A : Type} (p : A -> bool) (l : list A) :
  (forall a, a ∈ l -> p a = false) -> List.filter p l = [].
Proof.
  induction l as [|a l IH]; intros Hall; simpl; [reflexivity|].
  rewrite (Hall a) by apply list_elem_of_here.
  apply IH. intros b Hb. apply Hall. apply list_elem_of_further. exact Hb.
Qed.

(** The rows of lap [n] in the concatenation of the kept traces of
    pairwise distinct lap numbers are the trace kept for [n]. *)
Lemma lap_rows_of_blocks (ses : Session) (d : string) (valid : list Lap.t)
    (n : Z) (lap_numbers : list Z) :
  NoDup lap_numbers ->
  List.filter (fun s => Z.eqb (Tel.LapNumber s) n)
    (concat (omap (lap_block ses d valid) lap_numbers)) =
  if bool_decide (n ∈ lap_numbers)
  then default [] (lap_block ses d valid n) else [].
Proof.
  induction lap_numbers as [|m rest IH]; intros Hnd.
  - reflexivity.
  - apply NoDup_cons in Hnd as [Hm Hrest]. specialize (IH Hrest).
    assert (List.filter (fun s => Z.eqb (Tel.LapNumber s) n)
              (default [] (lap_block ses d valid m))
            = if bool_decide (n = m)
              then default [] (lap_block ses d valid m) else []) as Hblock.
    { destruct (lap_block ses d valid m) as [block|] eqn:E; simpl.
      2: { destruct (bool_decide (n = m)); reflexivity. }
      destruct (bool_decide (n = m)) eqn:Enm.
      - apply bool_decide_eq_true_1 in Enm. subst m.
        apply filter_all. intros s Hs. apply Z.eqb_eq.
        eapply lap_block_tags; eassumption.
      - apply bool_decide_eq_false_1 in Enm.
        apply filter_none. intros s Hs. apply Z.eqb_neq.
        destruct (lap_block_tags _ _ _ _ _ _ E Hs) as [-> _]. congruence. }
    assert (concat (omap (lap_block ses d valid) (m :: rest))
            = default [] (lap_block ses d valid m)
              ++ concat (omap (lap_block ses d valid) rest)) as ->.
    { simpl. destruct (lap_block ses d valid m); reflexivity. }
    rewrite List.filter_app.
    rewrite Hblock, IH.
    destruct (decide (n = m)) as [->|Hne].
    + rewrite (bool_decide_eq_true_2 (m = m)) by reflexivity.
      rewrite (bool_decide_eq_false_2 (m ∈ rest)) by exact Hm.
      rewrite (bool_decide_eq_true_2 (m ∈ m :: rest))
        by apply list_elem_of_here.
      apply app_nil_r.
    + rewrite (bool_decide_eq_false_2 (n = m)) by exact Hne.
      simpl. apply (f_equal (fun b : bool => if b then _ else _)).
      apply bool_decide_ext. rewrite elem_of_cons. tauto.
Qed.

Lemma lookup_map {A B : Type} (f : A -> B) (l : list A) (i : nat) :
  List.map f l !! i = f <$> (l !! i).
Proof.
  revert i. induction l as [|a l IH]; intros [|i]; simpl; try reflexivity.
  apply IH.
Qed.

Lemma driver_series_inv (ses : Session) (d : string) (series : list Tel.t) :
  driver_series ses d = Some series ->
  exists driver_laps,
    pick_drivers ses d = Ok driver_laps
    /\ series =
       concat (omap (lap_block ses d (List.filter lap_is_validb driver_laps))
                 (unique (List.map Lap.LapNumber
                            (List.filter lap_is_validb driver_laps)))).
Proof.
  unfold driver_series, driver_blocks.
  destruct (pick_drivers ses d) as [driver_laps|e]; [|discriminate].
  intros H. exists driver_laps. split; [reflexivity|].
  destruct (omap _ _); congruence.
Qed.

Lemma driver_series_lap_sorted (ses : Session) (d : string)
    (series : list Tel.t) (n : Z) :
  (forall dx dy, (0 <= segment_length ses dx dy)%Q) ->
  driver_series ses d = Some series ->
  StronglySorted Qle
    (List.map Tel.Distance
       (loc_mask series (eq_col (column Tel.LapNumber series) n))).
Proof.
  intros Hlen Hseries.
  apply driver_series_inv in Hseries as (driver_laps & _ & ->).
  unfold eq_col, column. rewrite map_map.
  rewrite (loc_mask_map (fun s => Z.eqb (Tel.LapNumber s) n)).
  rewrite lap_rows_of_blocks by apply NoDup_unique.
  destruct (bool_decide (n ∈ _)); [|constructor].
  destruct (lap_block ses d _ n) as [block|] eqn:E; [|constructor].
  apply lap_block_inv in E as (lap & raw & _ & _ & _ & _ & Hsorted).
  simpl. apply Hsorted. exact Hlen.
Qed.

Lemma driver_series_provenance (ses : Session) (d : string)
    (series : list Tel.t) (s : Tel.t) :
  driver_series ses d = Some series -> s ∈ series ->
  exists driver_laps lap raw row,
    pick_drivers ses d = Ok driver_laps
    /\ lap ∈ driver_laps /\ lap_is_valid lap
    /\ get_telemetry ses lap = Ok raw
    /\ row ∈ add_distance ses raw
    /\ s = stamp (Lap.LapNumber lap) d (Lap.LapTime lap) row.
Proof.
  intros Hseries Hin.
  apply driver_series_inv in Hseries as (driver_laps & Hpick & ->).
  apply list_elem_of_In, in_concat in Hin as (block & Hblock & Hs).
  apply list_elem_of_In, list_elem_of_omap in Hblock as (n & _ & Hblock).
  apply lap_block_inv in Hblock as (lap & raw & Hlap & <- & Htel & -> & _).
  apply in_map_iff in Hs as (row & <- & Hrow).
  exists driver_laps, lap, raw, row.
  rewrite <- valid_laps_filter in Hlap.
  apply elem_of_valid_laps in Hlap as [Hlap Hvalid].
  split; [exact Hpick|]. split; [exact Hlap|]. split; [exact Hvalid|].
  split; [exact Htel|]. split; [|reflexivity].
  apply list_elem_of_In. exact Hrow.
Qed.

(** C4. In every series that a run of [process_driver_data] stores for a
    driver (with distances integrated from non-negative step lengths): the
    distances of the rows of any one lap number are non-decreasing in
    series order; every row is the stamped row of the trace fetched for
    some lap of that driver, carrying that driver's code and that lap's
    number; and that lap passes the validity filter. *)
Theorem series_invariants (ses : Session) (drivers : list string)
    (dd : gmap string (list Tel.t)) (all : list Tel.t) (d : string)
    (series : list Tel.t) :
  (forall dx dy, (0 <= segment_length ses dx dy)%Q) ->
  process_driver_data_body ses drivers = Ok (dd, all) ->
  dd !! d = Some series ->
  (forall n i j si sj,
      (i <= j)%nat ->
      loc_mask series (eq_col (column Tel.LapNumber series) n) !! i = Some si ->
      loc_mask series (eq_col (column Tel.LapNumber series) n) !! j = Some sj ->
      (Tel.Distance si <= Tel.Distance sj)%Q)
  /\ (forall s, s ∈ series ->
        Tel.Driver s = d
        /\ exists driver_laps lap raw row,
             pick_drivers ses d = Ok driver_laps
             /\ lap ∈ driver_laps /\ lap_is_valid lap
             /\ Tel.LapNumber s = Lap.LapNumber lap
             /\ get_telemetry ses lap = Ok raw
             /\ row ∈ add_distance ses raw
             /\ s = stamp (Lap.LapNumber lap) d (Lap.LapTime lap) row).
Proof.
  intros Hlen Hrun Hlookup.
  apply (process_driver_data_entry ses drivers dd all d series Hrun)
    in Hlookup.
  split.
  - intros n i j si sj Hij Hi Hj.
    pose proof (driver_series_lap_sorted ses d series n Hlen Hlookup) as Hs.
    eapply (StronglySorted_lookup_le _ i j); [exact Hs | exact Hij | |].
    + rewrite lookup_map, Hi. reflexivity.
    + rewrite lookup_map, Hj. reflexivity.
  - intros s Hs.
    destruct (driver_series_provenance ses d series s Hlookup Hs)
      as (driver_laps & lap & raw & row & H1 & H2 & H3 & H4 & H5 & H6).
    split.
    + rewrite H6. destruct row. reflexivity.
    + exists driver_laps, lap, raw, row.
      split; [exact H1|]. split; [exact H2|]. split; [exact H3|].
      split; [rewrite H6; destruct row; reflexivity|].
      split; [exact H4|]. split; [exact H5 | exact H6].
Qed.

(** ** The reference trace *)

Lemma min_from_spec (rest : list Z) (best : Z) :
  (min_from best rest = best \/ min_from best rest ∈ rest)
  /\ min_from best rest <= best
  /\ (forall v, v ∈ rest -> min_from best rest <= v).
Proof.
  revert best. induction rest as [|w rest IH]; intros best; simpl.
  - split; [left; reflexivity|]. split; [lia|].
    intros v Hv. apply elem_of_nil in Hv. contradiction.
  - destruct (IH (if Z.ltb w best then w else best)) as (Hmem & Hle & Hall).
    destruct (Z.ltb_spec w best) as [Hlt|Hge].
    + split.
      * destruct Hmem as [->|Hmem]; right;
          [apply list_elem_of_here | apply list_elem_of_further; exact Hmem].
      * split; [lia|]. intros v Hv.
        apply elem_of_cons in Hv as [->|Hv]; [exact Hle | auto].
    + split.
      * destruct Hmem as [->|Hmem]; [left; reflexivity|].
        right. apply list_elem_of_further. exact Hmem.
      * split; [exact Hle|]. intros v Hv.
        apply elem_of_cons in Hv as [->|Hv]; [lia | auto].
Qed.

Lemma col_min_spec (col : list Z) (m : Z) :
  col_min col = Some m -> m ∈ col /\ forall v, v ∈ col -> m <= v.
Proof.
  destruct col as [|w rest]; [discriminate|]. simpl. intros [= <-].
  destruct (min_from_spec rest w) as (Hmem & Hle & Hall). split.
  - destruct Hmem as [->|Hmem];
      [apply list_elem_of_here | apply list_elem_of_further; exact Hmem].
  - intros v Hv. apply elem_of_cons in Hv as [->|Hv]; [exact Hle | auto].
Qed.

Lemma loc_mask_enumerate_from {A : Type} (l : list A) (mask : list bool)
    (start : nat) :
  List.map snd (loc_mask (combine (seq start (length l)) l) mask)
  = loc_mask l mask.
Proof.
  revert mask start. induction l as [|a l IH]; intros [|b mask] start; simpl;
    try reflexivity.
  destruct b; simpl; rewrite IH; reflexivity.
Qed.

Lemma reference_trace_min (series : list Tel.t) (m : Z) :
  col_min (column Tel.LapNumber series) = Some m ->
  reference_trace series
  = List.filter (fun s => Z.eqb (Tel.LapNumber s) m) series.
Proof.
  intros Hmin. unfold reference_trace, track_frame, enumerate.
  rewrite loc_mask_enumerate_from, Hmin. unfold eq_col_opt, eq_col, column.
  rewrite map_map. apply loc_mask_map.
Qed.

Lemma reference_trace_nonempty_min (series : list Tel.t) :
  reference_trace series <> [] ->
  exists m, col_min (column Tel.LapNumber series) = Some m.
Proof.
  intros Hne. destruct (col_min (column Tel.LapNumber series)) as [m|] eqn:E;
    [eauto|]. exfalso. apply Hne.
  unfold reference_trace, track_frame, enumerate.
  rewrite loc_mask_enumerate_from, E. simpl.
  unfold column. rewrite map_map.
  rewrite (loc_mask_map (fun _ => false)).
  apply filter_none. reflexivity.
Qed.

Lemma track_frame_labels (series : list Tel.t) :
  NoDup (List.map fst (track_frame series)).
Proof.
  unfold track_frame, enumerate.
  generalize (eq_col_opt (column Tel.LapNumber series)
                (col_min (column Tel.LapNumber series))) as mask.
  intros mask.
  assert (forall start,
             sublist (List.map fst
                        (loc_mask (combine (seq start (length series)) series)
                           mask))
               (seq start (length series))) as Hsub.
  { revert mask. induction series as [|s series IH]; intros [|b mask] start;
      simpl; try apply sublist_nil_l.
    destruct b; simpl; [apply sublist_skip | apply sublist_cons]; apply IH. }
  apply (sublist_NoDup _ (seq 0 (length series))); [apply NoDup_seq|].
  apply (Hsub 0%nat).
Qed.

(** ** [idxmin] and [loc] *)

Lemma idxmin_from_spec (rest : list (nat * Q)) (best : nat * Q) :
  exists i p,
    (best :: rest) !! i = Some p
    /\ idxmin_from best rest = fst p
    /\ (forall j q, (best :: rest) !! j = Some q -> (snd p <= snd q)%Q)
    /\ (forall j q, (j < i)%nat -> (best :: rest) !! j = Some q ->
                    (snd p < snd q)%Q).
Proof.
  revert best. induction rest as [|[label v] rest IH]; intros best.
  - exists 0%nat, best. split; [reflexivity|]. split; [reflexivity|]. split.
    + intros [|j] q Hq; [|discriminate]. injection Hq as <-. apply Qle_refl.
    + intros j q Hj. lia.
  - simpl idxmin_from. destruct (Qlt_bool v (snd best)) eqn:Hcmp.
    + apply Qlt_bool_iff in Hcmp.
      destruct (IH (label, v)) as (i & p & Hi & Hres & Hmin & Hfirst).
      assert (snd p <= v)%Q as Hpv by (apply (Hmin 0%nat (label, v)); reflexivity).
      exists (S i), p. split; [exact Hi|]. split; [exact Hres|]. split.
      * intros [|j] q Hq.
        -- injection Hq as <-. apply Qlt_le_weak.
           eapply Qle_lt_trans; eassumption.
        -- apply (Hmin j q Hq).
      * intros [|j] q Hj Hq.
        -- injection Hq as <-. eapply Qle_lt_trans; eassumption.
        -- apply (Hfirst j q); [lia | exact Hq].
    + apply Qlt_bool_false in Hcmp.
      destruct (IH best) as (i & p & Hi & Hres & Hmin & Hfirst).
      destruct i as [|i].
      * injection Hi as <-. exists 0%nat, best.
        split; [reflexivity|]. split; [exact Hres|]. split.
        -- intros [|[|j]] q Hq.
           ++ injection Hq as <-. apply Qle_refl.
           ++ injection Hq as <-. exact Hcmp.
           ++ apply (Hmin (S j) q Hq).
        -- intros j q Hj. lia.
      * assert (snd p < snd best)%Q as Hpb.
        { apply (Hfirst 0%nat best); [lia | reflexivity]. }
        exists (S (S i)), p. split; [exact Hi|]. split; [exact Hres|]. split.
        -- intros [|[|j]] q Hq.
           ++ injection Hq as <-. apply Qlt_le_weak. exact Hpb.
           ++ injection Hq as <-. apply Qlt_le_weak.
              eapply Qlt_le_trans; eassumption.
           ++ apply (Hmin (S j) q Hq).
        -- intros [|[|j]] q Hj Hq.
           ++ injection Hq as <-. exact Hpb.
           ++ injection Hq as <-. eapply Qlt_le_trans; eassumption.
           ++ apply (Hfirst (S j) q); [lia | exact Hq].
Qed.

Lemma idxmin_spec (series : list (nat * Q)) :
  series <> [] ->
  exists i p,
    series !! i = Some p
    /\ idxmin series = Ok (fst p)
    /\ (forall j q, series !! j = Some q -> (snd p <= snd q)%Q)
    /\ (forall j q, (j < i)%nat -> series !! j = Some q ->
                    (snd p < snd q)%Q).
Proof.
  destruct series as [|best rest]; [congruence|]. intros _.
  destruct (idxmin_from_spec rest best) as (i & p & Hi & Hres & Hmin & Hfirst).
  exists i, p. simpl idxmin. rewrite Hres. auto.
Qed.

Lemma loc_at_unique_label {A B : Type} (frame : list (nat * A)) (i : nat)
    (r : nat * A) (col : A -> B) :
  NoDup (List.map fst frame) -> frame !! i = Some r ->
  loc_at frame (fst r) col = Ok (col (snd r)).
Proof.
  intros Hnd Hi.
  assert (List.filter (fun r' => Nat.eqb (fst r') (fst r)) frame = [r])
    as Hrows.
  { revert i Hnd Hi. induction frame as [|a frame IH]; intros i Hnd Hi;
      [discriminate|].
    simpl in Hnd. apply NoDup_cons in Hnd as [Ha Hnd].
    destruct i as [|i]; simpl in Hi.
    - injection Hi as ->. simpl. rewrite Nat.eqb_refl. f_equal.
      apply filter_none. intros b Hb. apply Nat.eqb_neq. intros Heq.
      apply Ha. rewrite <- Heq. apply list_elem_of_In, in_map.
      apply list_elem_of_In. exact Hb.
    - simpl. destruct (Nat.eqb_spec (fst a) (fst r)) as [Heq|_].
      + exfalso. apply Ha. rewrite Heq. apply list_elem_of_In, in_map.
        apply list_elem_of_In. eapply list_elem_of_lookup_2. exact Hi.
      + apply (IH i); assumption. }
  unfold loc_at. rewrite Hrows. reflexivity.
Qed.

(** ** [update_track_marker] *)

Lemma alter_as_insert {A : Type} (f : A -> A) (l : list A) (i : nat) (a : A) :
  l !! i = Some a -> alter f i l = <[i := f a]> l.
Proof.
  revert i. induction l as [|b l IH]; intros [|i] Hi; simpl in *;
    try discriminate.
  - injection Hi as ->. reflexivity.
  - f_equal. apply IH. exact Hi.
Qed.

Lemma contains_lookup {V : Type} (d : gmap string V) (key : string) (v : V) :
  d !! key = Some v -> contains d key = true /\ dict_getitem d key = Ok v.
Proof.
  intros H. unfold contains, dict_getitem. rewrite H. split; reflexivity.
Qed.

(** The figure [create_track_plot] builds for a non-empty reference trace
    has the outline at index 0 and the marker at index 1. *)
Lemma create_track_plot_has_marker (dd : gmap string (list Tel.t))
    (first : string) (others : list string) (series : list Tel.t)
    (height : Z) :
  dd !! first = Some series ->
  reference_trace series <> [] ->
  exists fig marker,
    create_track_plot dd (first :: others) height = Ok fig
    /\ Figure.data fig !! 1%nat = Some marker
    /\ Trace.name marker = "Current Position".
Proof.
  intros Hlookup Hne.
  destruct (contains_lookup dd first series Hlookup) as [Hin Hget].
  unfold create_track_plot. rewrite Hin, Hget. cbn [negb mbind result_bind].
  unfold reference_trace in Hne.
  destruct (track_frame series) as [|r0 track];
    [exfalso; apply Hne; reflexivity|].
  cbn [df_empty column List.map iloc0 mbind result_bind].
  eexists _, _. split; [reflexivity|]. split; reflexivity.
Qed.

(** C1. When the first selected driver has telemetry, the reference trace
    (the rows of that driver's lowest-numbered lap) is not empty, and the
    figure has its marker trace, [update_track_marker] sets the marker to
    the X, Y and recorded distance of the row of the reference trace whose
    distance is nearest to the query: no row is nearer, and every earlier
    row is strictly farther.  After the call the trace at index 1 has that
    row's X as its only x value, its Y as its only y value, and its
    distance in the hover text. *)
Theorem update_track_marker_nearest (fig : Figure.t)
    (dd : gmap string (list Tel.t)) (first : string) (others : list string)
    (series : list Tel.t) (d : Q) (marker : Trace.t) :
  dd !! first = Some series ->
  reference_trace series <> [] ->
  Figure.data fig !! 1%nat = Some marker ->
  exists i s,
    reference_trace series !! i = Some s
    /\ (forall j s', reference_trace series !! j = Some s' ->
          (Qabs (Tel.Distance s - d) <= Qabs (Tel.Distance s' - d))%Q)
    /\ (forall j s', (j < i)%nat -> reference_trace series !! j = Some s' ->
          (Qabs (Tel.Distance s - d) < Qabs (Tel.Distance s' - d))%Q)
    /\ update_track_marker fig dd (first :: others) d
       = Ok (set_marker fig
               (move_marker (Tel.X s) (Tel.Y s) (Tel.Distance s) marker))
    /\ (exists fig' marker',
          update_track_marker fig dd (first :: others) d = Ok fig'
          /\ Figure.data fig' !! 1%nat = Some marker'
          /\ Trace.x marker' = [Tel.X s]
          /\ Trace.y marker' = [Tel.Y s]
          /\ Trace.hovertemplate marker' = HoverPosition (Tel.Distance s)
          /\ Trace.name marker' = Trace.name marker
          /\ forall k, k <> 1%nat ->
                       Figure.data fig' !! k = Figure.data fig !! k)
    /\ exists m,
         reference_trace series
         = List.filter (fun s' => Z.eqb (Tel.LapNumber s') m) series
         /\ (forall s', s' ∈ series -> m <= Tel.LapNumber s').
Proof.
  intros Hlookup Hne Hmarker.
  destruct (contains_lookup dd first series Hlookup) as [Hin Hget].
  pose proof (track_frame_labels series) as Hlabels.
  assert (track_frame series <> []) as Hframe.
  { intros Hnil. apply Hne. unfold reference_trace. rewrite Hnil.
    reflexivity. }
  set (f := fun r : nat * Tel.t =>
              (fst r, Qabs (Tel.Distance (snd r) - d))).
  destruct (idxmin_spec (List.map f (track_frame series)))
    as (i & p & Hi & Hres & Hmin & Hfirst).
  { intros Hnil. apply map_eq_nil in Hnil. contradiction. }
  assert (exists r, track_frame series !! i = Some r /\ p = f r)
    as (r & Hr & ->).
  { rewrite lookup_map in Hi. destruct (track_frame series !! i) as [r|];
      [|discriminate]. exists r. split; [reflexivity|].
    injection Hi as <-. reflexivity. }
  assert (update_track_marker fig dd (first :: others) d
          = Ok (set_marker fig
                  (move_marker (Tel.X (snd r)) (Tel.Y (snd r))
                     (Tel.Distance (snd r)) marker))) as Hrun.
  { unfold update_track_marker. rewrite Hin, Hget.
    cbn [negb mbind result_bind].
    assert (df_empty (track_frame series) = false) as ->.
    { destruct (track_frame series); [contradiction | reflexivity]. }
    fold f. rewrite Hres. cbn [mbind result_bind fst f].
    rewrite !(loc_at_unique_label (track_frame series) i r) by assumption.
    cbn [mbind result_bind].
    assert (Nat.ltb 1 (length (Figure.data fig)) = true) as ->.
    { apply Nat.ltb_lt. eapply lookup_lt_Some. exact Hmarker. }
    unfold set_marker. rewrite (alter_as_insert _ _ _ marker Hmarker).
    reflexivity. }
  exists i, (snd r). unfold reference_trace at 1.
  split; [rewrite lookup_map, Hr; reflexivity|].
  split; [|split; [|split; [exact Hrun|split]]].
  - intros j s' Hj. unfold reference_trace in Hj. rewrite lookup_map in Hj.
    destruct (track_frame series !! j) as [r'|] eqn:Hr'; [|discriminate].
    injection Hj as <-.
    apply (Hmin j (f r')). rewrite lookup_map, Hr'. reflexivity.
  - intros j s' Hlt Hj. unfold reference_trace in Hj.
    rewrite lookup_map in Hj.
    destruct (track_frame series !! j) as [r'|] eqn:Hr'; [|discriminate].
    injection Hj as <-.
    apply (Hfirst j (f r') Hlt). rewrite lookup_map, Hr'. reflexivity.
  - eexists _, _. split; [exact Hrun|].
    cbn [set_marker Figure.data]. split.
    + apply list_lookup_insert_eq. eapply lookup_lt_Some. exact Hmarker.
    + cbn [move_marker Trace.x Trace.y Trace.hovertemplate Trace.name].
      repeat (split; [reflexivity|]).
      intros k Hk. apply list_lookup_insert_ne. congruence.
  - destruct (reference_trace_nonempty_min series Hne) as [m Hm].
    exists m. split.
    + apply (reference_trace_min series m Hm).
    + intros s' Hs'. apply (col_min_spec _ m Hm).
      unfold column. apply list_elem_of_In, in_map.
      apply list_elem_of_In. exact Hs'.
Qed.

(** C9. With no selected driver, with a first selected driver that has no
    entry in the mapping, or with an empty reference trace,
    [update_track_marker] returns without touching the figure: the figure
    after the call is the figure before it. *)
Theorem update_track_marker_no_update (fig : Figure.t)
    (dd : gmap string (list Tel.t)) (selected_drivers : list string)
    (d : Q) :
  selected_drivers = []
  \/ (exists first others,
        selected_drivers = first :: others /\ dd !! first = None)
  \/ (exists first others series,
        selected_drivers = first :: others /\ dd !! first = Some series
        /\ reference_trace series = []) ->
  update_track_marker fig dd selected_drivers d = Ok fig.
Proof.
  intros [->|[(first & others & -> & Hnone)
             |(first & others & series & -> & Hsome & Hempty)]].
  - reflexivity.
  - unfold update_track_marker, contains. rewrite Hnone. reflexivity.
  - destruct (contains_lookup dd first series Hsome) as [Hin Hget].
    unfold update_track_marker. rewrite Hin, Hget.
    cbn [negb mbind result_bind].
    unfold reference_trace in Hempty. apply map_eq_nil in Hempty.
    rewrite Hempty. reflexivity.
Qed.

(** ** [get_lap_summary_stats] *)



Lemma col_mean_spec (col : list Q) :
  col <> [] ->
  (col_mean col * inject_Z (Z.of_nat (length col)) == col_sum col)%Q.
Proof.
  intros Hne. unfold col_mean. rewrite Qmult_comm. apply Qmult_div_r.
  destruct col as [|v col]; [congruence|].
  intros H. unfold Qeq, inject_Z in H. cbn [Qnum Qden length] in H. lia.
Qed.

Lemma count_positive_column {A : Type} (col : A -> Q) (rows : list A) :
  count_positive (column col rows)
  = length (List.filter (fun r => Qlt_bool 0 (col r)) rows).
Proof.
  unfold count_positive, column.
  induction rows as [|r rows IH]; simpl; [reflexivity|].
  destruct (Qlt_bool 0 (col r)); simpl; rewrite IH; reflexivity.
Qed.

Lemma stats_loop_spec (dd : gmap string (list Tel.t)) (selected_lap : Z)
    (drivers : list string) :
  forall stats, exists stats',
    stats_loop dd selected_lap drivers stats = Ok stats'
    /\ forall d, stats' !! d = stats_after dd selected_lap drivers stats d.
Proof.
  induction drivers as [|driver rest IH]; intros stats.
  - exists stats. split; [reflexivity|]. intros d. unfold stats_after.
    rewrite bool_decide_eq_false_2; [reflexivity | apply not_elem_of_nil].
  - set (stats1 :=
           match stats_entry dd selected_lap driver with
           | Some s => <[driver := s]> stats
           | None => stats
           end).
    destruct (IH stats1) as (stats' & Hrun & Hentry).
    exists stats'. split.
    + rewrite <- Hrun. unfold stats1, stats_entry, lap_rows.
      cbn [stats_loop]. unfold contains, dict_getitem.
      destruct (dd !! driver) as [series|]; [|reflexivity].
      cbn [negb mbind result_bind].
      unfold eq_col, column. rewrite map_map.
      rewrite (loc_mask_map (fun s => Z.eqb (Tel.LapNumber s) selected_lap)).
      destruct (List.filter _ series); reflexivity.
    + intros d. rewrite Hentry. unfold stats_after.
      destruct (decide (d = driver)) as [->|Hne].
      * rewrite (bool_decide_eq_true_2 (driver ∈ driver :: rest))
          by apply list_elem_of_here.
        unfold stats1.
        destruct (stats_entry dd selected_lap driver) as [s|];
          destruct (bool_decide (driver ∈ rest));
          rewrite ?lookup_insert_eq; reflexivity.
      * assert (bool_decide (d ∈ driver :: rest) = bool_decide (d ∈ rest))
          as ->.
        { apply bool_decide_ext. rewrite elem_of_cons. tauto. }
        assert (stats1 !! d = stats !! d) as ->.
        { unfold stats1. destruct (stats_entry dd selected_lap driver);
            [|reflexivity]. apply lookup_insert_ne. congruence. }
        reflexivity.
Qed.




(** ** [get_available_events] *)

Lemma occurred_events_spec (now : Z) (schedule : list Event.t)
    (events : list string) :
  occurred_events now schedule events =
  events ++ List.map Event.EventName
              (List.filter (fun e => Z.leb (Event.EventDate e) now) schedule).
Proof.
  revert events. induction schedule as [|e schedule IH]; intros events; simpl.
  - rewrite app_nil_r. reflexivity.
  - destruct (Z.leb (Event.EventDate e) now); [|apply IH].
    rewrite IH, <- app_assoc. reflexivity.
Qed.

Lemma occurred_events_none (now : Z) (schedule : list Event.t) :
  Forall (fun e => now < Event.EventDate e) schedule ->
  occurred_events now schedule [] = [].
Proof.
  intros Hall. rewrite occurred_events_spec. simpl.
  rewrite filter_none; [reflexivity|].
  intros e He. rewrite Forall_forall in Hall. specialize (Hall e He).
  apply Z.leb_gt. exact Hall.
Qed.

(** C6, as the code has it.  When the schedule request raises, the result
    is the fixed fallback list.  When the schedule has no event dated on or
    before today, the result is the first ten event names of the schedule,
    which is the whole schedule when it has at most ten events.  The
    result is not empty whenever the request raises or the schedule has at
    least one event. *)
Theorem get_available_events_fallback
    (get_event_schedule : Z -> result (list Event.t)) (now year : Z) :
  (forall e, get_event_schedule year = Raise e ->
             get_available_events get_event_schedule now year
             = fallback_events)
  /\ (forall schedule,
        get_event_schedule year = Ok schedule ->
        Forall (fun e => now < Event.EventDate e) schedule ->
        get_available_events get_event_schedule now year
        = take 10 (column Event.EventName schedule)
        /\ ((length schedule <= 10)%nat ->
            get_available_events get_event_schedule now year
            = column Event.EventName schedule))
  /\ ((forall schedule, get_event_schedule year = Ok schedule ->
                        schedule <> []) ->
      get_available_events get_event_schedule now year <> []).
Proof.
  unfold get_available_events. split; [|split].
  - intros e ->. reflexivity.
  - intros schedule -> Hall. cbn [mbind result_bind try_except].
    rewrite (occurred_events_none now schedule Hall). cbn [df_empty negb].
    split; [reflexivity|]. intros Hlen. apply take_ge.
    unfold column. rewrite List.length_map. exact Hlen.
  - intros Hne. destruct (get_event_schedule year) as [schedule|e];
      [|discriminate].
    specialize (Hne schedule eq_refl).
    cbn [mbind result_bind try_except].
    destruct (occurred_events now schedule []) as [|name names] eqn:E;
      cbn [df_empty negb]; [|discriminate].
    destruct schedule as [|ev schedule]; [congruence|]. discriminate.
Qed.

(** C6 as stated fails.  For a season of eleven races, none dated on or
    before today, the result is neither the full schedule nor the fallback
    list; and for a schedule without events the result is empty. *)
Lemma get_available_events_not_full_schedule :
  Forall (fun e => 0 < Event.EventDate e) future_season
  /\ get_available_events (fun _ => Ok future_season) 0 2030
     <> column Event.EventName future_season
  /\ get_available_events (fun _ => Ok future_season) 0 2030
     <> fallback_events
  /\ get_available_events (fun _ => Ok []) 0 2030 = [].
Proof.
  split; [|split; [|split]].
  - repeat constructor.
  - vm_compute. discriminate.
  - vm_compute. discriminate.
  - reflexivity.
Qed.

(** ** [create_telemetry_plots] *)

Lemma plot_driver_ok (dd : gmap string (list Tel.t))
    (colors : gmap string string) (selected_lap : Z) (d : Q)
    (fig : Figure.t) (driver_code : string) :
  exists fig', plot_driver dd colors selected_lap d fig driver_code = Ok fig'.
Proof.
  unfold plot_driver, contains, dict_getitem.
  destruct (dd !! driver_code) as [df|]; cbn [negb mbind result_bind];
    [|eauto].
  destruct (df_empty df); [eauto|].
  destruct (df_empty (loc_mask df _)); eauto.
Qed.

Lemma plot_drivers_ok (dd : gmap string (list Tel.t))
    (colors : gmap string string) (selected_lap : Z) (d : Q)
    (drivers : list string) :
  forall fig,
    exists fig', plot_drivers dd colors selected_lap d drivers fig = Ok fig'.
Proof.
  induction drivers as [|driver_code rest IH]; intros fig; simpl; [eauto|].
  destruct (plot_driver_ok dd colors selected_lap d fig driver_code)
    as [fig1 ->].
  cbn [mbind result_bind]. apply IH.
Qed.

(** C10. [create_telemetry_plots] evaluates [selected_drivers[1]] whatever
    the length of the list: with fewer than two selected drivers the call
    raises [IndexError], so a figure is returned only for two or more
    selected drivers, and for those a figure is always returned. *)
Theorem create_telemetry_plots_needs_two_drivers
    (dd : gmap string (list Tel.t)) (selected_drivers : list string)
    (selected_lap : Z) (d : Q) :
  ((length selected_drivers < 2)%nat ->
   create_telemetry_plots dd selected_drivers selected_lap d
   = Raise IndexError)
  /\ (forall fig,
        create_telemetry_plots dd selected_drivers selected_lap d = Ok fig ->
        (2 <= length selected_drivers)%nat)
  /\ ((2 <= length selected_drivers)%nat ->
      exists fig,
        create_telemetry_plots dd selected_drivers selected_lap d = Ok fig).
Proof.
  assert ((length selected_drivers < 2)%nat ->
          create_telemetry_plots dd selected_drivers selected_lap d
          = Raise IndexError) as Hshort.
  { intros Hlen. unfold create_telemetry_plots, driver_colors, list_getitem.
    destruct selected_drivers as [|d0 [|d1 rest]]; simpl in *;
      [reflexivity | reflexivity | lia]. }
  split; [exact Hshort|]. split.
  - intros fig Hfig.
    destruct (Nat.lt_ge_cases (length selected_drivers) 2) as [Hlt|Hge];
      [|exact Hge].
    rewrite (Hshort Hlt) in Hfig. discriminate.
  - intros Hlen. unfold create_telemetry_plots, driver_colors, list_getitem.
    destruct selected_drivers as [|d0 [|d1 rest]]; simpl in Hlen; try lia.
    cbn [lookup list_lookup mbind result_bind].
    match goal with
    | |- context [plot_drivers dd ?c selected_lap d ?l ?f] =>
        destruct (plot_drivers_ok dd c selected_lap d l f) as [fig' ->]
    end.
    cbn [mbind result_bind]. eauto.
Qed.

(** ** The UTF-8 codec *)

Ltac nlia := zify; Z.to_euclidean_division_equations; lia.

Lemma to_N_byte_of_N (n : N) : (n < 256)%N -> Byte.to_N (byte_of_N n) = n.
Proof.
  intros Hn. unfold byte_of_N.
  destruct (Byte.of_N n) as [b|] eqn:E; simpl.
  - apply Byte.to_of_N. exact E.
  - apply Byte.of_N_None_iff in E. lia.
Qed.

Ltac decide_tests :=
  repeat match goal with
    | |- context [N.ltb ?a ?b] =>
        destruct (N.ltb_spec a b); try (exfalso; nlia)
    | |- context [N.leb ?a ?b] =>
        destruct (N.leb_spec a b); try (exfalso; nlia)
    end.

Lemma utf8_decode_encode_char (c : N) (bs : list Byte.byte) (rest : list N) :
  utf8_encode_char c = Ok bs ->
  utf8_decode_codes (List.map Byte.to_N bs ++ rest)
  = (s ← utf8_decode_codes rest; Ok (c :: s)).
Proof.
  unfold utf8_encode_char, is_surrogate.
  destruct (N.ltb_spec c 0x80) as [H1|H1].
  { intros [= <-]. cbn [List.map app].
    rewrite to_N_byte_of_N by nlia.
    cbn [utf8_decode_codes]. decide_tests. reflexivity. }
  destruct (N.ltb_spec c 0x800) as [H2|H2].
  { intros [= <-]. cbn [List.map app].
    rewrite !to_N_byte_of_N by nlia.
    cbn [utf8_decode_codes]. unfold is_continuation. decide_tests.
    cbn [andb].
    assert ((0xC0 + c / 0x40 - 0xC0) * 0x40 + (0x80 + c mod 0x40 - 0x80) = c)%N
      as -> by nlia.
    reflexivity. }
  destruct (N.ltb_spec c 0x10000) as [H3|H3].
  { destruct (N.leb_spec 0xD800 c) as [H4|H4];
      destruct (N.leb_spec c 0xDFFF) as [H5|H5]; cbn [andb];
      try discriminate; intros [= <-]; cbn [List.map app];
      rewrite !to_N_byte_of_N by nlia;
      cbn [utf8_decode_codes]; cbv zeta;
      assert ((0xE0 + c / 0x1000 - 0xE0) * 0x1000
              + (0x80 + (c / 0x40) mod 0x40 - 0x80) * 0x40
              + (0x80 + c mod 0x40 - 0x80) = c)%N as -> by nlia;
      unfold is_continuation, is_surrogate; decide_tests; reflexivity. }
  destruct (N.ltb_spec c 0x110000) as [H4|H4]; [|discriminate].
  intros [= <-]. cbn [List.map app].
  rewrite !to_N_byte_of_N by nlia.
  cbn [utf8_decode_codes]. cbv zeta.
  assert ((0xF0 + c / 0x40000 - 0xF0) * 0x40000
          + (0x80 + (c / 0x1000) mod 0x40 - 0x80) * 0x1000
          + (0x80 + (c / 0x40) mod 0x40 - 0x80) * 0x40
          + (0x80 + c mod 0x40 - 0x80) = c)%N as -> by nlia.
  unfold is_continuation. decide_tests. reflexivity.
Qed.

Lemma utf8_decode_encode (s : pystr) (bs : list Byte.byte) :
  utf8_encode s = Ok bs -> utf8_decode bs = Ok s.
Proof.
  unfold utf8_decode. revert bs.
  induction s as [|c s IH]; intros bs; simpl.
  - intros [= <-]. reflexivity.
  - destruct (utf8_encode_char c) as [cs|e] eqn:Ec; [|discriminate].
    cbn [mbind result_bind].
    destruct (utf8_encode s) as [more|e] eqn:Es; [|discriminate].
    cbn [mbind result_bind]. intros [= <-].
    rewrite List.map_app, (utf8_decode_encode_char c cs _ Ec).
    rewrite (IH more eq_refl). reflexivity.
Qed.

(** ** Newline translation *)

Lemma universal_newlines_translate (p : Platform) (s : pystr) :
  (forall c, c ∈ s -> c <> 13%N) ->
  universal_newlines (translate_on_write p s) = s.
Proof.
  induction s as [|c s IH]; intros Hcr; [reflexivity|].
  assert (c <> 13%N) as Hc by (apply Hcr, list_elem_of_here).
  assert (universal_newlines (translate_on_write p s) = s) as IH'.
  { apply IH. intros c' Hc'. apply Hcr, list_elem_of_further. exact Hc'. }
  unfold translate_on_write in *. cbn [flat_map].
  set (tail := flat_map _ s) in *.
  destruct (N.eqb_spec c 10) as [->|Hlf].
  - destruct p; cbn [os_linesep app universal_newlines N.eqb Pos.eqb];
      rewrite IH'; reflexivity.
  - cbn [app universal_newlines].
    destruct (N.eqb_spec c 13) as [->|_]; [congruence|].
    rewrite IH'. reflexivity.
Qed.

(** ** [save_latex_template] *)

Lemma mkdir_cases (w : World) (dir : Path) :
  (mkdir w dir = Ok w /\ (is_dir w dir = true \/ dir ∉ read_only w))
  \/ (mkdir w dir = Raise OSError
      /\ is_dir w dir = false /\ dir ∈ read_only w).
Proof.
  unfold mkdir. destruct (is_dir w dir); [left; split; [reflexivity|tauto]|].
  destruct (decide (dir ∈ read_only w)); [right | left]; tauto.
Qed.

Lemma save_latex_template_stores (env : Env) (content : pystr) (w w' : World) :
  save_latex_template env (Some content) w = (true, w') ->
  exists data,
    utf8_encode (translate_on_write (platform env) content) = Ok data
    /\ files w' !! (base_path env ++ latex_path) = Some data
    /\ cwd w' = cwd w.
Proof.
  unfold save_latex_template, get_base_path.
  destruct (mkdir_cases w (base_path env ++ ["assets"; "resume_latex"]))
    as [[-> _]|[-> _]]; [|intros [=]].
  unfold write_bytes, latex_path.
  rewrite <- !app_assoc. cbn [app].
  destruct (decide (_ ∈ read_only w)) as [|Hw]; [intros [=]|].
  destruct (utf8_encode _) as [data|e]; cbn [mbind result_bind];
    [|intros [=]].
  cbn [set_files read_only].
  destruct (decide (_ ∈ read_only w)); [contradiction|].
  intros [= <-]. exists data. split; [reflexivity|]. split; [|reflexivity].
  cbn [files set_files]. apply lookup_insert_eq.
Qed.

(** C8, as the code has it.  After a successful
    [save_latex_template(content)], reading the saved file as text yields
    the content with its newlines normalised; it yields the content itself
    whenever the content has no carriage return.  The read of the resume
    page sees the same file when the working directory is the application
    directory. *)
Theorem save_then_read_latex (env : Env) (content : pystr) (w w' : World) :
  save_latex_template env (Some content) w = (true, w') ->
  read_text w' (base_path env ++ latex_path)
  = Ok (universal_newlines (translate_on_write (platform env) content))
  /\ ((forall c, c ∈ content -> c <> 13%N) ->
      read_text w' (base_path env ++ latex_path) = Ok content
      /\ (cwd w = base_path env -> read_latex_source w' = Ok content)).
Proof.
  intros Hsave.
  destruct (save_latex_template_stores env content w w' Hsave)
    as (data & Henc & Hfile & Hcwd).
  assert (read_text w' (base_path env ++ latex_path)
          = Ok (universal_newlines
                  (translate_on_write (platform env) content))) as Hread.
  { unfold read_text, read_bytes. rewrite Hfile. cbn [mbind result_bind].
    rewrite (utf8_decode_encode _ _ Henc). reflexivity. }
  split; [exact Hread|]. intros Hcr.
  rewrite universal_newlines_translate in Hread by exact Hcr.
  split; [exact Hread|]. intros Hdir.
  unfold read_latex_source. rewrite Hcwd, Hdir. exact Hread.
Qed.

(** C8 as stated fails: the text [a CR b] is saved successfully and read
    back as [a LF b]. *)
Lemma save_then_read_carriage_return :
  exists w',
    save_latex_template (plain_env Posix) (Some [97; 13; 98]%N) empty_world
    = (true, w')
    /\ read_text w' (base_path (plain_env Posix) ++ latex_path)
       = Ok [97; 10; 98]%N
    /\ read_latex_source w' = Ok [97; 10; 98]%N
    /\ [97; 10; 98]%N <> [97; 13; 98]%N.
Proof.
  eexists. split; [vm_compute; reflexivity|].
  split; [vm_compute; reflexivity|].
  split; [vm_compute; reflexivity|]. discriminate.
Qed.

(** ** [compile_latex_resume] *)

Lemma compile_latex_resume_true (env : Env) (w w' : World) :
  compile_latex_resume env w = (true, w') ->
  exists stderr1 files1,
    pdflatex env (base_path env ++ ["assets"; "resume_latex"]) (files w)
    = Completed 0 stderr1 files1.
Proof.
  unfold compile_latex_resume, compile_failed, get_base_path.
  destruct (path_exists w _); cbn [negb]; [|intros [=]].
  cbn [cwd chdir files].
  destruct (pdflatex env _ (files w)) as [rc1 stderr1 files1|e];
    [|intros [=]].
  destruct (Z.eqb_spec rc1 0) as [->|Hrc]; cbn [negb]; [|intros [=]].
  intros _. eauto.
Qed.

Lemma compile_latex_resume_first_run_fails (env : Env) (w : World) :
  let dir := base_path env ++ ["assets"; "resume_latex"] in
  let target := base_path env ++ ["assets"; "resume.pdf"] in
  (forall e, pdflatex env dir (files w) = SpawnError e ->
     fst (compile_latex_resume env w) = false
     /\ files (snd (compile_latex_resume env w)) !! target
        = files w !! target)
  /\ (forall rc stderr1 files1,
        pdflatex env dir (files w) = Completed rc stderr1 files1 ->
        rc <> 0 ->
        fst (compile_latex_resume env w) = false
        /\ files (snd (compile_latex_resume env w)) !! target
           = (if path_exists w (dir ++ ["resume.tex"])
              then files1 else files w) !! target).
Proof.
  cbv zeta. unfold compile_latex_resume, compile_failed, get_base_path.
  split.
  - intros e He.
    destruct (path_exists w _); cbn [negb]; [|split; reflexivity].
    cbn [cwd chdir files]. rewrite He. split; reflexivity.
  - intros rc stderr1 files1 Hrun Hrc.
    destruct (path_exists w _); cbn [negb]; [|split; reflexivity].
    cbn [cwd chdir files]. rewrite Hrun.
    destruct (Z.eqb_spec rc 0) as [->|_]; [congruence|].
    split; reflexivity.
Qed.

(** C7 at a failing input.  The first [pdflatex] pass exits with status 0
    and the second with status 1; [compile_latex_resume] still returns
    [True] and replaces the earlier [assets/resume.pdf] by the file the
    failed pass left. *)
Theorem compile_latex_resume_second_pass_unchecked :
  exists stderr1 files1 stderr2 files2 w',
    pdflatex two_pass_env ["app"; "assets"; "resume_latex"]
      (files resume_world) = Completed 0 stderr1 files1
    /\ pdflatex two_pass_env ["app"; "assets"; "resume_latex"] files1
       = Completed 1 stderr2 files2
    /\ compile_latex_resume two_pass_env resume_world = (true, w')
    /\ files resume_world !! ["app"; "assets"; "resume.pdf"]
       = Some (list_byte_of_string "previous")
    /\ files w' !! ["app"; "assets"; "resume.pdf"]
       = Some (list_byte_of_string "second pass").
Proof.
  do 5 eexists.
  split; [vm_compute; reflexivity|].
  split; [vm_compute; reflexivity|].
  split; [vm_compute; reflexivity|].
  split; vm_compute; reflexivity.
Qed.

(** * The properties on the sample session *)

Example sample_session_result :
  process_driver_data_body sample_session ["VER"; "HAM"]
  = Ok (sample_data, sample_series).
Proof. vm_compute. reflexivity. Qed.

Example sample_track_plot :
  create_track_plot sample_data ["VER"; "HAM"] 600 = Ok sample_figure.
Proof. vm_compute. reflexivity. Qed.

(** Distances 0, 50, 100 and a query of 60: the marker moves to the sample
    at distance 50, whose position is (50, 0). *)
Example sample_marker_at_60 :
  exists fig' marker',
    update_track_marker sample_figure sample_data ["VER"; "HAM"] 60 = Ok fig'
    /\ Figure.data fig' = [sample_outline; marker']
    /\ Trace.x marker' = [50%Q] /\ Trace.y marker' = [0%Q]
    /\ Trace.hovertemplate marker' = HoverPosition 50.
Proof.
  eexists _, _. split; [vm_compute; reflexivity|].
  split; [reflexivity|]. repeat split.
Qed.

(** A tie is resolved in favour of the earlier sample: distance 75 is as
    far from 50 as from 100. *)
Example sample_marker_tie :
  exists fig' marker',
    update_track_marker sample_figure sample_data ["VER"; "HAM"] 75 = Ok fig'
    /\ Figure.data fig' = [sample_outline; marker']
    /\ Trace.x marker' = [50%Q] /\ Trace.y marker' = [0%Q]
    /\ Trace.hovertemplate marker' = HoverPosition 50.
Proof.
  eexists _, _. split; [vm_compute; reflexivity|].
  split; [reflexivity|]. repeat split.
Qed.

Lemma sample_segment_length_nonneg (dx dy : Q) :
  (0 <= segment_length sample_session dx dy)%Q.
Proof.
  simpl. rewrite <- (Qplus_0_r 0).
  apply Qplus_le_compat; apply Qabs_nonneg.
Qed.

Lemma update_track_marker_nearest_witness :
  sample_data !! "VER" = Some sample_series
  /\ reference_trace sample_series <> []
  /\ Figure.data sample_figure !! 1%nat = Some sample_marker
  /\ exists s fig' marker',
       s ∈ reference_trace sample_series
       /\ update_track_marker sample_figure sample_data ["VER"; "HAM"] 60
          = Ok fig'
       /\ Figure.data fig' !! 1%nat = Some marker'
       /\ Trace.x marker' = [Tel.X s] /\ Trace.y marker' = [Tel.Y s]
       /\ Trace.hovertemplate marker' = HoverPosition (Tel.Distance s).
Proof.
  assert (sample_data !! "VER" = Some sample_series) as H1
    by (vm_compute; reflexivity).
  assert (reference_trace sample_series <> []) as H2
    by (vm_compute; discriminate).
  assert (Figure.data sample_figure !! 1%nat = Some sample_marker) as H3
    by reflexivity.
  split; [exact H1|]. split; [exact H2|]. split; [exact H3|].
  destruct (update_track_marker_nearest sample_figure sample_data "VER"
              ["HAM"] sample_series 60 sample_marker H1 H2 H3)
    as (i & s & Hi & _ & _ & _ & (fig' & marker' & Hrun & Hm & Hx & Hy & Hh & _)
        & _).
  exists s, fig', marker'. split; [|tauto].
  eapply list_elem_of_lookup_2. exact Hi.
Defined.

Lemma lap_filter_exact_witness :
  sublist (valid_laps sample_laps) sample_laps
  /\ (forall lap, lap ∈ valid_laps sample_laps
                  <-> lap ∈ sample_laps /\ lap_is_valid lap).
Proof.
  split.
  - apply (lap_filter_exact sample_laps).
  - apply (lap_filter_exact sample_laps).
Defined.

Lemma process_driver_data_never_raises_witness :
  exists dd all cache',
    process_driver_data sample_session ["VER"; "HAM"] ∅
    = (Ok (dd, all), cache')
    /\ dd !! "HAM" = None
    /\ dd !! "VER" = driver_series sample_session "VER".
Proof.
  destruct (process_driver_data_never_raises sample_session ["VER"; "HAM"] ∅)
    as (dd & all & cache' & Hrun & _ & _ & _ & Hbody).
  destruct (Hbody (lookup_empty _)) as (Hentry & _).
  exists dd, all, cache'. split; [exact Hrun|]. rewrite !Hentry.
  split; reflexivity.
Defined.

Lemma series_invariants_witness :
  (forall dx dy, (0 <= segment_length sample_session dx dy)%Q)
  /\ process_driver_data_body sample_session ["VER"; "HAM"]
     = Ok (sample_data, sample_series)
  /\ sample_data !! "VER" = Some sample_series
  /\ (forall s, s ∈ sample_series -> Tel.Driver s = "VER").
Proof.
  assert (sample_data !! "VER" = Some sample_series) as H3
    by (vm_compute; reflexivity).
  split; [exact sample_segment_length_nonneg|].
  split; [exact sample_session_result|]. split; [exact H3|].
  intros s Hs.
  destruct (series_invariants sample_session ["VER"; "HAM"] sample_data
              sample_series "VER" sample_series
              sample_segment_length_nonneg sample_session_result H3)
    as [_ Hrows].
  apply (Hrows s Hs).
Defined.


Lemma get_available_events_fallback_witness :
  Forall (fun e => 0 < Event.EventDate e) future_season
  /\ get_available_events (fun _ => Ok future_season) 0 2030
     = take 10 (column Event.EventName future_season).
Proof.
  assert (Forall (fun e => 0 < Event.EventDate e) future_season) as H
    by (repeat constructor).
  split; [exact H|].
  apply (get_available_events_fallback (fun _ => Ok future_season) 0 2030);
    [reflexivity | exact H].
Defined.

Lemma save_then_read_latex_witness :
  save_latex_template (plain_env Windows) (Some two_lines) empty_world
  = (true, saved_world)
  /\ (forall c, c ∈ two_lines -> c <> 13%N)
  /\ read_text saved_world (base_path (plain_env Windows) ++ latex_path)
     = Ok two_lines.
Proof.
  assert (save_latex_template (plain_env Windows) (Some two_lines) empty_world
          = (true, saved_world)) as H1 by (vm_compute; reflexivity).
  assert (forall c, c ∈ two_lines -> c <> 13%N) as H2.
  { intros c Hc. unfold two_lines in Hc.
    repeat (apply elem_of_cons in Hc as [->|Hc]; [discriminate|]).
    apply elem_of_nil in Hc. contradiction. }
  split; [exact H1|]. split; [exact H2|].
  destruct (save_then_read_latex (plain_env Windows) two_lines empty_world
              saved_world H1) as [_ Hplain].
  destruct (Hplain H2) as [Hread _]. exact Hread.
Defined.

Lemma update_track_marker_no_update_witness :
  update_track_marker sample_figure sample_data [] 60 = Ok sample_figure
  /\ update_track_marker sample_figure sample_data ["HAM"; "VER"] 60
     = Ok sample_figure
  /\ update_track_marker sample_figure {["VER" := []]} ["VER"; "HAM"] 60
     = Ok sample_figure.
Proof.
  split; [|split].
  - apply update_track_marker_no_update. left. reflexivity.
  - apply update_track_marker_no_update. right. left.
    exists "HAM", ["VER"]. split; reflexivity.
  - apply update_track_marker_no_update. right. right.
    exists "VER", ["HAM"], []. split; [reflexivity|].
    split; [vm_compute|]; reflexivity.
Defined.

Lemma create_telemetry_plots_needs_two_drivers_witness :
  (length ["VER"] < 2)%nat
  /\ create_telemetry_plots sample_data ["VER"] 1 60 = Raise IndexError.
Proof.
  assert (length ["VER"] < 2)%nat as H by (simpl; lia).
  split; [exact H|].
  apply (create_telemetry_plots_needs_two_drivers sample_data ["VER"] 1 60).
  exact H.
Defined.

(** * Further properties of the telemetry functions *)

(** ** Warnings of [process_driver_data] *)

Lemma process_one_driver_outcome (ses : Session) (driver_code : string)
    (st : PState) :
  fst (process_one_driver ses driver_code st)
  = match pick_drivers ses driver_code with
    | Ok _ => Ok tt
    | Raise e => Raise e
    end
  /\ warnings (snd (process_one_driver ses driver_code st)) = warnings st.
Proof.
  unfold process_one_driver.
  destruct (pick_drivers ses driver_code) as [driver_laps|e];
    [|split; reflexivity].
  destruct (df_empty driver_laps); [split; reflexivity|].
  destruct (df_empty (valid_laps driver_laps)); [split; reflexivity|].
  unfold column. rewrite lap_loop_spec.
  2: { intros n Hn. apply (proj1 (elem_of_unique _ _)) in Hn. exact Hn. }
  cbn [app]. destruct (df_empty (omap _ _)); split; reflexivity.
Qed.

Lemma driver_loop_warnings (ses : Session) (n : Z)
    (items : list (nat * string)) :
  Forall (fun item => Z.of_nat (fst item) + 1 <= n) items ->
  forall st st',
    driver_loop ses n items st = Ok st' ->
    warnings st' =
    warnings st ++ omap (driver_warning ses) (List.map snd items).
Proof.
  induction items as [|[idx driver_code] rest IH]; intros Hidx st st' Hrun.
  - simpl in Hrun. injection Hrun as <-. simpl. rewrite app_nil_r.
    reflexivity.
  - inversion Hidx as [|? ? Hhead Htail]; subst. simpl in Hhead.
    destruct (progress_fraction_ok idx n Hhead) as (value & Hdiv & Hprog).
    cbn [driver_loop] in Hrun. rewrite Hdiv in Hrun.
    cbn [mbind result_bind] in Hrun. rewrite Hprog in Hrun.
    cbn [mbind result_bind] in Hrun.
    destruct (process_one_driver_outcome ses driver_code st) as [Hr Hw].
    destruct (process_one_driver ses driver_code st) as [r st1].
    cbn [fst snd] in Hr, Hw.
    apply (IH Htail) in Hrun. rewrite Hrun.
    cbn [List.map snd omap list_omap]. unfold driver_warning at 2.
    subst r. destruct (pick_drivers ses driver_code) as [laps|e].
    + rewrite Hw. reflexivity.
    + cbn [warnings]. rewrite Hw, <- app_assoc. reflexivity.
Qed.

(** The warnings shown by a run of [process_driver_data] are exactly one message
    per listed driver whose lap request raises, in list order; errors on
    single laps and drivers without valid laps produce none. *)
Theorem process_driver_data_warnings (ses : Session) (drivers : list string) :
  exists st,
    process_driver_data_run ses drivers = Ok st
    /\ warnings st = omap (driver_warning ses) drivers.
Proof.
  destruct (process_driver_data_run_spec ses drivers) as (st & Hrun & _).
  exists st. split; [exact Hrun|].
  unfold process_driver_data_run in Hrun. rewrite progress_zero in Hrun.
  cbn [mbind result_bind] in Hrun.
  apply driver_loop_warnings in Hrun.
  - rewrite Hrun. unfold enumerate. rewrite enumerate_from_snd. reflexivity.
  - eapply Forall_impl; [apply (enumerate_from_bound drivers 0)|].
    intros item. simpl. lia.
Qed.

(** ** The mapping and the combined series *)

Lemma elem_of_driver_series (ses : Session) (d : string) (s : Tel.t) :
  s ∈ concat (driver_blocks ses d)
  <-> exists series, driver_series ses d = Some series /\ s ∈ series.
Proof.
  unfold driver_series.
  destruct (driver_blocks ses d) as [|block blocks] eqn:E.
  - simpl. split.
    + intros H. apply elem_of_nil in H. contradiction.
    + intros (series & H & _). discriminate.
  - split.
    + intros H. eexists. split; [reflexivity | exact H].
    + intros (series & [= <-] & H). exact H.
Qed.

Lemma elem_of_concat_flat_map {A B : Type} (f : A -> list (list B))
    (l : list A) (b : B) :
  b ∈ concat (flat_map f l) <-> exists a, a ∈ l /\ b ∈ concat (f a).
Proof.
  induction l as [|a l IH]; simpl.
  - split.
    + intros H. apply elem_of_nil in H. contradiction.
    + intros (a & H & _). apply elem_of_nil in H. contradiction.
  - rewrite concat_app, elem_of_app, IH. split.
    + intros [H|(a' & Ha' & H)].
      * exists a. split; [apply list_elem_of_here | exact H].
      * exists a'. split; [apply list_elem_of_further; exact Ha' | exact H].
    + intros (a' & Ha' & H). apply elem_of_cons in Ha' as [->|Ha'].
      * left. exact H.
      * right. eauto.
Qed.

(** The combined series holds exactly the rows of the entries of the
    mapping, and the mapping is empty exactly when the combined series
    is. *)
Theorem process_driver_data_combined (ses : Session) (drivers : list string)
    (dd : gmap string (list Tel.t)) (all : list Tel.t) :
  process_driver_data_body ses drivers = Ok (dd, all) ->
  (forall s, s ∈ all <-> exists d series, dd !! d = Some series /\ s ∈ series)
  /\ (dd = ∅ <-> all = []).
Proof.
  destruct (process_driver_data_run_spec ses drivers)
    as (st & Hrun & Hentry & Hall).
  unfold process_driver_data_body. rewrite Hrun. cbn [mbind result_bind].
  destruct (df_empty (all_laps_telemetry st)) eqn:Eall; intros [= <- <-].
  - split; [|split; reflexivity].
    intros s. split.
    + intros H. apply elem_of_nil in H. contradiction.
    + intros (d & series & H & _). rewrite lookup_empty in H. discriminate.
  - assert (forall s, s ∈ concat (all_laps_telemetry st)
                      <-> exists d series,
                            driver_data st !! d = Some series /\ s ∈ series)
      as Hrows.
    { intros s. rewrite Hall, elem_of_concat_flat_map. split.
      - intros (d & Hd & Hs). apply elem_of_driver_series in Hs
          as (series & Hseries & Hs).
        exists d, series. split; [|exact Hs].
        rewrite Hentry, bool_decide_eq_true_2 by exact Hd. exact Hseries.
      - intros (d & series & Hlookup & Hs). rewrite Hentry in Hlookup.
        destruct (bool_decide (d ∈ drivers)) eqn:Ed; [|discriminate].
        apply bool_decide_eq_true_1 in Ed. exists d. split; [exact Ed|].
        apply elem_of_driver_series. eauto. }
    split; [exact Hrows|].
    assert (exists s, s ∈ concat (all_laps_telemetry st)) as [s Hs].
    { rewrite Hall.
      destruct (all_laps_telemetry st) as [|block blocks] eqn:E;
        [discriminate|].
      assert (block ∈ flat_map (driver_blocks ses) drivers) as Hblock.
      { rewrite <- Hall. apply list_elem_of_here. }
      apply list_elem_of_In, in_flat_map in Hblock as (d & _ & Hblock).
      pose proof (driver_blocks_nonempty ses d) as Hne.
      rewrite Forall_forall in Hne.
      specialize (Hne block (proj2 (list_elem_of_In _ _) Hblock)).
      destruct block as [|s0 block]; [congruence|].
      exists s0. rewrite <- Hall. simpl. apply list_elem_of_here. }
    split.
    + intros Hempty. apply Hrows in Hs as (d & series & Hlookup & _).
      rewrite Hempty, lookup_empty in Hlookup. discriminate.
    + intros Hnil. rewrite Hnil in Hs. apply elem_of_nil in Hs.
      contradiction.
Qed.

(** The mapping depends only on which drivers are listed, not on their
    order or on repetitions. *)
Theorem process_driver_data_same_drivers (ses : Session)
    (drivers1 drivers2 : list string)
    (dd1 dd2 : gmap string (list Tel.t)) (all1 all2 : list Tel.t) :
  (forall d, d ∈ drivers1 <-> d ∈ drivers2) ->
  process_driver_data_body ses drivers1 = Ok (dd1, all1) ->
  process_driver_data_body ses drivers2 = Ok (dd2, all2) ->
  dd1 = dd2.
Proof.
  intros Hsame H1 H2. apply map_eq. intros d.
  destruct (dd1 !! d) as [series1|] eqn:E1.
  - pose proof (process_driver_data_entry _ _ _ _ _ _ H1 E1) as Hs.
    destruct (process_driver_data_run_spec ses drivers1)
      as (st1 & Hrun1 & Hentry1 & _).
    destruct (process_driver_data_run_spec ses drivers2)
      as (st2 & Hrun2 & Hentry2 & Hall2).
    unfold process_driver_data_body in H1, H2.
    rewrite Hrun1 in H1. rewrite Hrun2 in H2.
    cbn [mbind result_bind] in H1, H2.
    assert (d ∈ drivers1) as Hd.
    { destruct (df_empty (all_laps_telemetry st1)); injection H1 as <- <-.
      - rewrite lookup_empty in E1. discriminate.
      - rewrite Hentry1 in E1.
        destruct (bool_decide (d ∈ drivers1)) eqn:Ed; [|discriminate].
        apply bool_decide_eq_true_1 in Ed. exact Ed. }
    apply Hsame in Hd.
    destruct (df_empty (all_laps_telemetry st2)) eqn:E2;
      injection H2 as <- <-.
    + exfalso. rewrite Hall2 in E2.
      assert (driver_blocks ses d = []) as Hnil.
      { apply (flat_map_nil_inv _ drivers2); [|exact Hd].
        destruct (flat_map _ _); [reflexivity | discriminate]. }
      unfold driver_series in Hs. rewrite Hnil in Hs. discriminate.
    + rewrite Hentry2, bool_decide_eq_true_2 by exact Hd. symmetry. exact Hs.
  - destruct (dd2 !! d) as [series2|] eqn:E2; [|reflexivity].
    exfalso.
    pose proof (process_driver_data_entry _ _ _ _ _ _ H2 E2) as Hs.
    destruct (process_driver_data_run_spec ses drivers1)
      as (st1 & Hrun1 & Hentry1 & Hall1).
    destruct (process_driver_data_run_spec ses drivers2)
      as (st2 & Hrun2 & Hentry2 & _).
    unfold process_driver_data_body in H1, H2.
    rewrite Hrun1 in H1. rewrite Hrun2 in H2.
    cbn [mbind result_bind] in H1, H2.
    assert (d ∈ drivers2) as Hd.
    { destruct (df_empty (all_laps_telemetry st2)); injection H2 as <- <-.
      - rewrite lookup_empty in E2. discriminate.
      - rewrite Hentry2 in E2.
        destruct (bool_decide (d ∈ drivers2)) eqn:Ed; [|discriminate].
        apply bool_decide_eq_true_1 in Ed. exact Ed. }
    apply Hsame in Hd.
    destruct (df_empty (all_laps_telemetry st1)) eqn:Eall;
      injection H1 as <- <-.
    + rewrite Hall1 in Eall.
      assert (driver_blocks ses d = []) as Hnil.
      { apply (flat_map_nil_inv _ drivers1); [|exact Hd].
        destruct (flat_map _ _); [reflexivity | discriminate]. }
      unfold driver_series in Hs. rewrite Hnil in Hs. discriminate.
    + rewrite Hentry1, bool_decide_eq_true_2 in E1 by exact Hd. congruence.
Qed.

(** ** The track map and its marker *)

Lemma find_unique_label {A : Type} (frame : list (nat * A)) (i : nat)
    (r : nat * A) :
  NoDup (List.map fst frame) -> frame !! i = Some r ->
  List.find (fun r' => Nat.eqb (fst r') (fst r)) frame = Some r.
Proof.
  revert i. induction frame as [|a frame IH]; intros i Hnd Hi;
    [discriminate|].
  simpl in Hnd. apply NoDup_cons in Hnd as [Ha Hnd].
  destruct i as [|i]; simpl in Hi.
  - injection Hi as ->. simpl. rewrite Nat.eqb_refl. reflexivity.
  - simpl. destruct (Nat.eqb_spec (fst a) (fst r)) as [Heq|_].
    + exfalso. apply Ha. rewrite Heq. apply list_elem_of_In, in_map.
      apply list_elem_of_In. eapply list_elem_of_lookup_2. exact Hi.
    + apply (IH i); assumption.
Qed.

Lemma selected_reference_lookup (dd : gmap string (list Tel.t))
    (first : string) (others : list string) (series : list Tel.t) :
  dd !! first = Some series ->
  selected_reference dd (first :: others) = reference_trace series.
Proof. intros H. unfold selected_reference. rewrite H. reflexivity. Qed.

(** The row chosen for the marker is a row of the reference trace, and
    one is chosen exactly when the reference trace is not empty. *)
Lemma marker_row_spec (dd : gmap string (list Tel.t)) (sel : list string)
    (d : Q) :
  match marker_row dd sel d with
  | Some s => s ∈ selected_reference dd sel
  | None => selected_reference dd sel = []
  end.
Proof.
  unfold marker_row, selected_reference.
  destruct sel as [|first others]; [reflexivity|].
  destruct (dd !! first) as [series|]; [|reflexivity].
  unfold reference_trace. cbv zeta.
  pose proof (track_frame_labels series) as Hlabels.
  set (frame := track_frame series) in *.
  set (f := fun r : nat * Tel.t => (fst r, Qabs (Tel.Distance (snd r) - d))).
  destruct frame as [|r0 track] eqn:Eframe; [reflexivity|].
  rewrite <- Eframe in *.
  destruct (idxmin_spec (List.map f frame))
    as (i & p & Hi & Hres & _ & _).
  { rewrite Eframe. discriminate. }
  rewrite Hres. rewrite lookup_map in Hi.
  destruct (frame !! i) as [r|] eqn:Hr; [|discriminate].
  injection Hi as <-. cbn [fst f].
  rewrite (find_unique_label frame i r Hlabels Hr). cbn [fmap option_fmap option_map].
  apply list_elem_of_In, in_map. apply list_elem_of_In.
  eapply list_elem_of_lookup_2. exact Hr.
Qed.

Lemma update_track_marker_place (fig : Figure.t)
    (dd : gmap string (list Tel.t)) (sel : list string) (d : Q) :
  update_track_marker fig dd sel d = Ok (place_marker (marker_row dd sel d) fig).
Proof.
  unfold update_track_marker, marker_row, contains, dict_getitem.
  destruct sel as [|first others]; [reflexivity|].
  destruct (dd !! first) as [series|]; [|reflexivity].
  cbn [negb mbind result_bind]. cbv zeta.
  pose proof (track_frame_labels series) as Hlabels.
  set (frame := track_frame series) in *.
  set (f := fun r : nat * Tel.t => (fst r, Qabs (Tel.Distance (snd r) - d))).
  destruct frame as [|r0 track] eqn:Eframe; [reflexivity|].
  rewrite <- Eframe in *.
  assert (df_empty frame = false) as -> by (rewrite Eframe; reflexivity).
  destruct (idxmin_spec (List.map f frame))
    as (i & p & Hi & Hres & _ & _).
  { rewrite Eframe. discriminate. }
  rewrite Hres. rewrite lookup_map in Hi.
  destruct (frame !! i) as [r|] eqn:Hr; [|discriminate].
  injection Hi as <-. cbn [fst f mbind result_bind].
  rewrite !(loc_at_unique_label frame i r) by assumption.
  cbn [mbind result_bind].
  rewrite (find_unique_label frame i r Hlabels Hr).
  cbn [fmap option_fmap option_map place_marker].
  destruct (Nat.ltb 1 (length (Figure.data fig))); reflexivity.
Qed.

(** [update_track_marker] returns for every figure, mapping, selection and
    distance (neither [idxmin] nor the label lookups can raise), and it
    changes nothing but the x, y and hover text of the trace at index 1:
    the layout, the number of traces, every other trace, and the mode,
    name, style and legend settings of the marker stay as they were. *)
Theorem update_track_marker_frame (fig : Figure.t)
    (dd : gmap string (list Tel.t)) (sel : list string) (d : Q) :
  exists fig',
    update_track_marker fig dd sel d = Ok fig'
    /\ Figure.layout fig' = Figure.layout fig
    /\ Figure.vlines fig' = Figure.vlines fig
    /\ length (Figure.data fig') = length (Figure.data fig)
    /\ (forall i, i <> 1%nat ->
          Figure.data fig' !! i = Figure.data fig !! i)
    /\ (forall m m',
          Figure.data fig !! 1%nat = Some m ->
          Figure.data fig' !! 1%nat = Some m' ->
          Trace.mode m' = Trace.mode m /\ Trace.name m' = Trace.name m
          /\ Trace.style m' = Trace.style m
          /\ Trace.legendgroup m' = Trace.legendgroup m
          /\ Trace.showlegend m' = Trace.showlegend m
          /\ Trace.row m' = Trace.row m).
Proof.
  eexists. split; [apply update_track_marker_place|].
  unfold place_marker.
  destruct (marker_row dd sel d) as [s|].
  2: { repeat split; try reflexivity; congruence. }
  destruct (Nat.ltb 1 (length (Figure.data fig))).
  2: { repeat split; try reflexivity; congruence. }
  cbn [Figure.layout Figure.vlines Figure.data].
  split; [reflexivity|]. split; [reflexivity|].
  split; [apply length_alter|]. split.
  - intros i Hi. apply list_lookup_alter_ne. congruence.
  - intros m m' Hm Hm'. rewrite list_lookup_alter_eq, Hm in Hm'.
    injection Hm' as <-. repeat split; reflexivity.
Qed.

Lemma place_marker_twice (r1 r2 : option Tel.t) (fig : Figure.t) :
  (r2 = None -> r1 = None) ->
  place_marker r2 (place_marker r1 fig) = place_marker r2 fig.
Proof.
  intros Hnone. destruct r2 as [s2|].
  2: { rewrite (Hnone eq_refl). reflexivity. }
  destruct r1 as [s1|]; [|reflexivity].
  unfold place_marker.
  destruct (Nat.ltb 1 (length (Figure.data fig))) eqn:Elen;
    [|rewrite Elen; reflexivity].
  cbn [Figure.data Figure.vlines Figure.layout].
  rewrite length_alter, Elen. f_equal.
  rewrite list_alter_alter_eq. apply list_alter_ext; [|reflexivity].
  intros tr _. reflexivity.
Qed.

(** The marker position depends on the last query only: a second call
    gives the figure that a single call with the second distance gives.
    In particular repeating a call changes nothing. *)
Theorem update_track_marker_last_query (fig fig1 fig2 : Figure.t)
    (dd : gmap string (list Tel.t)) (sel : list string) (d1 d2 : Q) :
  update_track_marker fig dd sel d1 = Ok fig1 ->
  update_track_marker fig1 dd sel d2 = Ok fig2 ->
  update_track_marker fig dd sel d2 = Ok fig2.
Proof.
  rewrite !update_track_marker_place. intros [= <-] [= <-]. f_equal.
  symmetry. apply place_marker_twice.
  intros H2. pose proof (marker_row_spec dd sel d1) as H1.
  pose proof (marker_row_spec dd sel d2) as H2'. rewrite H2 in H2'.
  destruct (marker_row dd sel d1) as [s|]; [|reflexivity].
  rewrite H2' in H1. apply elem_of_nil in H1. contradiction.
Qed.

Lemma create_track_plot_eq (dd : gmap string (list Tel.t))
    (sel : list string) (height : Z) :
  create_track_plot dd sel height
  = Ok match selected_reference dd sel with
       | [] => empty_figure
       | r0 :: rest => track_figure (r0 :: rest) r0 height
       end.
Proof.
  unfold create_track_plot, selected_reference, contains, dict_getitem.
  destruct sel as [|first others]; [reflexivity|].
  destruct (dd !! first) as [series|]; [|reflexivity].
  cbn [negb mbind result_bind]. unfold reference_trace.
  destruct (track_frame series) as [|r0 track]; [reflexivity|].
  unfold track_figure, add_trace, column. simpl.
  rewrite !map_map. reflexivity.
Qed.


(** On the figure that [create_track_plot] builds, [update_track_marker]
    puts the marker on a point of the drawn outline, whatever the queried
    distance. *)
Theorem marker_stays_on_outline (dd : gmap string (list Tel.t))
    (sel : list string) (height : Z) (d : Q) (fig fig' : Figure.t) :
  create_track_plot dd sel height = Ok fig ->
  update_track_marker fig dd sel d = Ok fig' ->
  fig' = empty_figure
  \/ exists outline marker i mx my,
       Figure.data fig' = [outline; marker]
       /\ Trace.x marker = [mx] /\ Trace.y marker = [my]
       /\ Trace.x outline !! i = Some mx /\ Trace.y outline !! i = Some my.
Proof.
  rewrite create_track_plot_eq, update_track_marker_place.
  intros [= <-] [= <-].
  pose proof (marker_row_spec dd sel d) as Hrow.
  destruct (marker_row dd sel d) as [s|].
  - right. destruct (selected_reference dd sel) as [|r0 rest] eqn:Eref.
    { apply elem_of_nil in Hrow. contradiction. }
    apply list_elem_of_lookup_1 in Hrow as [i Hi].
    do 2 eexists. exists i, (Tel.X s), (Tel.Y s).
    cbn [place_marker track_figure Figure.data length Nat.ltb Nat.leb].
    split; [reflexivity|].
    cbn [move_marker Trace.x Trace.y].
    split; [reflexivity|]. split; [reflexivity|].
    unfold column. rewrite !lookup_map, Hi. split; reflexivity.
  - left. rewrite Hrow. reflexivity.
Qed.

(** ** The comparison figure *)

Lemma fold_left_add_trace {A : Type} (g : A -> Trace.t) (l : list A)
    (fig : Figure.t) :
  fold_left (fun f a => add_trace f (g a)) l fig
  = {| Figure.data := Figure.data fig ++ List.map g l;
       Figure.vlines := Figure.vlines fig;
       Figure.layout := Figure.layout fig |}.
Proof.
  revert fig. induction l as [|a l IH]; intros fig; simpl.
  - rewrite app_nil_r. destruct fig; reflexivity.
  - rewrite IH. unfold add_trace. cbn [Figure.data Figure.vlines Figure.layout].
    rewrite <- app_assoc. reflexivity.
Qed.

Lemma fold_left_add_vline (dist : Q) (l : list nat) (fig : Figure.t) :
  fold_left (add_vline dist) l fig
  = {| Figure.data := Figure.data fig;
       Figure.vlines :=
         Figure.vlines fig
           ++ List.map (fun i => {| VLine.x := dist; VLine.annotation := dist;
                                    VLine.row := S i |}) l;
       Figure.layout := Figure.layout fig |}.
Proof.
  revert fig. induction l as [|a l IH]; intros fig; simpl.
  - rewrite app_nil_r. destruct fig; reflexivity.
  - rewrite IH. unfold add_vline. cbn [Figure.data Figure.vlines Figure.layout].
    rewrite <- app_assoc. reflexivity.
Qed.

Lemma plot_driver_eq (dd : gmap string (list Tel.t))
    (colors : gmap string string) (lap : Z) (dist : Q) (fig : Figure.t)
    (d : string) :
  plot_driver dd colors lap dist fig d
  = Ok {| Figure.data := Figure.data fig ++ plotted_traces dd colors lap d;
          Figure.vlines := Figure.vlines fig ++ plotted_vlines dd lap dist d;
          Figure.layout := Figure.layout fig |}.
Proof.
  unfold plot_driver, plotted_traces, plotted_vlines, driver_lap_rows,
    contains, dict_getitem, lap_rows.
  assert (fig = {| Figure.data := Figure.data fig ++ [];
                   Figure.vlines := Figure.vlines fig ++ [];
                   Figure.layout := Figure.layout fig |}) as Hsame.
  { rewrite !app_nil_r. destruct fig; reflexivity. }
  destruct (dd !! d) as [df|]; cbn [negb mbind result_bind];
    [|f_equal; exact Hsame].
  unfold eq_col, column. rewrite map_map.
  rewrite (loc_mask_map (fun s => Z.eqb (Tel.LapNumber s) lap)).
  destruct (df_empty df) eqn:Edf.
  { destruct df; [|discriminate]. simpl. f_equal. exact Hsame. }
  destruct (List.filter _ df) as [|r rows] eqn:Erows;
    [simpl; f_equal; exact Hsame|].
  cbn [df_empty].
  rewrite (fold_left_add_trace
             (fun im => metric_trace colors d (sort_values (r :: rows))
                          (fst im) (snd im))).
  rewrite fold_left_add_vline. reflexivity.
Qed.

Lemma plot_drivers_eq (dd : gmap string (list Tel.t))
    (colors : gmap string string) (lap : Z) (dist : Q)
    (drivers : list string) (fig : Figure.t) :
  plot_drivers dd colors lap dist drivers fig
  = Ok {| Figure.data :=
            Figure.data fig ++ flat_map (plotted_traces dd colors lap) drivers;
          Figure.vlines :=
            Figure.vlines fig ++ flat_map (plotted_vlines dd lap dist) drivers;
          Figure.layout := Figure.layout fig |}.
Proof.
  revert fig. induction drivers as [|d rest IH]; intros fig.
  - simpl. rewrite !app_nil_r. destruct fig; reflexivity.
  - cbn [plot_drivers]. rewrite plot_driver_eq. cbn [mbind result_bind].
    rewrite IH. cbn [Figure.data Figure.vlines Figure.layout flat_map].
    rewrite <- !app_assoc. reflexivity.
Qed.

(** What [create_telemetry_plots] returns for two or more drivers. *)
Lemma create_telemetry_plots_eq (dd : gmap string (list Tel.t))
    (d0 d1 : string) (rest : list string) (lap : Z) (dist : Q) :
  let colors : gmap string string :=
    <[d1 := "#FF6B35"]> (<[d0 := "#00D4FF"]> ∅) in
  create_telemetry_plots dd (d0 :: d1 :: rest) lap dist
  = Ok (telemetry_layout lap
          {| Figure.data :=
               flat_map (plotted_traces dd colors lap) (d0 :: d1 :: rest);
             Figure.vlines :=
               flat_map (plotted_vlines dd lap dist) (d0 :: d1 :: rest);
             Figure.layout :=
               Figure.layout (make_subplots num_metrics metric_titles) |}).
Proof.
  cbv zeta. unfold create_telemetry_plots, driver_colors, list_getitem.
  cbn [lookup list_lookup mbind result_bind length Nat.ltb Nat.leb].
  rewrite plot_drivers_eq. cbn [mbind result_bind]. reflexivity.
Qed.

Lemma length_driver_traces (colors : gmap string string) (d : string)
    (rows : list Tel.t) :
  length (driver_traces colors d rows) = 6%nat.
Proof. reflexivity. Qed.

Lemma length_flat_map_plotted {A : Type} (f : string -> list A)
    (has : string -> bool) (drivers : list string) :
  (forall d, length (f d) = if has d then 6%nat else 0%nat) ->
  length (flat_map f drivers)
  = (6 * length (List.filter has drivers))%nat.
Proof.
  intros Hlen. induction drivers as [|d rest IH]; [reflexivity|].
  cbn [flat_map List.filter]. rewrite length_app, IH, Hlen.
  destruct (has d); simpl; lia.
Qed.

(** For two or more selected drivers the comparison figure has six traces
    and six reference lines for every listed driver that has rows at the
    selected lap, and nothing for the others: one trace per subplot row
    1 to 6, the legend shown on row 1 only, every reference line at the
    selected distance. *)
Theorem create_telemetry_plots_counts (dd : gmap string (list Tel.t))
    (d0 d1 : string) (rest : list string) (lap : Z) (dist : Q) :
  exists fig,
    create_telemetry_plots dd (d0 :: d1 :: rest) lap dist = Ok fig
    /\ length (Figure.data fig)
       = (6 * length (List.filter (has_lap_rows dd lap) (d0 :: d1 :: rest)))%nat
    /\ length (Figure.vlines fig) = length (Figure.data fig)
    /\ (forall tr, tr ∈ Figure.data fig ->
          (1 <= Trace.row tr <= 6)%nat
          /\ Trace.showlegend tr = Nat.eqb (Trace.row tr) 1)
    /\ (forall v, v ∈ Figure.vlines fig ->
          VLine.x v = dist /\ (1 <= VLine.row v <= 6)%nat).
Proof.
  eexists. split; [apply create_telemetry_plots_eq|].
  cbn [telemetry_layout Figure.data Figure.vlines].
  set (colors := <[d1 := "#FF6B35"]> (<[d0 := "#00D4FF"]> ∅)
                 : gmap string string).
  assert (length (flat_map (plotted_traces dd colors lap) (d0 :: d1 :: rest))
          = (6 * length (List.filter (has_lap_rows dd lap)
                           (d0 :: d1 :: rest)))%nat) as Htraces.
  { apply length_flat_map_plotted. intros d.
    unfold plotted_traces, has_lap_rows.
    destruct (driver_lap_rows dd lap d); reflexivity. }
  split; [exact Htraces|]. split; [|split].
  - rewrite Htraces. apply length_flat_map_plotted. intros d.
    unfold plotted_vlines, has_lap_rows.
    destruct (driver_lap_rows dd lap d); reflexivity.
  - intros tr Htr. apply list_elem_of_In, in_flat_map in Htr as (d & _ & Htr).
    unfold plotted_traces in Htr.
    destruct (driver_lap_rows dd lap d) as [|r rows]; [contradiction|].
    unfold driver_traces, enumerate in Htr. simpl in Htr.
    repeat (destruct Htr as [<-|Htr]; [simpl; split; [lia | reflexivity]|]).
    contradiction.
  - intros v Hv. apply list_elem_of_In, in_flat_map in Hv as (d & _ & Hv).
    unfold plotted_vlines in Hv.
    destruct (driver_lap_rows dd lap d) as [|r rows]; [contradiction|].
    unfold driver_vlines in Hv. simpl in Hv.
    repeat (destruct Hv as [<-|Hv]; [simpl; split; [reflexivity | lia]|]).
    contradiction.
Qed.

(** ** [sort_values] *)

Lemma insert_by_distance_perm (s : Tel.t) (sorted : list Tel.t) :
  Permutation (insert_by_distance s sorted) (s :: sorted).
Proof.
  induction sorted as [|t rest IH]; simpl; [reflexivity|].
  destruct (Qle_bool (Tel.Distance s) (Tel.Distance t)); [reflexivity|].
  rewrite IH. apply perm_swap.
Qed.

Lemma sort_values_perm (df : list Tel.t) : Permutation (sort_values df) df.
Proof.
  induction df as [|s df IH]; simpl; [reflexivity|].
  rewrite insert_by_distance_perm, IH. reflexivity.
Qed.

Lemma insert_by_distance_sorted (s : Tel.t) (sorted : list Tel.t) :
  StronglySorted (fun a b => (Tel.Distance a <= Tel.Distance b)%Q) sorted ->
  StronglySorted (fun a b => (Tel.Distance a <= Tel.Distance b)%Q)
    (insert_by_distance s sorted).
Proof.
  induction 1 as [|t rest Hsorted IH Hall]; simpl.
  - repeat constructor.
  - destruct (Qle_bool (Tel.Distance s) (Tel.Distance t)) eqn:Hcmp.
    + apply Qle_bool_iff in Hcmp. constructor.
      * constructor; assumption.
      * constructor; [exact Hcmp|].
        eapply Forall_impl; [exact Hall|].
        intros u Hu. simpl in Hu. eapply Qle_trans; eassumption.
    + assert (Tel.Distance t <= Tel.Distance s)%Q as Hts.
      { apply Qlt_le_weak, Qnot_le_lt. intros Hle.
        apply Qle_bool_iff in Hle. congruence. }
      constructor; [exact IH|].
      rewrite insert_by_distance_perm. constructor; assumption.
Qed.

Lemma sort_values_sorted (df : list Tel.t) :
  StronglySorted (fun a b => (Tel.Distance a <= Tel.Distance b)%Q)
    (sort_values df).
Proof.
  induction df as [|s df IH]; simpl; [constructor|].
  apply insert_by_distance_sorted. exact IH.
Qed.

Lemma StronglySorted_map_distance (l : list Tel.t) :
  StronglySorted (fun a b => (Tel.Distance a <= Tel.Distance b)%Q) l ->
  StronglySorted Qle (List.map Tel.Distance l).
Proof.
  induction 1 as [|t rest Hsorted IH Hall]; simpl; constructor;
    [exact IH|].
  apply Forall_forall. intros v Hv.
  apply list_elem_of_In, in_map_iff in Hv as (u & <- & Hu).
  apply (proj1 (Forall_forall _ _) Hall), list_elem_of_In. exact Hu.
Qed.

Lemma elem_of_plotted_traces (dd : gmap string (list Tel.t))
    (colors : gmap string string) (lap : Z) (drivers : list string)
    (tr : Trace.t) :
  tr ∈ flat_map (plotted_traces dd colors lap) drivers ->
  exists d i metric,
    d ∈ drivers /\ driver_lap_rows dd lap d <> []
    /\ tr = metric_trace colors d (sort_values (driver_lap_rows dd lap d))
              i metric.
Proof.
  intros Htr. apply list_elem_of_In, in_flat_map in Htr as (d & Hd & Htr).
  unfold plotted_traces in Htr.
  destruct (driver_lap_rows dd lap d) as [|r rows] eqn:Erows; [contradiction|].
  unfold driver_traces in Htr. apply in_map_iff in Htr as ([i metric] & <- & _).
  exists d, i, metric. split; [apply list_elem_of_In; exact Hd|].
  rewrite Erows. split; [discriminate | reflexivity].
Qed.

Lemma create_telemetry_plots_data (dd : gmap string (list Tel.t))
    (d0 d1 : string) (rest : list string) (lap : Z) (dist : Q)
    (fig : Figure.t) :
  create_telemetry_plots dd (d0 :: d1 :: rest) lap dist = Ok fig ->
  Figure.data fig
  = flat_map
      (plotted_traces dd (<[d1 := "#FF6B35"]> (<[d0 := "#00D4FF"]> ∅)) lap)
      (d0 :: d1 :: rest).
Proof.
  rewrite create_telemetry_plots_eq. intros H. injection H as <-.
  reflexivity.
Qed.

(** In the comparison figure every trace belongs to a listed driver with
    rows at the lap; its x values are the distances of those rows in
    non-decreasing order, none lost and none repeated, and it has one y
    value per x value. *)
Theorem create_telemetry_plots_sorted (dd : gmap string (list Tel.t))
    (d0 d1 : string) (rest : list string) (lap : Z) (dist : Q)
    (fig : Figure.t) :
  create_telemetry_plots dd (d0 :: d1 :: rest) lap dist = Ok fig ->
  forall tr, tr ∈ Figure.data fig ->
    exists d,
      d ∈ d0 :: d1 :: rest /\ Trace.name tr = d
      /\ StronglySorted Qle (Trace.x tr)
      /\ Permutation (Trace.x tr)
           (column Tel.Distance (driver_lap_rows dd lap d))
      /\ length (Trace.y tr) = length (Trace.x tr).
Proof.
  intros Hfig tr Htr. rewrite (create_telemetry_plots_data _ _ _ _ _ _ _ Hfig) in Htr.
  apply elem_of_plotted_traces in Htr as (d & i & metric & Hd & _ & ->).
  exists d. split; [exact Hd|]. split; [reflexivity|].
  cbn [metric_trace Trace.x Trace.y]. unfold column. split; [|split].
  - apply StronglySorted_map_distance, sort_values_sorted.
  - apply Permutation_map, sort_values_perm.
  - rewrite !List.length_map. reflexivity.
Qed.

(** The line colours of the comparison figure: the second listed driver is
    orange, the first is cyan unless it is also the second, and every
    further driver is white. *)
Theorem create_telemetry_plots_colours (dd : gmap string (list Tel.t))
    (d0 d1 : string) (rest : list string) (lap : Z) (dist : Q)
    (fig : Figure.t) :
  create_telemetry_plots dd (d0 :: d1 :: rest) lap dist = Ok fig ->
  forall tr, tr ∈ Figure.data fig ->
    Trace.style tr
    = Line (if String.eqb (Trace.name tr) d1 then "#FF6B35"
            else if String.eqb (Trace.name tr) d0 then "#00D4FF"
            else "white") 2.
Proof.
  intros Hfig tr Htr. rewrite (create_telemetry_plots_data _ _ _ _ _ _ _ Hfig) in Htr.
  apply elem_of_plotted_traces in Htr as (d & i & metric & _ & _ & ->).
  cbn [metric_trace Trace.style Trace.name]. f_equal.
  destruct (String.eqb_spec d d1) as [->|Hd1].
  - rewrite lookup_insert_eq. reflexivity.
  - rewrite lookup_insert_ne by congruence.
    destruct (String.eqb_spec d d0) as [->|Hd0].
    + rewrite lookup_insert_eq. reflexivity.
    + rewrite lookup_insert_ne by congruence. rewrite lookup_empty.
      reflexivity.
Qed.

(** ** Bounds on the lap statistics *)

Lemma inject_Z_nat_nonneg (n : nat) : (0 <= inject_Z (Z.of_nat n))%Q.
Proof. rewrite <- (Zle_Qle 0). lia. Qed.

Lemma drs_usage_bounds (first : Tel.t) (others : list Tel.t) :
  (0 <= Stats.drs_usage (lap_stats first others) <= 100)%Q.
Proof.
  unfold lap_stats. cbn [Stats.drs_usage].
  set (col := column Tel.DRS (first :: others)).
  assert (length col = length (first :: others)) as Hlen
    by (unfold col, column; apply List.length_map).
  rewrite <- Hlen.
  assert (count_positive col <= length col)%nat as Hcount
    by (unfold count_positive; apply List.filter_length_le).
  assert (0 < length col)%nat as Hn by (rewrite Hlen; simpl; lia).
  assert (0 < inject_Z (Z.of_nat (length col)))%Q as Hpos.
  { rewrite <- (Zlt_Qlt 0). lia. }
  assert (0 <= inject_Z (Z.of_nat (count_positive col))
               / inject_Z (Z.of_nat (length col)))%Q as Hlo.
  { apply Qle_shift_div_l; [exact Hpos|]. rewrite Qmult_0_l.
    apply inject_Z_nat_nonneg. }
  assert (inject_Z (Z.of_nat (count_positive col))
          / inject_Z (Z.of_nat (length col)) <= 1)%Q as Hhi.
  { apply Qle_shift_div_r; [exact Hpos|]. rewrite Qmult_1_l.
    rewrite <- Zle_Qle. lia. }
  split; lra.
Qed.

Lemma filter_length_none {A : Type} (p : A -> bool) (l : list A) :
  length (List.filter p l) = 0%nat <-> forall a, a ∈ l -> p a = false.
Proof.
  split.
  - intros Hlen a Ha. apply length_zero_iff_nil in Hlen.
    destruct (p a) eqn:Hp; [|reflexivity].
    assert (In a (List.filter p l)) as Hin.
    { apply filter_In. split; [apply list_elem_of_In; exact Ha | exact Hp]. }
    rewrite Hlen in Hin. destruct Hin.
  - intros Hall. rewrite (filter_none p l Hall). reflexivity.
Qed.

Lemma filter_length_all {A : Type} (p : A -> bool) (l : list A) :
  length (List.filter p l) = length l <-> forall a, a ∈ l -> p a = true.
Proof.
  split.
  - induction l as [|b l IH]; intros Hlen a Ha.
    + apply elem_of_nil in Ha. contradiction.
    + pose proof (List.filter_length_le p l) as Hle. simpl in Hlen.
      destruct (p b) eqn:Hb; simpl in Hlen; [|lia].
      apply elem_of_cons in Ha as [->|Ha]; [exact Hb|].
      apply IH; [lia | exact Ha].
  - intros Hall. rewrite (filter_all p l Hall). reflexivity.
Qed.

(** The share [k / n * 100] with [n] positive is 0 exactly for [k = 0]
    and 100 exactly for [k = n]. *)
Lemma share_extremes (k n : nat) :
  (0 < n)%nat ->
  ((inject_Z (Z.of_nat k) / inject_Z (Z.of_nat n) * 100 == 0)%Q
   <-> k = 0%nat)
  /\ ((inject_Z (Z.of_nat k) / inject_Z (Z.of_nat n) * 100 == 100)%Q
      <-> k = n).
Proof.
  intros Hn.
  assert (~ (inject_Z (Z.of_nat n) == 0)%Q) as Hnz.
  { intros H. unfold Qeq, inject_Z in H. cbn [Qnum Qden] in H. lia. }
  pose proof (Qmult_div_r (inject_Z (Z.of_nat k)) _ Hnz) as Hq.
  set (q := (inject_Z (Z.of_nat k) / inject_Z (Z.of_nat n))%Q) in *.
  split; split.
  - intros H. assert (q == 0)%Q as Hq0 by lra.
    rewrite Hq0, Qmult_0_r in Hq.
    unfold Qeq, inject_Z in Hq. cbn [Qnum Qden] in Hq. lia.
  - intros ->. unfold q. change (inject_Z (Z.of_nat 0)) with 0%Q.
    unfold Qdiv. rewrite Qmult_0_l. reflexivity.
  - intros H. assert (q == 1)%Q as Hq1 by lra.
    rewrite Hq1, Qmult_1_r in Hq.
    unfold Qeq, inject_Z in Hq. cbn [Qnum Qden] in Hq. lia.
  - intros ->. unfold q. unfold Qdiv. rewrite Qmult_inv_r by exact Hnz.
    reflexivity.
Qed.

(** The DRS figure of every entry of the lap statistics is a percentage:
    it lies between 0 and 100, it is 0 exactly when no row of the lap has
    DRS above zero, and 100 exactly when every row has. *)
Theorem lap_summary_stats_drs_percentage (dd : gmap string (list Tel.t))
    (selected_drivers : list string) (selected_lap : Z)
    (stats : gmap string Stats.t) (d : string) (s : Stats.t) :
  get_lap_summary_stats dd selected_drivers selected_lap = Ok stats ->
  stats !! d = Some s ->
  (0 <= Stats.drs_usage s <= 100)%Q
  /\ exists series,
       dd !! d = Some series
       /\ ((Stats.drs_usage s == 0)%Q
           <-> forall r, r ∈ series -> Tel.LapNumber r = selected_lap ->
                         (Tel.DRS r <= 0)%Q)
       /\ ((Stats.drs_usage s == 100)%Q
           <-> forall r, r ∈ series -> Tel.LapNumber r = selected_lap ->
                         (0 < Tel.DRS r)%Q).
Proof.
  intros Hrun Hs.
  destruct (stats_loop_spec dd selected_lap selected_drivers ∅)
    as (stats' & Hrun' & Hentry).
  unfold get_lap_summary_stats in Hrun. rewrite Hrun' in Hrun.
  injection Hrun as <-. rewrite Hentry in Hs. unfold stats_after in Hs.
  assert (stats_entry dd selected_lap d = Some s) as Hstat.
  { destruct (bool_decide (d ∈ selected_drivers));
      [|rewrite lookup_empty in Hs; discriminate].
    destruct (stats_entry dd selected_lap d); [exact Hs|].
    rewrite lookup_empty in Hs. discriminate. }
  unfold stats_entry in Hstat.
  destruct (dd !! d) as [series|]; [|discriminate].
  destruct (lap_rows series selected_lap) as [|first others] eqn:Hrows;
    [discriminate|].
  injection Hstat as <-. split; [apply drs_usage_bounds|].
  exists series. split; [reflexivity|].
  assert (forall r, r ∈ first :: others
                    <-> r ∈ series /\ Tel.LapNumber r = selected_lap)
    as Hmem.
  { intros r. rewrite <- Hrows. unfold lap_rows.
    rewrite !list_elem_of_In, filter_In, Z.eqb_eq. reflexivity. }
  unfold lap_stats. cbn [Stats.drs_usage].
  rewrite count_positive_column.
  destruct (share_extremes
              (length (List.filter (fun r => Qlt_bool 0 (Tel.DRS r))
                         (first :: others)))
              (length (first :: others))) as [Hzero Hfull];
    [simpl; lia|].
  rewrite Hzero, Hfull, filter_length_none, filter_length_all.
  split; split.
  - intros Hall r Hr Hlap. apply Qlt_bool_false, Hall, Hmem. tauto.
  - intros Hall r Hr. apply Hmem in Hr as [Hr Hlap].
    apply Qlt_bool_false. auto.
  - intros Hall r Hr Hlap. apply Qlt_bool_iff, Hall, Hmem. tauto.
  - intros Hall r Hr. apply Hmem in Hr as [Hr Hlap].
    apply Qlt_bool_iff. auto.
Qed.

(** ** The lap selector *)

Lemma insert_sorted_perm (v : Z) (l : list Z) :
  Permutation (insert_sorted v l) (v :: l).
Proof.
  induction l as [|w rest IH]; simpl; [reflexivity|].
  destruct (Z.leb v w); [reflexivity|]. rewrite IH. apply perm_swap.
Qed.

Lemma sorted_perm (l : list Z) : Permutation (sorted l) l.
Proof.
  induction l as [|v l IH]; simpl; [reflexivity|].
  rewrite insert_sorted_perm, IH. reflexivity.
Qed.

Lemma insert_sorted_sorted (v : Z) (l : list Z) :
  StronglySorted Z.le l -> StronglySorted Z.le (insert_sorted v l).
Proof.
  induction 1 as [|w rest Hsorted IH Hall]; simpl.
  - repeat constructor.
  - destruct (Z.leb_spec v w) as [Hle|Hgt].
    + constructor; [constructor; assumption|].
      constructor; [exact Hle|].
      eapply Forall_impl; [exact Hall|]. intros u Hu. simpl in Hu. lia.
    + constructor; [exact IH|].
      rewrite insert_sorted_perm. constructor; [lia | exact Hall].
Qed.

Lemma sorted_sorted (l : list Z) : StronglySorted Z.le (sorted l).
Proof.
  induction l as [|v l IH]; simpl; [constructor|].
  apply insert_sorted_sorted. exact IH.
Qed.

Lemma sorted_strict (l : list Z) :
  NoDup l -> StronglySorted Z.lt (sorted l).
Proof.
  intros Hnd.
  assert (NoDup (sorted l)) as Hnd' by (rewrite sorted_perm; exact Hnd).
  pose proof (sorted_sorted l) as Hs.
  induction Hs as [|w rest Hsorted IH Hall]; [constructor|].
  apply NoDup_cons in Hnd' as [Hw Hrest].
  constructor; [apply IH; exact Hrest|].
  apply Forall_forall. intros u Hu.
  pose proof (proj1 (Forall_forall _ _) Hall u Hu) as Hle. simpl in Hle.
  assert (u <> w) by (intros ->; contradiction). lia.
Qed.

Lemma available_laps_eq (dd : gmap string (list Tel.t)) (first : string)
    (others : list string) :
  available_laps dd (first :: others)
  = Ok match dd !! first with
       | Some series => sorted (unique (column Tel.LapNumber series))
       | None => []
       end.
Proof.
  unfold available_laps, list_getitem, contains, dict_getitem.
  cbn [lookup list_lookup mbind result_bind].
  destruct (dd !! first); reflexivity.
Qed.

Lemma elem_of_available_laps (dd : gmap string (list Tel.t)) (first : string)
    (others : list string) (laps : list Z) (lap : Z) :
  available_laps dd (first :: others) = Ok laps -> lap ∈ laps ->
  exists series,
    dd !! first = Some series /\ lap ∈ column Tel.LapNumber series.
Proof.
  rewrite available_laps_eq. intros [= <-] Hlap.
  destruct (dd !! first) as [series|].
  - exists series. split; [reflexivity|].
    rewrite sorted_perm in Hlap.
    apply (proj1 (elem_of_unique _ _)) in Hlap. exact Hlap.
  - apply elem_of_nil in Hlap. contradiction.
Qed.

(** The laps the page offers are strictly increasing, and for each of them
    [get_lap_summary_stats] has an entry for the first selected driver. *)
Theorem available_laps_have_stats (dd : gmap string (list Tel.t))
    (first : string) (others : list string) (laps : list Z) :
  available_laps dd (first :: others) = Ok laps ->
  StronglySorted Z.lt laps
  /\ forall lap, lap ∈ laps ->
       exists stats s,
         get_lap_summary_stats dd (first :: others) lap = Ok stats
         /\ stats !! first = Some s.
Proof.
  intros Hlaps. split.
  - rewrite available_laps_eq in Hlaps. injection Hlaps as <-.
    destruct (dd !! first); [|constructor].
    apply sorted_strict, NoDup_unique.
  - intros lap Hlap.
    destruct (elem_of_available_laps dd first others laps lap Hlaps Hlap)
      as (series & Hseries & Hin).
    destruct (stats_loop_spec dd lap (first :: others) ∅)
      as (stats & Hrun & Hentry).
    exists stats. unfold get_lap_summary_stats. rewrite Hrun.
    specialize (Hentry first). unfold stats_after in Hentry.
    rewrite bool_decide_eq_true_2 in Hentry by apply list_elem_of_here.
    unfold stats_entry in Hentry. rewrite Hseries in Hentry.
    unfold column in Hin.
    apply list_elem_of_In, in_map_iff in Hin as (r & Hr & Hin).
    assert (r ∈ lap_rows series lap) as Hrow.
    { unfold lap_rows. apply list_elem_of_In, filter_In.
      split; [exact Hin | apply Z.eqb_eq; exact Hr]. }
    destruct (lap_rows series lap) as [|r0 rows].
    { apply elem_of_nil in Hrow. contradiction. }
    eexists. split; [reflexivity | exact Hentry].
Qed.

(** The first lap the page offers, which is its default selection, is the
    lap whose rows the track map draws and the marker moves on. *)
Theorem default_lap_is_reference_lap (dd : gmap string (list Tel.t))
    (first : string) (others : list string) (lap0 : Z) (laps : list Z) :
  available_laps dd (first :: others) = Ok (lap0 :: laps) ->
  selected_reference dd (first :: others)
  = driver_lap_rows dd lap0 first
  /\ selected_reference dd (first :: others) <> [].
Proof.
  intros Hlaps.
  destruct (elem_of_available_laps dd first others _ lap0 Hlaps
              (list_elem_of_here _ _)) as (series & Hseries & Hin).
  rewrite available_laps_eq, Hseries in Hlaps. injection Hlaps as Hlaps.
  unfold selected_reference, driver_lap_rows. rewrite Hseries.
  destruct (col_min (column Tel.LapNumber series)) as [m|] eqn:Hmin.
  2: { destruct series; [|discriminate]. apply elem_of_nil in Hin.
       contradiction. }
  destruct (col_min_spec _ m Hmin) as [Hm Hle].
  assert (m = lap0) as ->.
  { pose proof (sorted_sorted (unique (column Tel.LapNumber series))) as Hs.
    rewrite Hlaps in Hs. apply StronglySorted_inv in Hs as [_ Hall].
    assert (m ∈ lap0 :: laps) as Hm'.
    { rewrite <- Hlaps, sorted_perm. apply elem_of_unique. exact Hm. }
    specialize (Hle lap0 Hin).
    apply elem_of_cons in Hm' as [Heq|Hm']; [exact Heq|].
    pose proof (proj1 (Forall_forall _ _) Hall m Hm') as Hge.
    simpl in Hge. lia. }
  rewrite (reference_trace_min series lap0 Hmin). split; [reflexivity|].
  unfold column in Hin.
  apply list_elem_of_In, in_map_iff in Hin as (r & Hr & Hin).
  intros Hnil.
  assert (In r (List.filter (fun s => Z.eqb (Tel.LapNumber s) lap0) series))
    as Hrow by (apply filter_In; split; [exact Hin | apply Z.eqb_eq; exact Hr]).
  rewrite Hnil in Hrow. contradiction.
Qed.

(** ** Events that have taken place *)

Lemma map_filter_sublist {A B : Type} (f : A -> B) (p : A -> bool)
    (l : list A) :
  sublist (List.map f (List.filter p l)) (List.map f l).
Proof.
  induction l as [|a l IH]; simpl; [constructor|].
  destruct (p a); simpl; [apply sublist_skip | apply sublist_cons]; exact IH.
Qed.

(** When the schedule request succeeds the result is a subsequence of the
    schedule's event names; when at least one event is dated on or before
    today it is exactly the names of those events, in schedule order and
    without the cut to ten names. *)
Theorem get_available_events_occurred
    (get_event_schedule : Z -> result (list Event.t)) (now year : Z)
    (schedule : list Event.t) :
  get_event_schedule year = Ok schedule ->
  sublist (get_available_events get_event_schedule now year)
    (column Event.EventName schedule)
  /\ (Exists (fun e => Event.EventDate e <= now) schedule ->
      get_available_events get_event_schedule now year
      = column Event.EventName
          (List.filter (fun e => Z.leb (Event.EventDate e) now) schedule)).
Proof.
  intros Hsched. unfold get_available_events. rewrite Hsched.
  cbn [mbind result_bind try_except]. rewrite occurred_events_spec.
  cbn [app]. unfold column. split.
  - destruct (List.map _ (List.filter _ schedule)) as [|n names] eqn:E;
      cbn [df_empty negb].
    + apply sublist_take.
    + rewrite <- E. apply map_filter_sublist.
  - intros Hex. apply Exists_exists in Hex as (e & He & Hdate).
    assert (In e (List.filter (fun e => Z.leb (Event.EventDate e) now)
                    schedule)) as Hin.
    { apply filter_In. split; [apply list_elem_of_In; exact He|].
      apply Z.leb_le. exact Hdate. }
    destruct (List.filter _ schedule) as [|e0 es]; [contradiction|].
    reflexivity.
Qed.

(** * Further properties of the resume files *)

(** ** Text read from a file *)

Lemma universal_newlines_no_cr_upto (n : nat) (s : pystr) :
  (length s <= n)%nat -> 13%N ∉ universal_newlines s.
Proof.
  revert s. induction n as [|n IH]; intros s Hlen.
  - destruct s; [apply not_elem_of_nil | simpl in Hlen; lia].
  - destruct s as [|c rest]; [apply not_elem_of_nil|].
    simpl in Hlen. cbn [universal_newlines].
    destruct (N.eqb_spec c 13) as [->|Hc].
    + destruct rest as [|d rest'].
      * intros H. apply elem_of_cons in H as [H|H]; [discriminate|].
        apply elem_of_nil in H. contradiction.
      * simpl in Hlen. destruct (N.eqb d 10).
        -- intros H. apply elem_of_cons in H as [H|H]; [discriminate|].
           revert H. apply IH. lia.
        -- intros H. apply elem_of_cons in H as [H|H]; [discriminate|].
           revert H. apply IH. simpl. lia.
    + intros H. apply elem_of_cons in H as [H|H]; [congruence|].
      revert H. apply IH. lia.
Qed.

Lemma universal_newlines_no_cr (s : pystr) : 13%N ∉ universal_newlines s.
Proof. apply (universal_newlines_no_cr_upto (length s)). lia. Qed.

(** Text read from a file in text mode never contains a carriage return,
    whatever bytes the file holds. *)
Theorem read_text_no_carriage_return (w : World) (p : Path) (s : pystr) :
  read_text w p = Ok s -> forall c, c ∈ s -> c <> 13%N.
Proof.
  unfold read_text. destruct (read_bytes w p) as [data|e]; [|discriminate].
  cbn [mbind result_bind].
  destruct (utf8_decode data) as [t|e]; [|discriminate].
  cbn [mbind result_bind]. intros [= <-] c Hc ->.
  exact (universal_newlines_no_cr t Hc).
Qed.

(** The editor loop is stable: text that was read from the source file,
    saved again unchanged and read again is the same text. *)
Theorem read_save_read_latex (env : Env) (w w' : World) (content : pystr) :
  read_text w (base_path env ++ latex_path) = Ok content ->
  save_latex_template env (Some content) w = (true, w') ->
  read_text w' (base_path env ++ latex_path) = Ok content.
Proof.
  intros Hread Hsave.
  destruct (save_latex_template_stores env content w w' Hsave)
    as (data & Henc & Hfile & _).
  unfold read_text, read_bytes. rewrite Hfile. cbn [mbind result_bind].
  rewrite (utf8_decode_encode _ _ Henc). cbn [mbind result_bind].
  rewrite universal_newlines_translate; [reflexivity|].
  intros c Hc Heq. unfold read_text in Hread.
  destruct (read_bytes w _) as [data0|e]; [|discriminate].
  cbn [mbind result_bind] in Hread.
  destruct (utf8_decode data0) as [t|e]; [|discriminate].
  cbn [mbind result_bind] in Hread. injection Hread as <-.
  subst c. exact (universal_newlines_no_cr t Hc).
Qed.

(** ** When a save succeeds *)

Lemma utf8_encode_char_ok (c : N) :
  (exists bs, utf8_encode_char c = Ok bs) <-> encodable c = true.
Proof.
  unfold utf8_encode_char, encodable, is_surrogate.
  destruct (N.ltb_spec c 0x80); [|destruct (N.ltb_spec c 0x800);
    [|destruct (N.ltb_spec c 0x10000)]].
  - assert ((c <? 0x110000)%N = true) as -> by (apply N.ltb_lt; lia).
    assert ((0xD800 <=? c)%N = false) as -> by (apply N.leb_gt; lia).
    simpl. split; eauto.
  - assert ((c <? 0x110000)%N = true) as -> by (apply N.ltb_lt; lia).
    assert ((0xD800 <=? c)%N = false) as -> by (apply N.leb_gt; lia).
    simpl. split; eauto.
  - assert ((c <? 0x110000)%N = true) as -> by (apply N.ltb_lt; lia).
    destruct ((0xD800 <=? c)%N && (c <=? 0xDFFF)%N); simpl; split;
      try eauto; try discriminate.
    intros [bs Hbs]. discriminate.
  - assert ((0xD800 <=? c)%N = true) as -> by (apply N.leb_le; lia).
    assert ((c <=? 0xDFFF)%N = false) as -> by (apply N.leb_gt; lia).
    simpl. destruct (c <? 0x110000)%N; split; try eauto; try discriminate.
    intros [bs Hbs]. discriminate.
Qed.

Lemma utf8_encode_ok (s : pystr) :
  (exists bs, utf8_encode s = Ok bs) <-> Forall (fun c => encodable c = true) s.
Proof.
  induction s as [|c s IH]; simpl.
  - split; [constructor | eauto].
  - split.
    + intros [bs Hbs].
      destruct (utf8_encode_char c) as [cs|e] eqn:Ec; [|discriminate].
      cbn [mbind result_bind] in Hbs.
      destruct (utf8_encode s) as [more|e] eqn:Es; [|discriminate].
      constructor; [apply utf8_encode_char_ok; eauto | apply IH; eauto].
    + intros Hall. inversion Hall as [|? ? Hc Hs]; subst.
      apply utf8_encode_char_ok in Hc as [cs ->].
      apply IH in Hs as [more ->]. cbn [mbind result_bind]. eauto.
Qed.

Lemma translate_on_write_encodable (p : Platform) (s : pystr) :
  Forall (fun c => encodable c = true) (translate_on_write p s)
  <-> Forall (fun c => encodable c = true) s.
Proof.
  unfold translate_on_write. induction s as [|c s IH]; simpl;
    [reflexivity|].
  rewrite Forall_app, Forall_cons, IH.
  destruct (N.eqb_spec c 10) as [->|_].
  - assert (Forall (fun c => encodable c = true) (os_linesep p)) as Hsep
      by (destruct p; repeat constructor).
    assert (encodable 10 = true) as H10 by reflexivity. tauto.
  - rewrite Forall_cons, Forall_nil. tauto.
Qed.

(** [save_latex_template(content)] returns [True] exactly when the
    directory exists or can be created, the file can be written, and the
    content has no character the UTF-8 codec rejects.  A directory that
    exists is no obstacle, whatever [read_only] says of it. *)
Theorem save_latex_template_succeeds_iff (env : Env) (content : pystr)
    (w : World) :
  fst (save_latex_template env (Some content) w) = true
  <-> (is_dir w (base_path env ++ ["assets"; "resume_latex"]) = true
       \/ (base_path env ++ ["assets"; "resume_latex"]) ∉ read_only w)
      /\ ((base_path env ++ latex_path) ∉ read_only w)
      /\ Forall (fun c => encodable c = true) content.
Proof.
  unfold save_latex_template, get_base_path.
  rewrite <- (translate_on_write_encodable (platform env)), <- utf8_encode_ok.
  destruct (mkdir_cases w (base_path env ++ ["assets"; "resume_latex"]))
    as [[-> Hd]|[-> [Hnd Hd]]].
  2: { cbn [fst]. split; [discriminate|]. intros [[H|H] _]; [congruence|].
       contradiction. }
  unfold write_bytes, latex_path.
  rewrite <- !app_assoc. cbn [app].
  destruct (decide (_ ∈ read_only w)) as [Hf|Hf];
    [cbn [fst]; split; [discriminate | tauto]|].
  destruct (utf8_encode _) as [data|e]; cbn [mbind result_bind].
  - cbn [set_files read_only].
    destruct (decide (_ ∈ read_only w)); [contradiction|].
    cbn [fst]. split; [eauto | reflexivity].
  - cbn [fst]. split; [discriminate|]. intros (_ & _ & [bs Hbs]). discriminate.
Qed.

(** A failed save reports exactly one error.  When the missing directory
    cannot be created or the file cannot be written no file changes; when
    only the encoding fails the source file is left empty, its earlier
    text gone. *)
Theorem save_latex_template_failure (env : Env) (content : pystr)
    (w w' : World) :
  save_latex_template env (Some content) w = (false, w') ->
  length (errors w') = S (length (errors w))
  /\ ((is_dir w (base_path env ++ ["assets"; "resume_latex"]) = false
       /\ (base_path env ++ ["assets"; "resume_latex"]) ∈ read_only w)
      \/ (base_path env ++ latex_path) ∈ read_only w ->
      files w' = files w)
  /\ (is_dir w (base_path env ++ ["assets"; "resume_latex"]) = true
      \/ (base_path env ++ ["assets"; "resume_latex"]) ∉ read_only w ->
      (base_path env ++ latex_path) ∉ read_only w ->
      files w' !! (base_path env ++ latex_path) = Some []
      /\ ~ Forall (fun c => encodable c = true) content).
Proof.
  unfold save_latex_template, get_base_path.
  destruct (mkdir_cases w (base_path env ++ ["assets"; "resume_latex"]))
    as [[-> Hd]|[-> [Hnd Hd]]].
  2: { intros [= <-]. cbn [st_error errors files]. rewrite length_app.
       split; [simpl; lia|]. split; [reflexivity|].
       intros [H|H]; [congruence | contradiction]. }
  unfold write_bytes, latex_path.
  rewrite <- !app_assoc. cbn [app].
  destruct (decide (_ ∈ read_only w)) as [Hf|Hf].
  { intros [= <-]. cbn [st_error errors files]. rewrite length_app.
    split; [simpl; lia|]. split; [reflexivity | contradiction]. }
  destruct (utf8_encode _) as [data|e] eqn:Henc; cbn [mbind result_bind].
  - cbn [set_files read_only].
    destruct (decide (_ ∈ read_only w)); [contradiction | discriminate].
  - intros [= <-]. cbn [st_error set_files errors files].
    rewrite length_app. split; [simpl; lia|]. split.
    + intros [[H1 H2]|H]; [|contradiction].
      destruct Hd as [Hd|Hd]; [congruence | contradiction].
    + intros _ _. split; [apply lookup_insert_eq|].
      intros Hall.
      apply (translate_on_write_encodable (platform env)) in Hall.
      apply utf8_encode_ok in Hall as [bs Hbs]. congruence.
Qed.

(** A save, successful or not, touches no file but the source file, and
    leaves the working directory and the write protection as they were. *)
Theorem save_latex_template_frame (env : Env) (content : option pystr)
    (w : World) (p : Path) :
  p <> base_path env ++ latex_path ->
  files (snd (save_latex_template env content w)) !! p = files w !! p
  /\ cwd (snd (save_latex_template env content w)) = cwd w
  /\ read_only (snd (save_latex_template env content w)) = read_only w.
Proof.
  intros Hp.
  unfold save_latex_template, get_base_path.
  destruct (mkdir_cases w (base_path env ++ ["assets"; "resume_latex"]))
    as [[-> _]|[-> _]]; [|repeat split; reflexivity].
  unfold write_bytes, latex_path in *.
  rewrite <- !app_assoc. cbn [app].
  destruct (decide (_ ∈ read_only w)); [repeat split; reflexivity|].
  destruct (utf8_encode _) as [data|e]; cbn [mbind result_bind].
  - cbn [set_files read_only].
    destruct (decide (_ ∈ read_only w)); [contradiction|].
    cbn [snd set_files files cwd read_only].
    rewrite !lookup_insert_ne by congruence. repeat split; reflexivity.
  - cbn [snd st_error set_files files cwd read_only].
    rewrite lookup_insert_ne by congruence. repeat split; reflexivity.
Qed.

(** ** Loading the source for the editor *)

Lemma template_encodable :
  Forall (fun c => encodable c = true) get_latex_template.
Proof.
  apply Forall_forall. intros c Hc. apply list_elem_of_In in Hc.
  assert (forallb encodable get_latex_template = true) as Hall
    by (vm_compute; reflexivity).
  rewrite forallb_forall in Hall. apply Hall. exact Hc.
Qed.

Lemma template_no_carriage_return (c : N) :
  c ∈ get_latex_template -> c <> 13%N.
Proof.
  intros Hc. apply list_elem_of_In in Hc.
  assert (forallb (fun c => negb (N.eqb c 13)) get_latex_template = true)
    as Hall by (vm_compute; reflexivity).
  rewrite forallb_forall in Hall. specialize (Hall c Hc).
  apply negb_true_iff, N.eqb_neq in Hall. exact Hall.
Qed.

(** What saving the default template leaves in the source file: the
    earlier content when a path is write-protected, the encoded template
    otherwise. *)
Lemma save_template_file (env : Env) (w : World) :
  let w' := snd (save_latex_template env (Some get_latex_template) w) in
  files w' !! (base_path env ++ latex_path)
  = files w !! (base_path env ++ latex_path)
  \/ read_text w' (base_path env ++ latex_path) = Ok get_latex_template.
Proof.
  cbv zeta.
  destruct (save_latex_template env (Some get_latex_template) w)
    as [[|] w'] eqn:Hsave; cbn [snd].
  - right.
    destruct (save_latex_template_stores env _ w w' Hsave)
      as (data & Henc & Hfile & _).
    unfold read_text, read_bytes. rewrite Hfile. cbn [mbind result_bind].
    rewrite (utf8_decode_encode _ _ Henc). cbn [mbind result_bind].
    rewrite universal_newlines_translate; [reflexivity|].
    apply template_no_carriage_return.
  - left. revert Hsave.
    unfold save_latex_template, get_base_path.
    destruct (mkdir_cases w (base_path env ++ ["assets"; "resume_latex"]))
      as [[-> _]|[-> _]]; [|intros [= <-]; reflexivity].
    unfold write_bytes, latex_path.
    rewrite <- !app_assoc. cbn [app].
    destruct (decide (_ ∈ read_only w)); [intros [= <-]; reflexivity|].
    destruct (utf8_encode _) as [data|e] eqn:Henc; cbn [mbind result_bind].
    + cbn [set_files read_only].
      destruct (decide (_ ∈ read_only w)); [contradiction | discriminate].
    + exfalso.
      assert (exists bs,
                utf8_encode (translate_on_write (platform env)
                               get_latex_template) = Ok bs) as [bs Hbs].
      { apply utf8_encode_ok, translate_on_write_encodable.
        exact template_encodable. }
      congruence.
Qed.

Lemma save_latex_template_keeps (env : Env) (content : option pystr)
    (w : World) :
  cwd (snd (save_latex_template env content w)) = cwd w
  /\ forall p, p <> base_path env ++ latex_path ->
       files (snd (save_latex_template env content w)) !! p = files w !! p.
Proof.
  unfold save_latex_template, get_base_path.
  destruct (mkdir_cases w (base_path env ++ ["assets"; "resume_latex"]))
    as [[-> _]|[-> _]]; [|split; reflexivity].
  unfold write_bytes, latex_path.
  rewrite <- !app_assoc. cbn [app].
  destruct (decide (_ ∈ read_only w)); [split; reflexivity|].
  destruct (utf8_encode _) as [data|e]; cbn [mbind result_bind].
  - cbn [set_files read_only].
    destruct (decide (_ ∈ read_only w)); [contradiction|].
    cbn [snd set_files files cwd]. split; [reflexivity|].
    intros p Hp. rewrite !lookup_insert_ne by congruence. reflexivity.
  - cbn [snd st_error set_files files cwd]. split; [reflexivity|].
    intros p Hp. rewrite lookup_insert_ne by congruence. reflexivity.
Qed.

(** Loading the source for the editor twice shows the same text, also
    when the first load had to create the file from the default
    template. *)
Theorem load_latex_source_stable (env : Env) (w w' : World)
    (content : pystr) :
  load_latex_source env w = (Ok content, w') ->
  fst (load_latex_source env w') = Ok content.
Proof.
  unfold load_latex_source.
  destruct (path_exists w (cwd w ++ latex_path)) eqn:Hexists.
  - intros [= Hread <-]. rewrite Hexists. exact Hread.
  - pose proof (save_latex_template_keeps env (Some get_latex_template) w)
      as [Hcwd Hkeep].
    pose proof (save_template_file env w) as Hfile. cbv zeta in Hfile.
    destruct (save_latex_template env (Some get_latex_template) w)
      as [b w1]. cbn [snd] in *.
    intros [= <- <-].
    destruct (path_exists w1 (cwd w1 ++ latex_path)) eqn:Hexists1.
    2: { destruct (save_latex_template env (Some get_latex_template) w1).
         reflexivity. }
    cbn [fst]. unfold read_latex_source. rewrite Hcwd in *.
    unfold path_exists in Hexists, Hexists1.
    destruct (decide (cwd w ++ latex_path = base_path env ++ latex_path))
      as [Heq|Hne].
    + rewrite Heq in *. destruct Hfile as [Hsame|Hread]; [|exact Hread].
      rewrite Hsame in Hexists1. congruence.
    + rewrite (Hkeep _ Hne) in Hexists1. congruence.
Qed.

(** ** Effects of [compile_latex_resume] *)

Lemma copy2_spec (w w' : World) (src dst : Path) :
  copy2 w src dst = Ok w' ->
  exists data,
    files w !! src = Some data
    /\ files w' = <[dst := data]> (files w)
    /\ cwd w' = cwd w /\ read_only w' = read_only w /\ errors w' = errors w.
Proof.
  unfold copy2, read_bytes, write_bytes.
  destruct (files w !! src) as [data|]; [|discriminate].
  cbn [mbind result_bind].
  destruct (decide (dst ∈ read_only w)); [discriminate|].
  intros [= <-]. exists data. repeat split; reflexivity.
Qed.

Lemma clean_aux_spec (dir : Path) (exts : list string) :
  forall (w w' : World) (r : result unit),
    clean_aux dir exts w = (r, w') ->
    cwd w' = cwd w /\ read_only w' = read_only w /\ errors w' = errors w
    /\ (forall p, (forall ext, ext ∈ exts -> p <> dir ++ ["resume" +:+ ext]) ->
                  files w' !! p = files w !! p)
    /\ (forall p, files w !! p = None -> files w' !! p = None)
    /\ (r = Ok tt ->
        forall ext, ext ∈ exts ->
                    files w' !! (dir ++ ["resume" +:+ ext]) = None).
Proof.
  induction exts as [|ext rest IH]; intros w w' r Hclean.
  - simpl in Hclean. injection Hclean as <- <-.
    repeat split; try reflexivity; try tauto.
    intros _ ext Hext. apply elem_of_nil in Hext. contradiction.
  - cbn [clean_aux] in Hclean. unfold path_exists, unlink in Hclean.
    destruct (files w !! (dir ++ ["resume" +:+ ext])) as [old|] eqn:Hold.
    + destruct (decide (_ ∈ read_only w)).
      * injection Hclean as <- <-.
        repeat split; try reflexivity; try tauto. discriminate.
      * apply IH in Hclean as (Hc & Hr & He & Hother & Hnone & Hgone).
        cbn [set_files cwd read_only errors files] in *.
        split; [exact Hc|]. split; [exact Hr|]. split; [exact He|].
        split; [|split].
        -- intros p Hp. rewrite Hother.
           ++ apply lookup_delete_ne. intros Heq.
              apply (Hp ext (list_elem_of_here _ _)). congruence.
           ++ intros ext' Hext'. apply Hp, list_elem_of_further. exact Hext'.
        -- intros p Hp. apply Hnone.
           destruct (decide (p = dir ++ ["resume" +:+ ext])) as [->|Hne].
           ++ apply lookup_delete_eq.
           ++ rewrite lookup_delete_ne by congruence. exact Hp.
        -- intros Hok ext' Hext'.
           apply elem_of_cons in Hext' as [->|Hext']; [|auto].
           apply Hnone. apply lookup_delete_eq.
    + apply IH in Hclean as (Hc & Hr & He & Hother & Hnone & Hgone).
      split; [exact Hc|]. split; [exact Hr|]. split; [exact He|].
      split; [|split].
      * intros p Hp. apply Hother. intros ext' Hext'.
        apply Hp, list_elem_of_further. exact Hext'.
      * exact Hnone.
      * intros Hok ext' Hext'.
        apply elem_of_cons in Hext' as [->|Hext']; [|auto].
        apply Hnone. exact Hold.
Qed.

(** Whatever happens, [compile_latex_resume] leaves the working directory
    and the write protection as they were. *)
Theorem compile_latex_resume_restores_cwd (env : Env) (w : World) :
  cwd (snd (compile_latex_resume env w)) = cwd w
  /\ read_only (snd (compile_latex_resume env w)) = read_only w.
Proof.
  unfold compile_latex_resume, compile_failed, get_base_path.
  destruct (path_exists w _); cbn [negb]; [|split; reflexivity].
  cbn [cwd chdir files].
  destruct (pdflatex env _ (files w)) as [rc1 stderr1 files1|e];
    [|split; reflexivity].
  destruct (negb (Z.eqb rc1 0)); [split; reflexivity|].
  cbn [cwd chdir set_files files].
  destruct (pdflatex env _ files1) as [rc2 stderr2 files2|e];
    [|split; reflexivity].
  match goal with
  | |- context [match ?c with Ok _ => _ | Raise _ => _ end] =>
      destruct c as [w5|e] eqn:Hcopy
  end; [|split; reflexivity].
  assert (read_only w5 = read_only w) as Hro5.
  { destruct (path_exists _ _).
    - apply copy2_spec in Hcopy as (data & _ & _ & _ & Hro & _). exact Hro.
    - injection Hcopy as <-. reflexivity. }
  destruct (clean_aux _ aux_extensions w5) as [r w7] eqn:Hclean.
  apply clean_aux_spec in Hclean as (_ & Hro7 & _).
  destruct r; cbn [snd cwd read_only chdir st_error]; split;
    try reflexivity; congruence.
Qed.

(** A failed compilation is reported by exactly one error message, a
    successful one by none. *)
Theorem compile_latex_resume_reports_once (env : Env) (w : World) :
  if fst (compile_latex_resume env w)
  then errors (snd (compile_latex_resume env w)) = errors w
  else exists msg,
         errors (snd (compile_latex_resume env w)) = errors w ++ [msg].
Proof.
  unfold compile_latex_resume, compile_failed, get_base_path.
  destruct (path_exists w _); cbn [negb]; [|cbn [fst snd]; eauto].
  cbn [cwd chdir files].
  destruct (pdflatex env _ (files w)) as [rc1 stderr1 files1|e];
    [|cbn [fst snd]; eauto].
  destruct (negb (Z.eqb rc1 0)); [cbn [fst snd]; eauto|].
  cbn [cwd chdir set_files files].
  destruct (pdflatex env _ files1) as [rc2 stderr2 files2|e];
    [|cbn [fst snd]; eauto].
  match goal with
  | |- context [match ?c with Ok _ => _ | Raise _ => _ end] =>
      destruct c as [w5|e] eqn:Hcopy
  end; [|cbn [fst snd]; eauto].
  assert (errors w5 = errors w) as He5.
  { destruct (path_exists _ _).
    - apply copy2_spec in Hcopy as (data & _ & _ & _ & _ & He). exact He.
    - injection Hcopy as <-. reflexivity. }
  destruct (clean_aux _ aux_extensions w5) as [r w7] eqn:Hclean.
  apply clean_aux_spec in Hclean as (_ & _ & He7 & _).
  destruct r; cbn [fst snd errors chdir st_error].
  - congruence.
  - eexists. rewrite He7, He5. reflexivity.
Qed.

Lemma aux_path_not_pdf (base : Path) (ext : string) (p : Path) :
  ext ∈ aux_extensions ->
  p = base ++ ["assets"; "resume_latex"; "resume.pdf"]
  \/ p = base ++ ["assets"; "resume.pdf"] ->
  p <> (base ++ ["assets"; "resume_latex"]) ++ ["resume" +:+ ext].
Proof.
  intros Hext Hp Heq. rewrite <- app_assoc in Heq. cbn [app] in Heq.
  destruct Hp as [->| ->]; apply app_inv_head in Heq.
  - unfold aux_extensions in Hext.
    repeat (apply elem_of_cons in Hext as [->|Hext]; [discriminate|]).
    apply elem_of_nil in Hext. contradiction.
  - discriminate.
Qed.

Lemma compile_latex_resume_copies_pdf (env : Env) (w w' : World)
    (data : list Byte.byte) :
  compile_latex_resume env w = (true, w') ->
  files w' !! (base_path env ++ ["assets"; "resume_latex"; "resume.pdf"])
  = Some data ->
  files w' !! (base_path env ++ ["assets"; "resume.pdf"]) = Some data.
Proof.
  unfold compile_latex_resume, compile_failed, get_base_path.
  destruct (path_exists w _); cbn [negb]; [|intros [=]].
  cbn [cwd chdir files].
  destruct (pdflatex env _ (files w)) as [rc1 stderr1 files1|e];
    [|intros [=]].
  destruct (negb (Z.eqb rc1 0)); [intros [=]|].
  cbn [cwd chdir set_files files].
  destruct (pdflatex env _ files1) as [rc2 stderr2 files2|e];
    [|intros [=]].
  set (dir := base_path env ++ ["assets"; "resume_latex"]).
  set (src := dir ++ ["resume.pdf"]).
  set (dst := base_path env ++ ["assets"; "resume.pdf"]).
  match goal with
  | |- context [match ?c with Ok _ => _ | Raise _ => _ end] =>
      destruct c as [w5|e] eqn:Hcopy
  end; [|intros [=]].
  destruct (clean_aux dir aux_extensions w5) as [r w7] eqn:Hclean.
  apply clean_aux_spec in Hclean as (_ & _ & _ & Hother & _ & Hgone).
  destruct r as [[]|e]; [|intros [=]].
  intros Hres.
  assert (w' = chdir w7 (cwd w)) as -> by congruence. clear Hres.
  revert data.
  assert (src = base_path env ++ ["assets"; "resume_latex"; "resume.pdf"])
    as Hsrc by (unfold src, dir; rewrite <- app_assoc; reflexivity).
  rewrite <- Hsrc. cbn [chdir files]. fold dst.
  assert (files w7 !! src = files w5 !! src) as ->.
  { apply Hother. intros ext Hext.
    apply (aux_path_not_pdf (base_path env) ext src Hext).
    left. exact Hsrc. }
  assert (files w7 !! dst = files w5 !! dst) as ->.
  { apply Hother. intros ext Hext.
    apply (aux_path_not_pdf (base_path env) ext dst Hext).
    right. reflexivity. }
  assert (src <> dst) as Hne.
  { rewrite Hsrc. unfold dst. intros Heq. apply app_inv_head in Heq.
    discriminate. }
  unfold path_exists in Hcopy.
  change (files (set_files (set_files (chdir w dir) files1) files2))
    with files2 in Hcopy.
  destruct (files2 !! src) as [pdf|] eqn:Hpdf.
  - apply copy2_spec in Hcopy as (data' & Hread & Hfiles & _).
    cbn [files set_files] in Hread, Hfiles. rewrite Hfiles.
    rewrite lookup_insert_ne by congruence. rewrite lookup_insert_eq.
    intros data Hdata. congruence.
  - assert (w5 = set_files (set_files (chdir w dir) files1) files2)
      as -> by congruence.
    cbn [files set_files]. intros data Hdata. congruence.
Qed.

(** After a compilation that returned [True] none of the five auxiliary
    files is left in the LaTeX directory, and a PDF present in the LaTeX
    directory is also what [assets/resume.pdf] holds. *)
Theorem compile_latex_resume_success_state (env : Env) (w w' : World) :
  compile_latex_resume env w = (true, w') ->
  (forall ext, ext ∈ aux_extensions ->
     path_exists w'
       ((base_path env ++ ["assets"; "resume_latex"]) ++ ["resume" +:+ ext])
     = false)
  /\ (forall data,
        files w' !! (base_path env ++ ["assets"; "resume_latex"; "resume.pdf"])
        = Some data ->
        files w' !! (base_path env ++ ["assets"; "resume.pdf"]) = Some data).
Proof.
  intros Hrun. split.
  2: { intros data. apply (compile_latex_resume_copies_pdf env w w' data Hrun). }
  revert Hrun.
  unfold compile_latex_resume, compile_failed, get_base_path.
  destruct (path_exists w _); cbn [negb]; [|intros [=]].
  cbn [cwd chdir files].
  destruct (pdflatex env _ (files w)) as [rc1 stderr1 files1|e];
    [|intros [=]].
  destruct (negb (Z.eqb rc1 0)); [intros [=]|].
  cbn [cwd chdir set_files files].
  destruct (pdflatex env _ files1) as [rc2 stderr2 files2|e];
    [|intros [=]].
  set (dir := base_path env ++ ["assets"; "resume_latex"]).
  set (src := dir ++ ["resume.pdf"]).
  set (dst := base_path env ++ ["assets"; "resume.pdf"]).
  match goal with
  | |- context [match ?c with Ok _ => _ | Raise _ => _ end] =>
      destruct c as [w5|e] eqn:Hcopy
  end; [|intros [=]].
  destruct (clean_aux dir aux_extensions w5) as [r w7] eqn:Hclean.
  apply clean_aux_spec in Hclean as (_ & _ & _ & Hother & _ & Hgone).
  destruct r as [[]|e]; [|intros [=]].
  intros Hres.
  assert (w' = chdir w7 (cwd w)) as -> by congruence. clear Hres.
  intros ext Hext. unfold path_exists. cbn [chdir files].
  rewrite (Hgone eq_refl ext Hext). reflexivity.
Qed.

(** ** Showing and downloading the PDF *)

Lemma b64encode_nil (data : list Byte.byte) :
  b64encode data = EmptyString <-> data = [].
Proof.
  unfold b64encode. split; [|intros ->; reflexivity].
  destruct data as [|a [|b [|c rest]]]; [reflexivity | | |]; discriminate.
Qed.

(** [create_pdf_download_button] returns [True] exactly when the file
    exists, empty or not, and then offers the file's bytes under the
    given name; for a missing file it reports one error. *)
Theorem create_pdf_download_button_result (env : Env) (pdf_path : Path)
    (filename label : string) (w : World) :
  match files w !! (base_path env ++ pdf_path) with
  | Some data =>
      create_pdf_download_button env pdf_path filename label w
      = (true, Some (data, filename), w)
  | None =>
      create_pdf_download_button env pdf_path filename label w
      = (false, None, st_error w "PDF file not found")
  end.
Proof.
  unfold create_pdf_download_button, get_base_path, path_exists, read_bytes.
  destruct (files w !! (base_path env ++ pdf_path)); reflexivity.
Qed.

Lemma load_pdf_as_base64_body_spec (env : Env) (pdf_path : Path)
    (w : World) :
  load_pdf_as_base64_body env pdf_path w
  = (b64encode <$> files w !! (base_path env ++ pdf_path), w).
Proof.
  unfold load_pdf_as_base64_body, get_base_path, path_exists, read_bytes.
  destruct (files w !! (base_path env ++ pdf_path)); reflexivity.
Qed.

(** Whether [display_pdf_viewer] shows a stored value. *)
Lemma display_pdf_viewer_stored (env : Env) (pdf_path : Path) (height : Z)
    (cache : PdfCache) (w : World) (v : option string) :
  cache !! pdf_path = Some v ->
  display_pdf_viewer env pdf_path height cache w
  = match v with
    | Some (String c s) => (true, Some (String c s, height), cache, w)
    | _ => (false, None, cache, st_error w pdf_not_found)
    end.
Proof.
  intros Hv. unfold display_pdf_viewer, load_pdf_as_base64. rewrite Hv.
  reflexivity.
Qed.

(** The first call of [display_pdf_viewer] for a path returns [True]
    exactly when the file exists and is not empty; it then embeds the
    base64 text of the file's bytes with the given height and reports
    nothing.  Otherwise, also for an existing empty file, it shows no
    frame and reports that the PDF was not found.  In each case the value
    loaded is stored for the path. *)
Theorem display_pdf_viewer_first_call (env : Env) (pdf_path : Path)
    (height : Z) (cache : PdfCache) (w : World) :
  cache !! pdf_path = None ->
  match files w !! (base_path env ++ pdf_path) with
  | Some (b :: data) =>
      display_pdf_viewer env pdf_path height cache w
      = (true, Some (b64encode (b :: data), height),
         <[pdf_path := Some (b64encode (b :: data))]> cache, w)
  | Some [] =>
      display_pdf_viewer env pdf_path height cache w
      = (false, None, <[pdf_path := Some EmptyString]> cache,
         st_error w pdf_not_found)
  | None =>
      display_pdf_viewer env pdf_path height cache w
      = (false, None, <[pdf_path := None]> cache, st_error w pdf_not_found)
  end.
Proof.
  intros Hcold. unfold display_pdf_viewer, load_pdf_as_base64.
  rewrite Hcold, load_pdf_as_base64_body_spec.
  destruct (files w !! (base_path env ++ pdf_path)) as [[|b data]|];
    cbn [fmap option_fmap option_map]; try reflexivity.
  destruct (b64encode (b :: data)) as [|c s] eqn:E; [|reflexivity].
  apply b64encode_nil in E. discriminate.
Qed.

(** What [display_pdf_viewer] answers for a path it keeps answering: a
    later call for the same path returns the same result with the same
    base64 payload, whatever the file holds by then, and leaves the store
    as it is. *)
Theorem display_pdf_viewer_repeats (env : Env) (pdf_path : Path)
    (height1 height2 : Z) (cache cache1 : PdfCache) (w1 w1' w2 : World)
    (shown : bool) (frame : option (string * Z)) :
  display_pdf_viewer env pdf_path height1 cache w1
  = (shown, frame, cache1, w1') ->
  display_pdf_viewer env pdf_path height2 cache1 w2
  = (shown, (fun f => (fst f, height2)) <$> frame, cache1,
     if shown then w2 else st_error w2 pdf_not_found).
Proof.
  intros Hfirst.
  assert (exists v,
            cache1 !! pdf_path = Some v
            /\ (shown, frame)
               = match v with
                 | Some (String c s) => (true, Some (String c s, height1))
                 | _ => (false, None)
                 end) as (v & Hv & Hshown).
  { unfold display_pdf_viewer, load_pdf_as_base64 in Hfirst.
    destruct (cache !! pdf_path) as [v|] eqn:Hcache.
    - exists v. destruct v as [[|c s]|]; injection Hfirst as <- <- <- _;
        (split; [exact Hcache | reflexivity]).
    - rewrite load_pdf_as_base64_body_spec in Hfirst.
      exists (b64encode <$> files w1 !! (base_path env ++ pdf_path)).
      destruct (b64encode <$> files w1 !! (base_path env ++ pdf_path))
        as [[|c s]|]; injection Hfirst as <- <- <- _;
        (split; [apply lookup_insert_eq | reflexivity]). }
  rewrite (display_pdf_viewer_stored env pdf_path height2 cache1 w2 v Hv).
  destruct v as [[|c s]|]; injection Hshown as -> ->; reflexivity.
Qed.

(** After a compilation that returned [True] and left a non-empty PDF in
    the LaTeX directory, a viewer that has not loaded [assets/resume.pdf]
    before shows that PDF. *)
Theorem compile_then_view (env : Env) (w w' : World) (height : Z)
    (cache : PdfCache) (b : Byte.byte) (data : list Byte.byte) :
  compile_latex_resume env w = (true, w') ->
  files w' !! (base_path env ++ ["assets"; "resume_latex"; "resume.pdf"])
  = Some (b :: data) ->
  cache !! ["assets"; "resume.pdf"] = None ->
  display_pdf_viewer env ["assets"; "resume.pdf"] height cache w'
  = (true, Some (b64encode (b :: data), height),
     <[["assets"; "resume.pdf"] := Some (b64encode (b :: data))]> cache, w').
Proof.
  intros Hrun Hpdf Hcold.
  pose proof (compile_latex_resume_copies_pdf env w w' _ Hrun Hpdf) as Hcopy.
  unfold display_pdf_viewer, load_pdf_as_base64.
  rewrite Hcold, load_pdf_as_base64_body_spec, Hcopy.
  cbn [fmap option_fmap option_map].
  destruct (b64encode (b :: data)) as [|c s] eqn:E; [|reflexivity].
  apply b64encode_nil in E. discriminate.
Qed.

(** * The further properties on the sample data *)

Example sample_session_repeated :
  process_driver_data_body sample_session ["HAM"; "VER"; "VER"]
  = Ok (sample_data, sample_series ++ sample_series).
Proof. vm_compute. reflexivity. Qed.

Example sample_plots_result :
  create_telemetry_plots sample_data ["VER"; "HAM"] 1 60 = Ok sample_plots.
Proof. vm_compute. reflexivity. Qed.

Example sample_stats_result :
  get_lap_summary_stats sample_data ["VER"; "HAM"] 1 = Ok sample_stats.
Proof. vm_compute. reflexivity. Qed.

Lemma process_driver_data_combined_witness :
  process_driver_data_body sample_session ["VER"; "HAM"]
  = Ok (sample_data, sample_series)
  /\ (sample_data = ∅ <-> sample_series = []).
Proof.
  split; [exact sample_session_result|].
  apply (process_driver_data_combined sample_session ["VER"; "HAM"]
           sample_data sample_series sample_session_result).
Defined.

Lemma process_driver_data_same_drivers_witness :
  (forall d : string, d ∈ ["VER"; "HAM"] <-> d ∈ ["HAM"; "VER"; "VER"])
  /\ sample_data = sample_data.
Proof.
  assert (forall d : string, d ∈ ["VER"; "HAM"] <-> d ∈ ["HAM"; "VER"; "VER"])
    as Hsame.
  { intros d. rewrite !elem_of_cons, !elem_of_nil. tauto. }
  split; [exact Hsame|].
  exact (process_driver_data_same_drivers sample_session _ _ _ _ _ _ Hsame
           sample_session_result sample_session_repeated).
Defined.

Lemma update_track_marker_last_query_witness :
  update_track_marker sample_figure sample_data ["VER"; "HAM"] 60
  = Ok sample_marker_at_50
  /\ update_track_marker sample_marker_at_50 sample_data ["VER"; "HAM"] 75
     = Ok sample_marker_at_50
  /\ update_track_marker sample_figure sample_data ["VER"; "HAM"] 75
     = Ok sample_marker_at_50.
Proof.
  assert (update_track_marker sample_figure sample_data ["VER"; "HAM"] 60
          = Ok sample_marker_at_50) as H1 by (vm_compute; reflexivity).
  assert (update_track_marker sample_marker_at_50 sample_data
            ["VER"; "HAM"] 75 = Ok sample_marker_at_50) as H2
    by (vm_compute; reflexivity).
  split; [exact H1|]. split; [exact H2|].
  exact (update_track_marker_last_query _ _ _ _ _ _ _ H1 H2).
Defined.

Lemma marker_stays_on_outline_witness :
  create_track_plot sample_data ["VER"; "HAM"] 600 = Ok sample_figure
  /\ update_track_marker sample_figure sample_data ["VER"; "HAM"] 60
     = Ok sample_marker_at_50
  /\ (sample_marker_at_50 = empty_figure
      \/ exists outline marker i mx my,
           Figure.data sample_marker_at_50 = [outline; marker]
           /\ Trace.x marker = [mx] /\ Trace.y marker = [my]
           /\ Trace.x outline !! i = Some mx
           /\ Trace.y outline !! i = Some my).
Proof.
  assert (update_track_marker sample_figure sample_data ["VER"; "HAM"] 60
          = Ok sample_marker_at_50) as H2 by (vm_compute; reflexivity).
  split; [exact sample_track_plot|]. split; [exact H2|].
  exact (marker_stays_on_outline _ _ _ _ _ _ sample_track_plot H2).
Defined.

Lemma create_telemetry_plots_sorted_witness :
  create_telemetry_plots sample_data ["VER"; "HAM"] 1 60 = Ok sample_plots
  /\ forall tr, tr ∈ Figure.data sample_plots ->
       StronglySorted Qle (Trace.x tr).
Proof.
  split; [exact sample_plots_result|]. intros tr Htr.
  destruct (create_telemetry_plots_sorted _ _ _ _ _ _ _ sample_plots_result
              tr Htr) as (d & _ & _ & Hsorted & _).
  exact Hsorted.
Defined.

Lemma create_telemetry_plots_colours_witness :
  create_telemetry_plots sample_data ["VER"; "HAM"] 1 60 = Ok sample_plots
  /\ forall tr, tr ∈ Figure.data sample_plots ->
       Trace.style tr
       = Line (if String.eqb (Trace.name tr) "HAM" then "#FF6B35"
               else if String.eqb (Trace.name tr) "VER" then "#00D4FF"
               else "white") 2.
Proof.
  split; [exact sample_plots_result|].
  exact (create_telemetry_plots_colours _ _ _ _ _ _ _ sample_plots_result).
Defined.

Lemma lap_summary_stats_drs_percentage_witness :
  get_lap_summary_stats sample_data ["VER"; "HAM"] 1 = Ok sample_stats
  /\ sample_stats !! "VER" = Some sample_ver_stats
  /\ (0 <= Stats.drs_usage sample_ver_stats <= 100)%Q.
Proof.
  assert (sample_stats !! "VER" = Some sample_ver_stats) as H2
    by (vm_compute; reflexivity).
  split; [exact sample_stats_result|]. split; [exact H2|].
  apply (lap_summary_stats_drs_percentage _ _ _ _ _ _ sample_stats_result H2).
Defined.

Lemma available_laps_have_stats_witness :
  available_laps sample_data ["VER"; "HAM"] = Ok [1; 2]
  /\ StronglySorted Z.lt [1; 2].
Proof.
  assert (available_laps sample_data ["VER"; "HAM"] = Ok [1; 2]) as H
    by (vm_compute; reflexivity).
  split; [exact H|].
  apply (available_laps_have_stats _ _ _ _ H).
Defined.

Lemma default_lap_is_reference_lap_witness :
  available_laps sample_data ["VER"; "HAM"] = Ok [1; 2]
  /\ selected_reference sample_data ["VER"; "HAM"]
     = driver_lap_rows sample_data 1 "VER".
Proof.
  assert (available_laps sample_data ["VER"; "HAM"] = Ok [1; 2]) as H
    by (vm_compute; reflexivity).
  split; [exact H|].
  apply (default_lap_is_reference_lap _ _ _ _ _ H).
Defined.

Lemma get_available_events_occurred_witness :
  Exists (fun e => Event.EventDate e <= 50) mixed_season
  /\ get_available_events (fun _ => Ok mixed_season) 50 2024
     = ["Race 1"; "Race 3"].
Proof.
  assert (Exists (fun e => Event.EventDate e <= 50) mixed_season) as H.
  { apply Exists_cons_hd. simpl. lia. }
  split; [exact H|].
  destruct (get_available_events_occurred (fun _ => Ok mixed_season) 50 2024
              mixed_season eq_refl) as [_ Hexact].
  rewrite (Hexact H). reflexivity.
Defined.

Lemma read_text_no_carriage_return_witness :
  read_text saved_world (base_path (plain_env Windows) ++ latex_path)
  = Ok two_lines
  /\ forall c, c ∈ two_lines -> c <> 13%N.
Proof.
  assert (read_text saved_world (base_path (plain_env Windows) ++ latex_path)
          = Ok two_lines) as H by (vm_compute; reflexivity).
  split; [exact H|].
  exact (read_text_no_carriage_return _ _ _ H).
Defined.

Lemma read_save_read_latex_witness :
  read_text saved_world (base_path (plain_env Windows) ++ latex_path)
  = Ok two_lines
  /\ save_latex_template (plain_env Windows) (Some two_lines) saved_world
     = (true, saved_world)
  /\ read_text saved_world (base_path (plain_env Windows) ++ latex_path)
     = Ok two_lines.
Proof.
  assert (read_text saved_world (base_path (plain_env Windows) ++ latex_path)
          = Ok two_lines) as H1 by (vm_compute; reflexivity).
  assert (save_latex_template (plain_env Windows) (Some two_lines)
            saved_world = (true, saved_world)) as H2
    by (vm_compute; reflexivity).
  split; [exact H1|]. split; [exact H2|].
  exact (read_save_read_latex _ _ _ _ H1 H2).
Defined.

(** An existing directory is no obstacle to a save, also when it is
    write-protected. *)
Example save_in_protected_directory :
  is_dir protected_dir_world ["app"; "assets"; "resume_latex"] = true
  /\ ["app"; "assets"; "resume_latex"] ∈ read_only protected_dir_world
  /\ fst (save_latex_template (plain_env Posix) (Some two_lines)
            protected_dir_world) = true.
Proof.
  split; [vm_compute; reflexivity|]. split; vm_compute; reflexivity.
Qed.

Lemma save_latex_template_failure_witness :
  save_latex_template (plain_env Posix) (Some surrogate_text)
    protected_dir_world
  = (false, failed_save_world)
  /\ is_dir protected_dir_world ["app"; "assets"; "resume_latex"] = true
  /\ files protected_dir_world
       !! (base_path (plain_env Posix) ++ latex_path) <> Some []
  /\ files failed_save_world !! (base_path (plain_env Posix) ++ latex_path)
     = Some [].
Proof.
  assert (save_latex_template (plain_env Posix) (Some surrogate_text)
            protected_dir_world = (false, failed_save_world)) as H
    by (vm_compute; reflexivity).
  assert (is_dir protected_dir_world ["app"; "assets"; "resume_latex"]
          = true) as Hdir by (vm_compute; reflexivity).
  split; [exact H|]. split; [exact Hdir|].
  split; [vm_compute; discriminate|].
  destruct (save_latex_template_failure _ _ _ _ H) as (_ & _ & Hempty).
  apply Hempty; [left; exact Hdir|].
  intros Hin. vm_compute in Hin. discriminate.
Defined.

Lemma save_latex_template_frame_witness :
  ["app"; "notes.txt"] <> base_path (plain_env Posix) ++ latex_path
  /\ cwd (snd (save_latex_template (plain_env Posix) (Some two_lines)
                 saved_world)) = cwd saved_world.
Proof.
  assert (["app"; "notes.txt"] <> base_path (plain_env Posix) ++ latex_path)
    as H by discriminate.
  split; [exact H|].
  apply (save_latex_template_frame (plain_env Posix) (Some two_lines)
           saved_world _ H).
Defined.

Lemma load_latex_source_stable_witness :
  load_latex_source (plain_env Posix) empty_world
  = (Ok get_latex_template, loaded_world)
  /\ fst (load_latex_source (plain_env Posix) loaded_world)
     = Ok get_latex_template.
Proof.
  assert (load_latex_source (plain_env Posix) empty_world
          = (Ok get_latex_template, loaded_world)) as H
    by (vm_compute; reflexivity).
  split; [exact H|].
  exact (load_latex_source_stable _ _ _ _ H).
Defined.

Lemma compile_latex_resume_success_state_witness :
  compile_latex_resume two_pass_env resume_world = (true, compiled_world)
  /\ path_exists compiled_world
       ["app"; "assets"; "resume_latex"; "resume.aux"] = false.
Proof.
  assert (compile_latex_resume two_pass_env resume_world
          = (true, compiled_world)) as H by (vm_compute; reflexivity).
  split; [exact H|].
  destruct (compile_latex_resume_success_state _ _ _ H) as [Haux _].
  apply (Haux ".aux"). apply list_elem_of_here.
Defined.

Lemma compile_then_view_witness :
  compile_latex_resume two_pass_env resume_world = (true, compiled_world)
  /\ files compiled_world !! ["app"; "assets"; "resume_latex"; "resume.pdf"]
     = Some (list_byte_of_string "second pass")
  /\ fst (fst (fst (display_pdf_viewer two_pass_env ["assets"; "resume.pdf"]
                      800 ∅ compiled_world))) = true.
Proof.
  assert (compile_latex_resume two_pass_env resume_world
          = (true, compiled_world)) as H1 by (vm_compute; reflexivity).
  assert (files compiled_world
            !! ["app"; "assets"; "resume_latex"; "resume.pdf"]
          = Some (list_byte_of_string "second pass")) as H2
    by (vm_compute; reflexivity).
  split; [exact H1|]. split; [exact H2|].
  rewrite (compile_then_view two_pass_env resume_world compiled_world 800
             ∅ _ _ H1 H2 (lookup_empty _)).
  reflexivity.
Defined.

Lemma display_pdf_viewer_first_call_witness :
  (∅ : PdfCache) !! ["assets"; "resume.pdf"] = None
  /\ display_pdf_viewer two_pass_env ["assets"; "resume.pdf"] 800 ∅
       empty_world
     = (false, None, {[ ["assets"; "resume.pdf"] := None ]},
        st_error empty_world pdf_not_found).
Proof.
  split; [apply lookup_empty|].
  exact (display_pdf_viewer_first_call two_pass_env ["assets"; "resume.pdf"]
           800 ∅ empty_world (lookup_empty _)).
Defined.

Lemma display_pdf_viewer_repeats_witness :
  display_pdf_viewer two_pass_env ["assets"; "resume.pdf"] 800 ∅ resume_world
  = (true, Some (b64encode (list_byte_of_string "previous"), 800),
     viewed_cache, resume_world)
  /\ files compiled_world !! ["app"; "assets"; "resume.pdf"]
     = Some (list_byte_of_string "second pass")
  /\ display_pdf_viewer two_pass_env ["assets"; "resume.pdf"] 800
       viewed_cache compiled_world
     = (true, Some (b64encode (list_byte_of_string "previous"), 800),
        viewed_cache, compiled_world).
Proof.
  assert (display_pdf_viewer two_pass_env ["assets"; "resume.pdf"] 800 ∅
            resume_world
          = (true, Some (b64encode (list_byte_of_string "previous"), 800),
             viewed_cache, resume_world)) as H by (vm_compute; reflexivity).
  split; [exact H|]. split; [vm_compute; reflexivity|].
  exact (display_pdf_viewer_repeats two_pass_env ["assets"; "resume.pdf"]
           800 800 ∅ viewed_cache resume_world resume_world compiled_world
           true _ H).
Defined.
